(** * Resume optimizer: parser, keyword comparator, template injector and filler

    A shallow embedding of the TypeScript sources
    ([lib/resume-parser.ts], [lib/analyze.ts], [lib/template-populate.ts],
    [scripts/generate-template.ts], [app/api/optimize/route.ts]) together
    with the properties the specification states about them.

    JavaScript strings are sequences of UTF-16 code units; a code unit is a
    number in [N] and a string is a [list] of them.  Optional properties
    ([name?: string]) are [option]s, [undefined] and [null] both being [None].
    Objects used as insertion-ordered maps ([Record<string, string>]) are
    association lists. *)

From Stdlib Require Import String Ascii DecimalString.
From Stdlib Require Import List NArith Bool Arith Lia Permutation.
Import ListNotations.

(* ================================================================== *)
(** ** JavaScript strings *)
(* ================================================================== *)

Definition char := N.
Definition jsstring := list char.

(** A string literal of the source, as code units. *)
Definition str (s : string) : jsstring :=
  map N_of_ascii (list_ascii_of_string s).
Arguments str s%_string.

(** [String(i)] for a non-negative integer. *)
Definition String_of_nat (i : nat) : jsstring :=
  str (NilEmpty.string_of_uint (Nat.to_uint i)).

Fixpoint str_eqb (a b : jsstring) : bool :=
  match a, b with
  | [], [] => true
  | x :: a', y :: b' => N.eqb x y && str_eqb a' b'
  | _, _ => false
  end.

(** Truthiness of a string value: [""] is falsy. *)
Definition nonEmpty (s : jsstring) : bool :=
  match s with [] => false | _ :: _ => true end.

(** Truthiness of [string | undefined]. *)
Definition truthy (o : option jsstring) : bool :=
  match o with Some s => nonEmpty s | None => false end.

(** [a ?? b] *)
Definition nullish {A} (a : option A) (b : option A) : option A :=
  match a with Some _ => a | None => b end.

(** [a ?? d] with a default that is always defined. *)
Definition orDefault {A} (a : option A) (d : A) : A :=
  match a with Some v => v | None => d end.

(** [s || undefined] *)
Definition orUndefined (o : option jsstring) : option jsstring :=
  if truthy o then o else None.

Infix "??" := nullish (at level 61, left associativity).
Infix "?:" := orDefault (at level 62, left associativity).

Module Chars.
Local Open Scope N_scope.

Definition inRange (lo hi c : char) : bool := (lo <=? c) && (c <=? hi).

Definition isDigit (c : char) : bool := inRange 48 57 c.
Definition isUpper (c : char) : bool := inRange 65 90 c.
Definition isLower (c : char) : bool := inRange 97 122 c.
(** [\w] *)
Definition isWord (c : char) : bool :=
  isLower c || isUpper c || isDigit c || (c =? 95).
(** Line terminators: LF, CR, LS, PS. *)
Definition isLineTerminator (c : char) : bool :=
  (c =? 10) || (c =? 13) || (c =? 8232) || (c =? 8233).
(** [\s], also what [trim] removes: white space and line terminators. *)
Definition isSpace (c : char) : bool :=
  inRange 9 13 c || (c =? 32) || (c =? 160) || (c =? 5760)
  || inRange 8192 8202 c || (c =? 8232) || (c =? 8233) || (c =? 8239)
  || (c =? 8287) || (c =? 12288) || (c =? 65279).

(** Case folding of the [i] flag.  Without the [u] flag a code unit outside
    ASCII never folds to an ASCII one, and the patterns of this program
    spell letters in ASCII only, so folding ASCII letters is exact. *)
Definition toUpper (c : char) : char := if isLower c then c - 32 else c.
Definition toLower (c : char) : char := if isUpper c then c + 32 else c.
End Chars.

Module JS.
(** [s.trim()] *)
Fixpoint trimStart (s : jsstring) : jsstring :=
  match s with
  | c :: s' => if Chars.isSpace c then trimStart s' else s
  | [] => []
  end.
Definition trimEnd (s : jsstring) : jsstring := rev (trimStart (rev s)).
Definition trim (s : jsstring) : jsstring := trimEnd (trimStart s).

(** A string is blank when it holds white space only: [!s.trim()]. *)
Definition blank (s : jsstring) : bool := forallb Chars.isSpace s.

(** [s.startsWith(p)], and the rest of [s] behind the prefix. *)
Fixpoint stripPrefix (p s : jsstring) : option jsstring :=
  match p, s with
  | [], _ => Some s
  | x :: p', y :: s' => if N.eqb x y then stripPrefix p' s' else None
  | _ :: _, [] => None
  end.

(** [s.indexOf(p)], [None] for -1. *)
Fixpoint indexOf (s p : jsstring) : option nat :=
  match stripPrefix p s with
  | Some _ => Some 0
  | None =>
      match s with
      | [] => None
      | _ :: s' => option_map S (indexOf s' p)
      end
  end.

(** [s.includes(p)] *)
Definition includes (s p : jsstring) : bool :=
  match indexOf s p with Some _ => true | None => false end.

(** [s.slice(a)] and [s.slice(0, b)] for non-negative bounds. *)
Definition sliceFrom (a : nat) (s : jsstring) : jsstring := skipn a s.
Definition sliceTo (b : nat) (s : jsstring) : jsstring := firstn b s.

(** [parts.join(sep)] *)
Fixpoint join (sep : jsstring) (parts : list jsstring) : jsstring :=
  match parts with
  | [] => []
  | [p] => p
  | p :: rest => p ++ sep ++ join sep rest
  end.

(** [s.split(sep)] for a string separator.  The scan restarts behind each
    occurrence; [fuel] bounds the number of steps and [length s] suffices. *)
Fixpoint splitGo (fuel : nat) (sep cur s : jsstring) : list jsstring :=
  match fuel with
  | O => [rev cur]
  | S fuel' =>
      match s with
      | [] => [rev cur]
      | c :: s' =>
          match stripPrefix sep s with
          | Some rest => rev cur :: splitGo fuel' sep [] rest
          | None => splitGo fuel' sep (c :: cur) s'
          end
      end
  end.

Definition split (sep s : jsstring) : list jsstring :=
  match sep with
  | [] => map (fun c => [c]) s
  | _ :: _ => splitGo (length s) sep [] s
  end.

(** [s.replace(/c/g, rep)] for a single literal character [c]. *)
Definition replaceChar (c : char) (rep s : jsstring) : jsstring :=
  flat_map (fun x => if N.eqb x c then rep else [x]) s.
Arguments replaceChar c%_N rep s.

(** [xs.filter(Boolean)] on strings. *)
Definition filterNonEmpty (xs : list jsstring) : list jsstring :=
  filter nonEmpty xs.

(** [xs.filter(Boolean)] on [string | undefined]. *)
Fixpoint filterTruthy (xs : list (option jsstring)) : list jsstring :=
  match xs with
  | [] => []
  | Some (c :: s) :: rest => (c :: s) :: filterTruthy rest
  | _ :: rest => filterTruthy rest
  end.
End JS.

(* ================================================================== *)
(** ** Regular expressions

    The patterns of the source are kept as syntax trees and run by a
    backtracking matcher that follows the ECMAScript semantics: alternatives
    are tried left to right, quantifiers are greedy, an iteration of [*]
    that consumes nothing is rejected, and a search takes the leftmost start
    that matches. *)
(* ================================================================== *)

Module RegExp.

(** A member of a character class [[...]]. *)
Inductive citem :=
| IChar (c : char)
| IRange (lo hi : char)
| IWord                       (* \w *)
| IDigit                      (* \d *)
| ISpace.                     (* \s *)
Arguments IChar c%_N.
Arguments IRange (lo hi)%_N.

Inductive regex :=
| Empty
| Chr (c : char)
| Dot                                         (* . *)
| Cls (items : list citem)                    (* [...] *)
| NCls (items : list citem)                   (* [^...] *)
| Seq (a b : regex)
| Alt (a b : regex)                           (* a|b *)
| Rep (min : nat) (max : option nat) (a : regex)   (* a{min,max}, greedy *)
| Cap (n : nat) (a : regex)                   (* n-th capture group *)
| Look (a : regex)                            (* (?=a) *)
| Bol                                         (* ^ *)
| Eol                                         (* $ *)
| WordB.                                      (* \b *)
Arguments Chr c%_N.

Definition Star := Rep 0 None.                (* a* *)
Definition Plus := Rep 1 None.                (* a+ *)
Definition Opt := Rep 0 (Some 1).             (* a? *)
Definition Exactly (n : nat) := Rep n (Some n).   (* a{n} *)

(** A literal run of characters. *)
Fixpoint Lit (s : jsstring) : regex :=
  match s with
  | [] => Empty
  | [c] => Chr c
  | c :: s' => Seq (Chr c) (Lit s')
  end.

Fixpoint Seqs (rs : list regex) : regex :=
  match rs with
  | [] => Empty
  | [r] => r
  | r :: rs' => Seq r (Seqs rs')
  end.

Fixpoint Alts (rs : list regex) : regex :=
  match rs with
  | [] => NCls [IRange 0%N 65535%N]
  | [r] => r
  | r :: rs' => Alt r (Alts rs')
  end.

Record flags := { ignoreCase : bool; multiline : bool }.
Definition noFlags := {| ignoreCase := false; multiline := false |}.
Definition flag_i := {| ignoreCase := true; multiline := false |}.
Definition flag_m := {| ignoreCase := false; multiline := true |}.
Definition flag_im := {| ignoreCase := true; multiline := true |}.

Definition itemHas (it : citem) (c : char) : bool :=
  match it with
  | IChar a => N.eqb a c
  | IRange lo hi => Chars.inRange lo hi c
  | IWord => Chars.isWord c
  | IDigit => Chars.isDigit c
  | ISpace => Chars.isSpace c
  end.

(** With the [i] flag a character belongs to a class when one of its case
    variants does. *)
Definition inClass (fl : flags) (items : list citem) (c : char) : bool :=
  existsb (fun it =>
    itemHas it c
    || (ignoreCase fl && (itemHas it (Chars.toUpper c) || itemHas it (Chars.toLower c))))
    items.

Definition charEq (fl : flags) (a c : char) : bool :=
  if ignoreCase fl then N.eqb (Chars.toUpper a) (Chars.toUpper c) else N.eqb a c.

(** The matcher's state: the input before the current position (nearest
    character first), the input from the current position on, and the
    captures so far. *)
Record mstate := {
  before : jsstring;
  after : jsstring;
  caps : list (nat * jsstring)
}.

Definition step1 (x : mstate) (c : char) (rest : jsstring) : mstate :=
  {| before := c :: before x; after := rest; caps := caps x |}.

Definition one (p : char -> bool) (k : mstate -> option mstate) (x : mstate)
  : option mstate :=
  match after x with
  | c :: rest => if p c then k (step1 x c rest) else None
  | [] => None
  end.

Definition headIs (p : char -> bool) (s : jsstring) : bool :=
  match s with c :: _ => p c | [] => false end.

Definition atBol (fl : flags) (x : mstate) : bool :=
  match before x with
  | [] => true
  | c :: _ => multiline fl && Chars.isLineTerminator c
  end.

Definition atEol (fl : flags) (x : mstate) : bool :=
  match after x with
  | [] => true
  | c :: _ => multiline fl && Chars.isLineTerminator c
  end.

Definition atWordB (x : mstate) : bool :=
  xorb (headIs Chars.isWord (before x)) (headIs Chars.isWord (after x)).

Definition spent (max : option nat) : bool :=
  match max with Some O => true | _ => false end.

Definition lessOne (max : option nat) : option nat :=
  option_map Nat.pred max.

(** [run fl r k x]: match [r] at [x] and hand the state behind the match to
    the continuation [k]; [None] makes the matcher backtrack. *)
Fixpoint run (fl : flags) (r : regex) (k : mstate -> option mstate) (x : mstate)
  {struct r} : option mstate :=
  match r with
  | Empty => k x
  | Chr c => one (charEq fl c) k x
  | Dot => one (fun c => negb (Chars.isLineTerminator c)) k x
  | Cls items => one (inClass fl items) k x
  | NCls items => one (fun c => negb (inClass fl items c)) k x
  | Seq a b => run fl a (run fl b k) x
  | Alt a b =>
      match run fl a k x with
      | Some y => Some y
      | None => run fl b k x
      end
  | Rep min max a =>
      let fix greedy (fuel : nat) (max : option nat) (x : mstate) {struct fuel}
        : option mstate :=
        match fuel with
        | O => k x
        | S fuel' =>
            if spent max then k x
            else
              match
                run fl a
                  (fun y =>
                     if length (after y) <? length (after x)
                     then greedy fuel' (lessOne max) y
                     else None)
                  x
              with
              | Some z => Some z
              | None => k x
              end
        end in
      let fix exact (n : nat) (x : mstate) {struct n} : option mstate :=
        match n with
        | O => greedy (S (length (after x))) (option_map (fun mx => mx - min) max) x
        | S n' => run fl a (exact n') x
        end in
      exact min x
  | Cap n a =>
      run fl a
        (fun y =>
           k {| before := before y; after := after y;
                caps := (n, firstn (length (after x) - length (after y)) (after x))
                          :: caps y |})
        x
  | Look a =>
      match run fl a Some x with
      | Some y => k {| before := before x; after := after x; caps := caps y |}
      | None => None
      end
  | Bol => if atBol fl x then k x else None
  | Eol => if atEol fl x then k x else None
  | WordB => if atWordB x then k x else None
  end.

(** A match anchored at the current position: the number of code units
    consumed and the captures. *)
Definition matchAt (fl : flags) (r : regex) (prev rest : jsstring)
  : option (nat * list (nat * jsstring)) :=
  match run fl r Some {| before := prev; after := rest; caps := [] |} with
  | Some y => Some (length rest - length (after y), caps y)
  | None => None
  end.

(** The result of [exec]: index, matched text, captures. *)
Record result := {
  index : nat;
  matched : jsstring;
  groups : list (nat * jsstring)
}.

Fixpoint search (fl : flags) (r : regex) (i : nat) (prev rest : jsstring)
  : option result :=
  match matchAt fl r prev rest with
  | Some (n, cs) => Some {| index := i; matched := firstn n rest; groups := cs |}
  | None =>
      match rest with
      | [] => None
      | c :: rest' => search fl r (S i) (c :: prev) rest'
      end
  end.

(** [s.match(r)] for a pattern without the [g] flag. *)
Definition exec (fl : flags) (r : regex) (s : jsstring) : option result :=
  search fl r 0 [] s.

(** [r.test(s)] *)
Definition test (fl : flags) (r : regex) (s : jsstring) : bool :=
  match exec fl r s with Some _ => true | None => false end.

(** [m[n]] of a match: the last capture made by group [n]. *)
Fixpoint group (n : nat) (cs : list (nat * jsstring)) : option jsstring :=
  match cs with
  | [] => None
  | (i, s) :: cs' => if Nat.eqb i n then Some s else group n cs'
  end.

(** [s.replace(r, rep)] without the [g] flag; [rep] holds no [$]. *)
Definition replace (fl : flags) (r : regex) (rep s : jsstring) : jsstring :=
  match exec fl r s with
  | Some m =>
      firstn (index m) s ++ rep ++ skipn (index m + length (matched m)) s
  | None => s
  end.

(** [s.replace(r, rep)] with the [g] flag.  [skip] counts the characters of
    the last match still to be dropped; an empty match is followed by one
    copied character. *)
Fixpoint replaceGo (fl : flags) (r : regex) (rep : jsstring) (skip : nat)
  (prev rest : jsstring) {struct rest} : jsstring :=
  match skip with
  | S skip' =>
      match rest with
      | [] => []
      | c :: rest' => replaceGo fl r rep skip' (c :: prev) rest'
      end
  | O =>
      match matchAt fl r prev rest with
      | Some (n, _) =>
          rep ++ match rest with
                 | [] => []
                 | c :: rest' =>
                     match n with
                     | O => c :: replaceGo fl r rep 0 (c :: prev) rest'
                     | S n' => replaceGo fl r rep n' (c :: prev) rest'
                     end
                 end
      | None =>
          match rest with
          | [] => []
          | c :: rest' => c :: replaceGo fl r rep 0 (c :: prev) rest'
          end
      end
  end.

Definition replaceAll (fl : flags) (r : regex) (rep s : jsstring) : jsstring :=
  replaceGo fl r rep 0 [] s.

(** [s.split(r)] for a pattern without capture groups.  [cur] is the piece
    being collected (nearest character first) and [skip] the characters of
    the last separator still to be dropped.  A separator that is empty
    where the piece starts does not split. *)
Fixpoint splitGo (fl : flags) (r : regex) (skip : nat) (prev cur rest : jsstring)
  : list jsstring :=
  match rest with
  | [] => [rev cur]
  | c :: rest' =>
      match skip with
      | S skip' => splitGo fl r skip' (c :: prev) cur rest'
      | O =>
          match matchAt fl r prev rest with
          | Some (S n, _) => rev cur :: splitGo fl r n (c :: prev) [] rest'
          | Some (O, _) =>
              match cur with
              | [] => splitGo fl r 0 (c :: prev) [c] rest'
              | _ :: _ => rev cur :: splitGo fl r 0 (c :: prev) [c] rest'
              end
          | None => splitGo fl r 0 (c :: prev) (c :: cur) rest'
          end
      end
  end.

Definition split (fl : flags) (r : regex) (s : jsstring) : list jsstring :=
  match s with
  | [] => match matchAt fl r [] [] with Some _ => [] | None => [[]] end
  | _ :: _ => splitGo fl r 0 [] [] s
  end.

(** The two loops of a quantifier by themselves, for a pattern that is
    matched by [runA]: [run] on [Rep min max a] is [exactLoop] with the
    matcher of [a]. *)
Definition greedyLoop (runA : (mstate -> option mstate) -> mstate -> option mstate)
  (k : mstate -> option mstate) : nat -> option nat -> mstate -> option mstate :=
  fix greedy (fuel : nat) (max : option nat) (x : mstate) {struct fuel}
    : option mstate :=
    match fuel with
    | O => k x
    | S fuel' =>
        if spent max then k x
        else
          match
            runA
              (fun y =>
                 if length (after y) <? length (after x)
                 then greedy fuel' (lessOne max) y
                 else None)
              x
          with
          | Some z => Some z
          | None => k x
          end
    end.

Definition exactLoop (runA : (mstate -> option mstate) -> mstate -> option mstate)
  (k : mstate -> option mstate) (min : nat) (max : option nat)
  : nat -> mstate -> option mstate :=
  fix exact (n : nat) (x : mstate) {struct n} : option mstate :=
    match n with
    | O =>
        greedyLoop runA k (S (length (after x)))
          (option_map (fun mx => mx - min) max) x
    | S n' => runA (exact n') x
    end.

(** *** What a match is

    The relation the matcher computes: [matches fl r x y] says that the
    pattern [r] matches from state [x] to state [y]. *)

(** One character that satisfies [p] is taken. *)
Definition takes (p : char -> bool) (x y : mstate) : Prop :=
  exists c rest, after x = c :: rest /\ p c = true /\ y = step1 x c rest.

(** [n] matches in a row. *)
Fixpoint iter (M : mstate -> mstate -> Prop) (n : nat) (x y : mstate) : Prop :=
  match n with
  | O => y = x
  | S n' => exists m, M x m /\ iter M n' m y
  end.

Fixpoint matches (fl : flags) (r : regex) (x y : mstate) : Prop :=
  match r with
  | Empty => y = x
  | Chr c => takes (charEq fl c) x y
  | Dot => takes (fun c => negb (Chars.isLineTerminator c)) x y
  | Cls items => takes (inClass fl items) x y
  | NCls items => takes (fun c => negb (inClass fl items c)) x y
  | Seq a b => exists m, matches fl a x m /\ matches fl b m y
  | Alt a b => matches fl a x y \/ matches fl b x y
  | Rep min max a =>
      exists n, iter (matches fl a) n x y
                /\ min <= n /\ (forall m, max = Some m -> n <= Nat.max min m)
  | Cap n a =>
      exists m, matches fl a x m
                /\ y = {| before := before m; after := after m;
                          caps := (n, firstn (length (after x) - length (after m))
                                        (after x)) :: caps m |}
  | Look a =>
      exists m, matches fl a x m
                /\ y = {| before := before x; after := after x; caps := caps m |}
  | Bol => atBol fl x = true /\ y = x
  | Eol => atEol fl x = true /\ y = x
  | WordB => atWordB x = true /\ y = x
  end.

(** A match moves forward over a piece [s] of the input. *)
Definition over (s : jsstring) (x y : mstate) : Prop :=
  after x = s ++ after y /\ before y = rev s ++ before x.

(** The character a pattern starts with, where its shape tells. *)
Fixpoint headChar (r : regex) : option char :=
  match r with
  | Chr c => Some c
  | Seq a _ => headChar a
  | _ => None
  end.

(** A pattern of one character: at each position it takes the character
    there if that satisfies [p], and nothing else. *)
Definition oneChar (fl : flags) (r : regex) (p : char -> bool) : Prop :=
  forall prev rest,
    matchAt fl r prev rest
    = match rest with
      | c :: _ => if p c then Some (1, []) else None
      | [] => None
      end.

End RegExp.

(* ================================================================== *)
(** ** lib/types.ts *)
(* ================================================================== *)

Module Contact.
Record t := mk {
  name : option jsstring;
  email : option jsstring;
  phone : option jsstring;
  location : option jsstring;
  linkedin : option jsstring
}.
(** The object literal [{}]. *)
Definition empty : t := mk None None None None None.
End Contact.

Module EducationEntry.
Record t := mk {
  school : option jsstring;
  degree : option jsstring;
  dates : option jsstring;
  gpa : option jsstring;
  rawText : option jsstring
}.
End EducationEntry.

Module ExperienceEntry.
Record t := mk {
  company : option jsstring;
  role : option jsstring;
  location : option jsstring;
  dates : option jsstring;
  subheader : option jsstring;
  bullets : list jsstring
}.
End ExperienceEntry.

Module ProjectEntry.
Record t := mk {
  title : option jsstring;
  bullets : list jsstring
}.
End ProjectEntry.

Module ParsedResume.
Record t := mk {
  contact : Contact.t;
  education : list EducationEntry.t;
  experience : list ExperienceEntry.t;
  projects : list ProjectEntry.t;
  skills : list jsstring;
  (** Raw section title -> content for unmapped sections. *)
  otherSections : option (list (jsstring * jsstring))
}.
End ParsedResume.

(** The sparse overlay returned by the rewriting step.  It is parsed JSON cast
    to the interface, and the code reads [bullets] through [?? []], so an
    entry's bullets may be missing. *)
Module OptimizedSections.
Record experienceEntry := mkExperience {
  company : option jsstring;
  role : option jsstring;
  subheader : option jsstring;
  bullets : option (list jsstring)
}.
Record projectEntry := mkProject {
  title : option jsstring;
  projectBullets : option (list jsstring)
}.
Record t := mk {
  experience : option (list experienceEntry);
  education : option (list EducationEntry.t);
  projects : option (list projectEntry);
  skills : option (list jsstring);
  contact : option Contact.t
}.
(** The object literal [{}]. *)
Definition empty : t := mk None None None None None.
End OptimizedSections.

Module AnalyzeResponse.
Record t := mk {
  missingKeywords : list jsstring;
  matchedKeywords : list jsstring
}.
End AnalyzeResponse.

(** [xs[i]] of an array: [undefined] out of range. *)
Definition at_ {A} (xs : list A) (i : nat) : option A := nth_error xs i.

(** [xs?.length ? a : b] on an optional array. *)
Definition hasLength {A} (xs : option (list A)) : bool :=
  match xs with Some (_ :: _) => true | _ => false end.

(* ================================================================== *)
(** ** A JavaScript [Set] of strings: members in insertion order *)
(* ================================================================== *)

Module StringSet.
Definition t := list jsstring.
Definition has (s : t) (x : jsstring) : bool := existsb (str_eqb x) s.
Definition add (s : t) (x : jsstring) : t := if has s x then s else s ++ [x].
(** [new Set(xs)] *)
Definition ofList (xs : list jsstring) : t := fold_left add xs [].
End StringSet.

(* ================================================================== *)
(** ** lib/analyze.ts *)
(* ================================================================== *)

(** [/^\d+$/.test(s)]: the token is purely numeric. *)
Definition isNumeric (s : jsstring) : bool :=
  RegExp.test RegExp.noFlags
    (RegExp.Seqs [RegExp.Bol; RegExp.Plus (RegExp.Cls [RegExp.IDigit]); RegExp.Eol]) s.

(** The filter of [tokenize]: [(s) => s.length > 2 && !/^\d+$/.test(s)]. *)
Definition keepToken (s : jsstring) : bool :=
  (2 <? length s) && negb (isNumeric s).

Section Analyze.
Import RegExp.

(** [String.prototype.toLowerCase], the Unicode lower-casing of the
    platform. *)
Variable toLowerCase : jsstring -> jsstring.

Definition tokenize (text : jsstring) : StringSet.t :=
  let normalized :=
    replaceAll noFlags (Plus (Cls [ISpace])) (str " ")
      (replaceAll noFlags (NCls [IWord; ISpace]) (str " ")
         (toLowerCase text)) in
  StringSet.ofList
    (filter keepToken (map JS.trim (JS.split (str " ") normalized))).

Definition resumeText (resume : ParsedResume.t) : jsstring :=
  let parts :=
    [ Contact.name (ParsedResume.contact resume);
      Contact.email (ParsedResume.contact resume);
      Some (JS.join (str " ") (ParsedResume.skills resume)) ]
    ++ flat_map
         (fun e => [ExperienceEntry.company e; ExperienceEntry.role e]
                   ++ map Some (ExperienceEntry.bullets e))
         (ParsedResume.experience resume)
    ++ flat_map
         (fun p => ProjectEntry.title p :: map Some (ProjectEntry.bullets p))
         (ParsedResume.projects resume)
    ++ map
         (fun e =>
            Some (EducationEntry.rawText e
                  ?: JS.join (str " ")
                       (JS.filterTruthy
                          [EducationEntry.school e; EducationEntry.degree e])))
         (ParsedResume.education resume) in
  JS.join (str " ") (JS.filterTruthy parts).

(** One turn of the loop over the job tokens. *)
Definition classify (resumeTokens : StringSet.t) (acc : AnalyzeResponse.t)
  (t : jsstring) : AnalyzeResponse.t :=
  if StringSet.has resumeTokens t
  then AnalyzeResponse.mk (AnalyzeResponse.missingKeywords acc)
                          (AnalyzeResponse.matchedKeywords acc ++ [t])
  else AnalyzeResponse.mk (AnalyzeResponse.missingKeywords acc ++ [t])
                          (AnalyzeResponse.matchedKeywords acc).

(** Word-level keyword comparison (no multi-word phrases). *)
Definition compareKeywords (resume : ParsedResume.t) (jobDescription : jsstring)
  : AnalyzeResponse.t :=
  let jobTokens := tokenize jobDescription in
  let resumeTokens := tokenize (resumeText resume) in
  fold_left (classify resumeTokens) jobTokens (AnalyzeResponse.mk [] []).
End Analyze.

(** Lower-casing restricted to ASCII letters: what [toLowerCase] does on text
    without other cased characters.  Used to run the comparator on examples. *)
Definition asciiToLowerCase (s : jsstring) : jsstring := map Chars.toLower s.

Section CompareKeywordList.
Variable toLowerCase : jsstring -> jsstring.

(** One turn of the loop over the keyword list: a keyword that is blank is
    skipped, the others are pushed trimmed, in their own spelling. *)
Definition classifyKeyword (text : jsstring) (acc : AnalyzeResponse.t)
  (kw : jsstring) : AnalyzeResponse.t :=
  let normalized := JS.trim kw in
  if negb (nonEmpty normalized) then acc
  else if JS.includes text (toLowerCase normalized)
  then AnalyzeResponse.mk (AnalyzeResponse.missingKeywords acc)
                          (AnalyzeResponse.matchedKeywords acc ++ [normalized])
  else AnalyzeResponse.mk (AnalyzeResponse.missingKeywords acc ++ [normalized])
                          (AnalyzeResponse.matchedKeywords acc).

(** Check which of a list of keywords/phrases appear in the resume
    (substring match, case-insensitive). *)
Definition compareKeywordList (resume : ParsedResume.t) (keywordList : list jsstring)
  : AnalyzeResponse.t :=
  let text := toLowerCase (resumeText resume) in
  fold_left (classifyKeyword text) keywordList (AnalyzeResponse.mk [] []).
End CompareKeywordList.

(* ================================================================== *)
(** ** Objects used as maps: [Record<string, string>]

    Keys keep their insertion order, which is the order [Object.entries]
    walks them in (none of the keys used here is an array index). *)
(* ================================================================== *)

Module Obj.
Definition t := list (jsstring * jsstring).

(** [o[k]] *)
Fixpoint get (o : t) (k : jsstring) : option jsstring :=
  match o with
  | [] => None
  | (k', v) :: o' => if str_eqb k' k then Some v else get o' k
  end.

(** [o[k] = v] *)
Fixpoint set (o : t) (k v : jsstring) : t :=
  match o with
  | [] => [(k, v)]
  | (k', v') :: o' =>
      if str_eqb k' k then (k', v) :: o' else (k', v') :: set o' k v
  end.

(** [Object.keys(o)] *)
Definition keys (o : t) : list jsstring := map fst o.
(** [Object.entries(o)] *)
Definition entries (o : t) : list (jsstring * jsstring) := o.
End Obj.

(** [xs.forEach((x, i) => ...)] and [xs.map((x, i) => ...)]: the elements with
    their indices. *)
Definition indexed {A} (xs : list A) : list (nat * A) :=
  combine (seq 0 (length xs)) xs.

(** [for (let i = 0; i < n; i++) body], threading the state. *)
Definition forUpTo {S} (n : nat) (body : S -> nat -> S) (s : S) : S :=
  fold_left body (seq 0 n) s.

(* ================================================================== *)
(** ** lib/template-populate.ts *)
(* ================================================================== *)

Definition MAX_EDUCATION := 2.
Definition MAX_EXPERIENCE := 3.
Definition MAX_EXPERIENCE_BULLETS := 4.
Definition MAX_PROJECTS := 2.
Definition MAX_PROJECT_BULLETS := 2.

(** A parsed experience entry read as an overlay entry: the overlay's four
    properties of the same object. *)
Definition asOverlayEntry (e : ExperienceEntry.t) : OptimizedSections.experienceEntry :=
  OptimizedSections.mkExperience
    (ExperienceEntry.company e) (ExperienceEntry.role e)
    (ExperienceEntry.subheader e) (Some (ExperienceEntry.bullets e)).

(** [x?.f] *)
Definition opt {A B} (x : option A) (f : A -> option B) : option B :=
  match x with Some a => f a | None => None end.

(** Template literals for the payload keys. *)
Definition key2 (section : string) (i : nat) (field : string) : jsstring :=
  str section ++ str "." ++ String_of_nat i ++ str "." ++ str field.
Definition key3 (section : string) (i : nat) (field : string) (j : nat) : jsstring :=
  key2 section i field ++ str "." ++ String_of_nat j.
Arguments key2 section%_string i field%_string.
Arguments key3 section%_string i field%_string j.

(** Build flat placeholder key -> value map for template substitution. *)
Definition buildTemplatePayload (parsed : ParsedResume.t)
  (optimized : option OptimizedSections.t) : Obj.t :=
  let contact :=
    opt optimized OptimizedSections.contact ?: ParsedResume.contact parsed in
  let education :=
    opt optimized OptimizedSections.education ?: ParsedResume.education parsed in
  let experience :=
    opt optimized OptimizedSections.experience
    ?: map asOverlayEntry (ParsedResume.experience parsed) in
  let skills :=
    opt optimized OptimizedSections.skills ?: ParsedResume.skills parsed in
  let payload : Obj.t :=
    [ (str "contact.name", Contact.name contact ?: str "");
      (str "contact.phone", Contact.phone contact ?: str "");
      (str "contact.email", Contact.email contact ?: str "");
      (str "contact.location", Contact.location contact ?: str "");
      (str "contact.linkedin", Contact.linkedin contact ?: str "");
      (str "skills", JS.join (str ", ") skills) ] in
  let payload :=
    forUpTo MAX_EDUCATION
      (fun payload i =>
         let e := at_ education i ?? at_ (ParsedResume.education parsed) i in
         let payload := Obj.set payload (key2 "education" i "school")
                          (opt e EducationEntry.school ?: str "") in
         let payload := Obj.set payload (key2 "education" i "degree")
                          (opt e EducationEntry.degree ?: str "") in
         let payload := Obj.set payload (key2 "education" i "dates")
                          (opt e EducationEntry.dates ?: str "") in
         Obj.set payload (key2 "education" i "gpa")
           (opt e EducationEntry.gpa ?: str ""))
      payload in
  let payload :=
    forUpTo MAX_EXPERIENCE
      (fun payload i =>
         let o := at_ experience i in
         let orig := at_ (ParsedResume.experience parsed) i in
         let payload := Obj.set payload (key2 "experience" i "company")
                          (opt o OptimizedSections.company
                           ?? opt orig ExperienceEntry.company ?: str "") in
         let payload := Obj.set payload (key2 "experience" i "role")
                          (opt o OptimizedSections.role
                           ?? opt orig ExperienceEntry.role ?: str "") in
         let payload := Obj.set payload (key2 "experience" i "location")
                          (opt orig ExperienceEntry.location ?: str "") in
         let payload := Obj.set payload (key2 "experience" i "dates")
                          (opt orig ExperienceEntry.dates ?: str "") in
         let payload := Obj.set payload (key2 "experience" i "subheader")
                          (opt o OptimizedSections.subheader
                           ?? opt orig ExperienceEntry.subheader ?: str "") in
         let bullets :=
           opt o OptimizedSections.bullets
           ?? option_map ExperienceEntry.bullets orig ?: [] in
         forUpTo MAX_EXPERIENCE_BULLETS
           (fun payload j =>
              Obj.set payload (key3 "experience" i "bullet" j)
                (at_ bullets j ?: str ""))
           payload)
      payload in
  let payload :=
    forUpTo MAX_PROJECTS
      (fun payload i =>
         let proj := at_ (ParsedResume.projects parsed) i in
         let payload := Obj.set payload (key2 "projects" i "title")
                          (opt proj ProjectEntry.title ?: str "") in
         let bullets := option_map ProjectEntry.bullets proj ?: [] in
         forUpTo MAX_PROJECT_BULLETS
           (fun payload j =>
              Obj.set payload (key3 "projects" i "bullet" j)
                (at_ bullets j ?: str ""))
           payload)
      payload in
  payload.

Definition escapeXmlText (s : jsstring) : jsstring :=
  JS.replaceChar 39 (str "&apos;")
    (JS.replaceChar 34 (str "&quot;")
       (JS.replaceChar 62 (str "&gt;")
          (JS.replaceChar 60 (str "&lt;")
             (JS.replaceChar 38 (str "&amp;") s)))).

(** [`{{${key}}}`] *)
Definition placeholderOf (key : jsstring) : jsstring :=
  str "{{" ++ key ++ str "}}".

(** One turn of the fallback loop: replace any remaining [{{key}}]. *)
Definition fillKey (docXml : jsstring) (entry : jsstring * jsstring) : jsstring :=
  let '(key, value) := entry in
  let placeholder := placeholderOf key in
  if JS.includes docXml placeholder
  then JS.join (escapeXmlText value) (JS.split placeholder docXml)
  else docXml.

Section PopulateTemplate.
(** The docx library's [patchDocument], seen through what it does to the
    text of [word/document.xml]: it gets the template's text and the
    patches (key and escaped value) and returns the patched text.  The
    rest of the package passes through untouched. *)
Variable patchDocument : jsstring -> list (jsstring * jsstring) -> jsstring.

(** Populate template with payload; returns the text of the filled
    document.  The template is taken to hold a [word/document.xml] entry;
    without one the source returns the patched package as it is. *)
Definition populateTemplate (template : jsstring) (payload : Obj.t) : jsstring :=
  let patches := map (fun kv => (fst kv, escapeXmlText (snd kv))) (Obj.entries payload) in
  let docXml := patchDocument template patches in
  fold_left fillKey (Obj.entries payload) docXml.
End PopulateTemplate.

(* ================================================================== *)
(** ** scripts/generate-template.ts *)
(* ================================================================== *)

Definition Replacement := (jsstring * jsstring)%type.

(** [if (v) pairs.push([v, to])] *)
Definition pushIf (v : option jsstring) (to : jsstring) : list Replacement :=
  match v with
  | Some (c :: s) => [(c :: s, to)]
  | _ => []
  end.

Definition buildReplacementsInDocumentOrder (parsed : ParsedResume.t)
  : list Replacement :=
  let c := ParsedResume.contact parsed in
  pushIf (Contact.name c) (str "{{contact.name}}")
  ++ pushIf (Contact.email c) (str "{{contact.email}}")
  ++ pushIf (Contact.phone c) (str "{{contact.phone}}")
  ++ pushIf (Contact.location c) (str "{{contact.location}}")
  ++ pushIf (Contact.linkedin c) (str "{{contact.linkedin}}")
  ++ flat_map
       (fun ie => let '(i, e) := ie in
          pushIf (EducationEntry.school e) (placeholderOf (key2 "education" i "school"))
          ++ pushIf (EducationEntry.degree e) (placeholderOf (key2 "education" i "degree"))
          ++ pushIf (EducationEntry.dates e) (placeholderOf (key2 "education" i "dates"))
          ++ pushIf (EducationEntry.gpa e) (placeholderOf (key2 "education" i "gpa")))
       (indexed (ParsedResume.education parsed))
  ++ flat_map
       (fun ie => let '(i, exp) := ie in
          pushIf (ExperienceEntry.company exp) (placeholderOf (key2 "experience" i "company"))
          ++ pushIf (ExperienceEntry.location exp) (placeholderOf (key2 "experience" i "location"))
          ++ pushIf (ExperienceEntry.dates exp) (placeholderOf (key2 "experience" i "dates"))
          ++ pushIf (ExperienceEntry.role exp) (placeholderOf (key2 "experience" i "role"))
          ++ pushIf (ExperienceEntry.subheader exp)
               (placeholderOf (key2 "experience" i "subheader"))
          ++ flat_map
               (fun jb => let '(j, b) := jb in
                  pushIf (Some b) (placeholderOf (key3 "experience" i "bullet" j)))
               (indexed (ExperienceEntry.bullets exp)))
       (indexed (ParsedResume.experience parsed))
  ++ flat_map
       (fun ip => let '(i, proj) := ip in
          pushIf (ProjectEntry.title proj) (placeholderOf (key2 "projects" i "title"))
          ++ flat_map
               (fun jb => let '(j, b) := jb in
                  pushIf (Some b) (placeholderOf (key3 "projects" i "bullet" j)))
               (indexed (ProjectEntry.bullets proj)))
       (indexed (ParsedResume.projects parsed))
  ++ pushIf (Some (JS.join (str ", ") (ParsedResume.skills parsed))) (str "{{skills}}").

(** Replace first occurrence of [from] with [to] in [s]. *)
Definition replaceFirst (s from to : jsstring) : jsstring :=
  match JS.indexOf s from with
  | None => s
  | Some idx => JS.sliceTo idx s ++ to ++ JS.sliceFrom (idx + length from) s
  end.

(** The replacement loop of [main]: first occurrence each, in list order. *)
Definition applyReplacements (replacements : list Replacement) (docXml : jsstring)
  : jsstring :=
  fold_left
    (fun docXml r =>
       let '(from, to) := r in
       if nonEmpty from then replaceFirst docXml from to else docXml)
    replacements docXml.

(** What [main] writes as the template's [word/document.xml]. *)
Definition generateTemplate (parsed : ParsedResume.t) (docXml : jsstring) : jsstring :=
  applyReplacements (buildReplacementsInDocumentOrder parsed) docXml.

(* ================================================================== *)
(** ** app/api/optimize/route.ts *)
(* ================================================================== *)

Definition mergeOptimizedIntoResume (parsed : ParsedResume.t)
  (optimized : OptimizedSections.t) : ParsedResume.t :=
  let education :=
    if hasLength (OptimizedSections.education optimized)
    then OptimizedSections.education optimized ?: []
    else ParsedResume.education parsed in
  let experience :=
    if hasLength (OptimizedSections.experience optimized)
    then map
           (fun ie => let '(idx, e) := ie in
              let orig := at_ (ParsedResume.experience parsed) idx in
              ExperienceEntry.mk
                (OptimizedSections.company e)
                (OptimizedSections.role e)
                (opt orig ExperienceEntry.location)
                (opt orig ExperienceEntry.dates)
                (OptimizedSections.subheader e ?? opt orig ExperienceEntry.subheader)
                (OptimizedSections.bullets e ?: []))
           (indexed (OptimizedSections.experience optimized ?: []))
    else ParsedResume.experience parsed in
  let skills :=
    if hasLength (OptimizedSections.skills optimized)
    then OptimizedSections.skills optimized ?: []
    else ParsedResume.skills parsed in
  let projects :=
    if hasLength (OptimizedSections.projects optimized)
    then map
           (fun ip => let '(idx, p) := ip in
              ProjectEntry.mk
                (OptimizedSections.title p
                 ?? opt (at_ (ParsedResume.projects parsed) idx) ProjectEntry.title)
                (OptimizedSections.projectBullets p ?: []))
           (indexed (OptimizedSections.projects optimized ?: []))
    else ParsedResume.projects parsed in
  ParsedResume.mk
    (OptimizedSections.contact optimized ?: ParsedResume.contact parsed)
    education experience projects skills
    (ParsedResume.otherSections parsed).

(* ================================================================== *)
(** ** app/api/export/route.ts *)
(* ================================================================== *)

(** The export route hands the stored [optimized] value to the overlay
    parameter of [buildTemplatePayload] and [buildResumeDocx].  What is
    stored there is the merged resume the optimize route saved, so the
    overlay is a [ParsedResume] object read through the overlay's
    properties: every section is present and every entry has its bullets. *)
Definition asOverlayProject (p : ProjectEntry.t) : OptimizedSections.projectEntry :=
  OptimizedSections.mkProject (ProjectEntry.title p) (Some (ProjectEntry.bullets p)).

Definition asOverlay (stored : ParsedResume.t) : OptimizedSections.t :=
  OptimizedSections.mk
    (Some (map asOverlayEntry (ParsedResume.experience stored)))
    (Some (ParsedResume.education stored))
    (Some (map asOverlayProject (ParsedResume.projects stored)))
    (Some (ParsedResume.skills stored))
    (Some (ParsedResume.contact stored)).

(* ================================================================== *)
(** ** lib/docx-export.ts *)
(* ================================================================== *)

Module Docx.

Inductive headingLevel := TITLE | HEADING_1.

(** The options a [Paragraph] is built from: its text or its text runs, its
    heading level and the spacing behind it. *)
Record paragraph := mkParagraph {
  text : option jsstring;
  children : list jsstring;
  heading : option headingLevel;
  spacingAfter : option nat
}.

Definition textParagraph (t : jsstring) (h : option headingLevel) (after : nat)
  : paragraph := mkParagraph (Some t) [] h (Some after).

Definition runParagraph (run : jsstring) (after : option nat) : paragraph :=
  mkParagraph None [run] None after.

(** ["  |  "], [" – "] and ["• "] *)
Definition bar : jsstring := str "  |  ".
Definition dash : jsstring := [32; 8211; 32]%N.
Definition bullet (b : jsstring) : jsstring := [8226; 32]%N ++ b.

(** The experience entries the document shows. *)
Definition exportExperience (parsed : ParsedResume.t)
  (optimized : option OptimizedSections.t) : list ExperienceEntry.t :=
  if hasLength (opt optimized OptimizedSections.experience)
  then map
         (fun ie => let '(i, e) := ie in
            let orig := at_ (ParsedResume.experience parsed) i in
            ExperienceEntry.mk
              (OptimizedSections.company e)
              (OptimizedSections.role e)
              (opt orig ExperienceEntry.location)
              (opt orig ExperienceEntry.dates)
              (OptimizedSections.subheader e ?? opt orig ExperienceEntry.subheader)
              (OptimizedSections.bullets e ?: []))
         (indexed (opt optimized OptimizedSections.experience ?: []))
  else ParsedResume.experience parsed.

Definition educationParagraphs (e : EducationEntry.t) : list paragraph :=
  let line :=
    EducationEntry.rawText e
    ?: JS.join dash
         (JS.filterTruthy
            [EducationEntry.school e; EducationEntry.degree e;
             EducationEntry.dates e; EducationEntry.gpa e]) in
  (if nonEmpty line then [textParagraph line None 60] else [])
  ++ (if truthy (EducationEntry.dates e) && negb (truthy (EducationEntry.rawText e))
      then [textParagraph (EducationEntry.dates e ?: str "") None 120]
      else []).

Definition experienceParagraphs (exp : ExperienceEntry.t) : list paragraph :=
  let header :=
    JS.join bar
      (JS.filterTruthy
         [ExperienceEntry.company exp; ExperienceEntry.location exp;
          ExperienceEntry.dates exp]) in
  let roleLine :=
    JS.join bar
      (JS.filterTruthy [ExperienceEntry.role exp; ExperienceEntry.subheader exp]) in
  (if nonEmpty header then [textParagraph header None 60] else [])
  ++ (if nonEmpty roleLine then [textParagraph roleLine None 120] else [])
  ++ map (fun b => runParagraph (bullet b) (Some 60)) (ExperienceEntry.bullets exp)
  ++ [textParagraph (str "") None 60].

Definition projectParagraphs (proj : ProjectEntry.t) : list paragraph :=
  match ProjectEntry.title proj with
  | Some (c :: t) => [textParagraph (c :: t) None 60]
  | _ => []
  end
  ++ map (fun b => runParagraph (bullet b) (Some 60)) (ProjectEntry.bullets proj)
  ++ [textParagraph (str "") None 120].

Section BuildResumeDocx.
(** [String.prototype.toUpperCase] of the platform. *)
Variable toUpperCase : jsstring -> jsstring.

(** The paragraphs of the document's one section, which the library then
    packs into a docx file. *)
Definition buildResumeDocx (parsed : ParsedResume.t)
  (optimized : option OptimizedSections.t) : list paragraph :=
  let education :=
    opt optimized OptimizedSections.education ?: ParsedResume.education parsed in
  let skills :=
    opt optimized OptimizedSections.skills ?: ParsedResume.skills parsed in
  let contact :=
    opt optimized OptimizedSections.contact ?: ParsedResume.contact parsed in
  let experience := exportExperience parsed optimized in
  let contactStr :=
    JS.join bar
      (JS.filterTruthy
         [Contact.phone contact; Contact.email contact;
          Contact.location contact; Contact.linkedin contact]) in
  [textParagraph (toUpperCase (Contact.name contact ?: str "Resume")) (Some TITLE) 120]
  ++ (if nonEmpty contactStr then [runParagraph contactStr (Some 240)] else [])
  ++ (if 0 <? length education
      then textParagraph (str "EDUCATION") (Some HEADING_1) 120
           :: flat_map educationParagraphs education
      else [])
  ++ (if 0 <? length experience
      then textParagraph (str "PROFESSIONAL EXPERIENCE") (Some HEADING_1) 120
           :: flat_map experienceParagraphs experience
      else [])
  ++ (if 0 <? length (ParsedResume.projects parsed)
      then textParagraph (str "PROJECTS & OUTSIDE EXPERIENCE") (Some HEADING_1) 120
           :: flat_map projectParagraphs (ParsedResume.projects parsed)
      else [])
  ++ (if 0 <? length skills
      then [textParagraph (str "SKILLS") (Some HEADING_1) 120;
            runParagraph (JS.join (str ", ") skills) None]
      else []).
End BuildResumeDocx.

End Docx.

(* ================================================================== *)
(** ** lib/db.ts *)
(* ================================================================== *)

Definition DEFAULT_RESUME_ID : jsstring := str "default".

(** Derive resume primary key from parsed phone (digits only).  Same phone
    => same id => override.  No phone => default. *)
Definition resumeIdFromPhone (phone : option jsstring) : jsstring :=
  if negb (truthy phone) then DEFAULT_RESUME_ID
  else
    let digits :=
      RegExp.replaceAll RegExp.noFlags (RegExp.NCls [RegExp.IDigit]) (str "")
        (phone ?: str "") in
    if 10 <=? length digits then digits else DEFAULT_RESUME_ID.

(* ================================================================== *)
(** ** lib/llm.ts: the provider configuration *)
(* ================================================================== *)

Module LLM.

(** The environment variables the configuration reads. *)
Record env := mkEnv {
  OPENAI_API_KEY : option jsstring;
  MOONSHOT_API_KEY : option jsstring;
  OPENROUTER_API_KEY : option jsstring;
  LLM_MODEL : option jsstring
}.

(** The options the client is constructed with. *)
Record clientOptions := mkClient {
  apiKey : jsstring;
  baseURL : option jsstring
}.

Record config := mkConfig {
  client : clientOptions;
  model : jsstring
}.

(** A call returns or throws an [Error] with a message. *)
Inductive outcome (A : Type) :=
| Return (a : A)
| Throw (message : jsstring).
Arguments Return {A} a.
Arguments Throw {A} message.

Definition MOONSHOT_BASE_URL : jsstring := str "https://api.moonshot.ai/v1".
Definition OPENROUTER_BASE_URL : jsstring := str "https://openrouter.ai/api/v1".

Module DEFAULT_MODELS.
Definition openai : jsstring := str "gpt-4o-mini".
Definition moonshot : jsstring := str "kimi-k2-turbo-preview".
Definition openrouter : jsstring := str "moonshotai/kimi-k2-0905".
End DEFAULT_MODELS.

(** [a || d] on [string | undefined] with a string default. *)
Definition orElse (a : option jsstring) (d : jsstring) : jsstring :=
  if truthy a then a ?: d else d.

Definition getLLMConfig (e : env) : outcome config :=
  let modelOverride := option_map JS.trim (LLM_MODEL e) in
  if truthy (OPENAI_API_KEY e) then
    Return (mkConfig (mkClient (OPENAI_API_KEY e ?: str "") None)
                     (orElse modelOverride DEFAULT_MODELS.openai))
  else if truthy (MOONSHOT_API_KEY e) then
    Return (mkConfig (mkClient (MOONSHOT_API_KEY e ?: str "") (Some MOONSHOT_BASE_URL))
                     (orElse modelOverride DEFAULT_MODELS.moonshot))
  else if truthy (OPENROUTER_API_KEY e) then
    Return (mkConfig (mkClient (OPENROUTER_API_KEY e ?: str "")
                               (Some OPENROUTER_BASE_URL))
                     (orElse modelOverride DEFAULT_MODELS.openrouter))
  else
    Throw (str "No LLM API key set. Set one of: OPENAI_API_KEY, MOONSHOT_API_KEY, OPENROUTER_API_KEY (e.g. in .env or .env.local)").

(** True if any supported LLM provider is configured. *)
Definition isLLMConfigured (e : env) : bool :=
  truthy (OPENAI_API_KEY e) || truthy (MOONSHOT_API_KEY e)
  || truthy (OPENROUTER_API_KEY e).

End LLM.

(* ================================================================== *)
(** ** lib/resume-parser.ts *)
(* ================================================================== *)

(** The code unit of a one-character literal. *)
Definition chr (s : string) : char :=
  match s with
  | String a _ => N_of_ascii a
  | EmptyString => 0%N
  end.
Arguments chr s%_string.

Module Parser.
Import RegExp.

(** Pieces the patterns below share. *)
Definition L (s : string) : regex := Lit (str s).
Arguments L s%_string.
Definition AZ := IRange 65 90.
Definition az := IRange 97 122.
Definition LF : char := 10%N.
Definition TAB : char := 9%N.
Definition CR : char := 13%N.
(** The hyphen, the en dash and the em dash: [[-–—]]. *)
Definition dashes := Cls [IChar 45; IChar 8211; IChar 8212].
Definition ws := Cls [ISpace].
Definition w := Cls [IWord].
Definition d := Cls [IDigit].

(** [text.split(/\n/).map((l) => l.trim()).filter(Boolean)] *)
Definition trimmedLines (text : jsstring) : list jsstring :=
  JS.filterNonEmpty (map JS.trim (split noFlags (Chr LF) text)).

(** [/^[•‣◦⁃∙\-\*\d+\.]\s*/] *)
Definition bulletStart : regex :=
  Seqs [Bol;
        Cls [IChar 8226; IChar 8227; IChar 9702; IChar 8259; IChar 8729;
             IChar (chr "-"); IChar (chr "*"); IDigit; IChar (chr "+");
             IChar (chr ".")];
        Star ws].

Definition extractBullets (text : jsstring) : list jsstring :=
  let lines := trimmedLines text in
  let bullets :=
    fold_left
      (fun bullets line =>
         let cleaned := JS.trim (replace noFlags bulletStart (str "") line) in
         if nonEmpty cleaned then bullets ++ [cleaned] else bullets)
      lines [] in
  if 0 <? length bullets then bullets else JS.filterNonEmpty lines.

(** [/(\w+\s+\d{4}\s*[-–—]\s*(?:Present|\w+\s+\d{4}))/i] *)
Definition DATE_RANGE_REGEX : regex :=
  Cap 1 (Seqs [Plus w; Plus ws; Exactly 4 d; Star ws; dashes; Star ws;
               Alt (L "Present") (Seqs [Plus w; Plus ws; Exactly 4 d])]).

(** [B\.?S\.?] and its siblings. *)
Definition abbrev (a b : string) : regex :=
  Seqs [Chr (chr a); Opt (Chr (chr ".")); Chr (chr b); Opt (Chr (chr "."))].
Arguments abbrev (a b)%_string.

(** ["\\n(?=[A-Z][a-z].*(?:University|College|Institute|School|Bachelor|
    Master|PhD|B\\.?S\\.?|M\\.?S\\.?|B\\.?A\\.?|M\\.?A\\.?))"], flag [i] *)
Definition educationStart : regex :=
  Seq (Chr LF)
    (Look (Seqs [Cls [AZ]; Cls [az]; Star Dot;
                 Alts [L "University"; L "College"; L "Institute"; L "School";
                       L "Bachelor"; L "Master"; L "PhD";
                       abbrev "B" "S"; abbrev "M" "S";
                       abbrev "B" "A"; abbrev "M" "A"]])).

(** [/(\w+\s+\d{4}\s*[-–—]\s*(?:\w+\s+)?\d{4})/] *)
Definition educationDates : regex :=
  Cap 1 (Seqs [Plus w; Plus ws; Exactly 4 d; Star ws; dashes; Star ws;
               Opt (Seq (Plus w) (Plus ws)); Exactly 4 d]).

(** [/GPA[:\s]*([\d.]+)/i] *)
Definition educationGpa : regex :=
  Seqs [L "GPA"; Star (Cls [IChar (chr ":"); ISpace]);
        Cap 1 (Plus (Cls [IDigit; IChar (chr ".")]))].

(** [/(?:B\.?S\.?|M\.?S\.?|B\.?A\.?|M\.?A\.?|PhD|Bachelor'?s?|Master'?s?)
    \s*(?:in\s+[\w\s]+)?/i] *)
Definition educationDegree : regex :=
  Seqs [Alts [abbrev "B" "S"; abbrev "M" "S"; abbrev "B" "A"; abbrev "M" "A";
              L "PhD";
              Seqs [L "Bachelor"; Opt (Chr (chr "'")); Opt (Chr (chr "s"))];
              Seqs [L "Master"; Opt (Chr (chr "'")); Opt (Chr (chr "s"))]];
        Star ws;
        Opt (Seqs [L "in"; Plus ws; Plus (Cls [IWord; ISpace])])].

(** [/(?:University of [^|\n]+|[\w\s]+(?:University|College|Institute)
    (?:\s+of\s+[\w\s]+)?)(?=\s*[|\n]|$)/i] *)
Definition educationSchool : regex :=
  Seq
    (Alt (Seq (L "University of ") (Plus (NCls [IChar (chr "|"); IChar LF])))
         (Seqs [Plus (Cls [IWord; ISpace]);
                Alts [L "University"; L "College"; L "Institute"];
                Opt (Seqs [Plus ws; L "of"; Plus ws; Plus (Cls [IWord; ISpace])])]))
    (Look (Alt (Seq (Star ws) (Cls [IChar (chr "|"); IChar LF])) Eol)).

(** [/\s*\|\s*GPA.*$/i] *)
Definition gpaTail : regex :=
  Seqs [Star ws; Chr (chr "|"); Star ws; L "GPA"; Star Dot; Eol].

(** The body of the loop over the blocks, for a block whose trimmed text
    [t] is not empty. *)
Definition educationEntry (t : jsstring) : EducationEntry.t :=
  let datesMatch := exec noFlags educationDates t in
  let gpaMatch := exec flag_i educationGpa t in
  let degreeMatch := exec flag_i educationDegree t in
  let degree := option_map (fun m => JS.trim (matched m)) degreeMatch in
  let schoolMatch := exec flag_i educationSchool t in
  let school :=
    option_map
      (fun m => JS.trim (replace flag_i gpaTail (str "") (matched m)))
      schoolMatch in
  let school :=
    if negb (truthy school) then
      let firstLine :=
        option_map JS.trim (at_ (split noFlags (Chr LF) t) 0) ?: str "" in
      if nonEmpty firstLine
         && negb (test flag_i DATE_RANGE_REGEX firstLine)
         && negb (test flag_i (Seq Bol (L "GPA")) firstLine)
      then Some (JS.trim (replace flag_i gpaTail (str "") firstLine))
      else school
    else school in
  EducationEntry.mk
    (orUndefined school)
    (orUndefined degree)
    (opt datesMatch (fun m => group 1 (groups m)))
    (opt gpaMatch (fun m => group 1 (groups m)))
    (Some t).

(** The loop over the blocks: blank blocks are skipped. *)
Definition educationEntries (blocks : list jsstring) : list EducationEntry.t :=
  fold_left
    (fun entries block =>
       let t := JS.trim block in
       if negb (nonEmpty t) then entries
       else entries ++ [educationEntry t])
    blocks [].

(** The statement behind the loop:
    [if (entries.length === 0 && text.trim()) entries.push({ rawText: text.trim() })]. *)
Definition educationFallback (entries : list EducationEntry.t) (text : jsstring)
  : list EducationEntry.t :=
  if (length entries =? 0) && nonEmpty (JS.trim text)
  then entries ++ [EducationEntry.mk None None None None (Some (JS.trim text))]
  else entries.

Definition parseEducationBlock (text : jsstring) : list EducationEntry.t :=
  let blocks := split flag_i educationStart text in
  educationFallback (educationEntries blocks) text.

(** [/\n(?=[A-Za-z][^\n]{1,45}\n\s*\|)/] *)
Definition EXPERIENCE_JOB_SPLIT : regex :=
  Seq (Chr LF)
    (Look (Seqs [Cls [AZ; az]; Rep 1 (Some 45) (NCls [IChar LF]); Chr LF;
                 Star ws; Chr (chr "|")])).

(** Split before a line that looks like "Company | Location\tDateRange"
    (new job header): [/\n(?=[^\n]*\t\w+\s+\d{4}\s*[-–—])/]. *)
Definition EXPERIENCE_JOB_SPLIT_TAB_DATE : regex :=
  Seq (Chr LF)
    (Look (Seqs [Star (NCls [IChar LF]); Chr TAB; Plus w; Plus ws; Exactly 4 d;
                 Star ws; dashes])).

Definition EXPERIENCE_DATE_REGEX : regex := DATE_RANGE_REGEX.

(** [/engineer|developer|lead|analyst|manager|designer|founder|architect/i] *)
Definition ROLE_KEYWORDS : regex :=
  Alts [L "engineer"; L "developer"; L "lead"; L "analyst"; L "manager";
        L "designer"; L "founder"; L "architect"].

Definition looksLikeLocation (s : jsstring) : bool :=
  let t :=
    JS.trim (replace noFlags (Seqs [Star ws; Chr (chr "|"); Star ws; Eol]) (str "") s) in
  test flag_i
    (Seqs [Bol; Plus (Cls [AZ; az; ISpace]); Chr (chr ","); Star ws;
           Alts [Exactly 2 (Cls [AZ]); L "Washington"; L "California";
                 L "NY"; L "TX"];
           Eol]) t
  || test noFlags
       (Seqs [Bol; Plus (Cls [AZ; az; ISpace]); Chr (chr ","); Star ws;
              Plus (Cls [AZ; az; ISpace]); Eol]) t.

Definition looksLikeTechOrSkills (s : jsstring) : bool :=
  test noFlags (Chr (chr ",")) s
  || test flag_i
       (Seqs [WordB;
              Alts [L "AWS"; L "Python"; L "React"; L "Node"; L "TypeScript";
                    L "Go"; L "Java"; L "C#"; L "SQL"];
              WordB]) s.

(** [s.indexOf("|")] where the caller has checked [s.includes("|")]. *)
Definition pipeIndex (s : jsstring) : nat :=
  JS.indexOf s (str "|") ?: 0.

(** Remove company/location/dates line and role/skills line from block so
    they are not picked up as bullets. *)
Definition stripExperienceHeaderLines (block firstLine : jsstring) : jsstring :=
  let lines := trimmedLines block in
  if length lines =? 0 then block
  else
    let skipCount :=
      if match at_ lines 0 with
         | Some l0 => str_eqb l0 (JS.trim firstLine)
         | None => false
         end
      then
        match at_ lines 1 with
        | Some l1 =>
            if (1 <? length lines) && JS.includes l1 (str "|") then
              let idx := pipeIndex l1 in
              let right := JS.trim (JS.sliceFrom (idx + 1) l1) in
              if looksLikeTechOrSkills right
                 || test flag_i ROLE_KEYWORDS (JS.trim (JS.sliceTo idx l1))
              then 2 else 1
            else 1
        | None => 1
        end
      else 0 in
    JS.join [LF] (skipn skipCount lines).

(** The header fields the scan of a block fills in. *)
Record header := mkHeader {
  hRole : option jsstring;
  hLocation : option jsstring;
  hDates : option jsstring;
  hSubheader : option jsstring
}.

(** One turn of the loop over [headerLines]. *)
Definition scanHeaderLine (h : header) (line : jsstring) : header :=
  match exec flag_i EXPERIENCE_DATE_REGEX line with
  | Some dateMatch =>
      mkHeader (hRole h) (hLocation h) (group 1 (groups dateMatch)) (hSubheader h)
  | None =>
      if JS.includes line (str "|") then
        let idx := pipeIndex line in
        let left := JS.trim (JS.sliceTo idx line) in
        let right := JS.trim (JS.sliceFrom (idx + 1) line) in
        if test flag_i ROLE_KEYWORDS left then
          mkHeader
            (if negb (truthy (hRole h)) then Some left else hRole h)
            (if looksLikeLocation right then Some right else hLocation h)
            (hDates h) (hSubheader h)
        else if looksLikeLocation left then
          mkHeader
            (if test flag_i ROLE_KEYWORDS right then Some right else hRole h)
            (Some left) (hDates h) (hSubheader h)
        else if looksLikeLocation right then
          mkHeader
            (if (0 <? length left) && (length left <? 60) then Some left else hRole h)
            (Some right) (hDates h) (hSubheader h)
        else if looksLikeTechOrSkills right && test flag_i ROLE_KEYWORDS left then
          mkHeader (Some left) (hLocation h) (hDates h) (Some right)
        else h
      else if looksLikeLocation line then
        mkHeader (hRole h) (Some line) (hDates h) (hSubheader h)
      else if test flag_i ROLE_KEYWORDS line && (length line <? 60)
              && negb (truthy (hRole h)) then
        mkHeader (Some line) (hLocation h) (hDates h) (hSubheader h)
      else h
  end.

(** The loop that joins a "City" line with a state line below it; it stops
    at the first pair that fits. *)
Fixpoint cityStateLocation (lines : list jsstring) (indices : list nat)
  : option jsstring :=
  match indices with
  | [] => None
  | i :: rest =>
      let line := option_map JS.trim (at_ lines i) ?: str "" in
      let next :=
        replaceAll noFlags (Plus ws) (str " ")
          (option_map JS.trim (at_ lines (i + 1)) ?: str "") in
      if test flag_i
           (Seqs [Bol; Plus (Cls [AZ; az; ISpace]); Opt (Chr (chr ",")); Star ws; Eol])
           line
         && (test noFlags (Seqs [Bol; Exactly 2 (Cls [AZ]); Eol]) next
             || test flag_i
                  (Seqs [Bol; Alt (L "Washington") (L "California"); Eol]) next)
      then
        Some (replace noFlags (Seqs [Opt (Chr (chr ",")); Star ws; Eol]) (str ", ")
                (replace noFlags (Seqs [Star ws; Chr (chr ","); Star ws; Eol])
                   (str ", ") line)
              ++ next)
      else cityStateLocation lines rest
  end.

(** [/([A-Za-z\s]+,\s*(?:[A-Z]{2}|Washington|California|NY|TX))(?:\s*[\n|]|$)/im] *)
Definition locationInBlockRegex : regex :=
  Seq
    (Cap 1 (Seqs [Plus (Cls [AZ; az; ISpace]); Chr (chr ","); Star ws;
                  Alts [Exactly 2 (Cls [AZ]); L "Washington"; L "California";
                        L "NY"; L "TX"]]))
    (Alt (Seq (Star ws) (Cls [IChar LF; IChar (chr "|")])) Eol).

(** The body of the loop over the job blocks; [None] is [continue]. *)
Definition experienceEntry (block : jsstring) : option ExperienceEntry.t :=
  let lines := trimmedLines block in
  match at_ lines 0 with
  | None => None
  | Some firstLine =>
      if negb (nonEmpty firstLine)
         || str_eqb firstLine (str "WORK EXPERIENCE")
         || str_eqb firstLine (str "EXPERIENCE")
         || test noFlags (Seqs [Bol; Plus (Cls [AZ; ISpace]); Eol]) firstLine
      then None
      else
        let tabParts := split noFlags (Chr TAB) firstLine in
        let firstPart := option_map JS.trim (at_ tabParts 0) ?: firstLine in
        let datePartFromFirst := option_map JS.trim (at_ tabParts 1) in
        let dates :=
          match datePartFromFirst with
          | Some dp =>
              if nonEmpty dp && test flag_i EXPERIENCE_DATE_REGEX dp
              then opt (exec flag_i EXPERIENCE_DATE_REGEX dp)
                     (fun m => group 1 (groups m))
              else None
          | None => None
          end in
        let short := if length firstPart <? 50 then Some firstPart else None in
        let '(company, location) :=
          if JS.includes firstPart (str "|") then
            let idx := pipeIndex firstPart in
            let left := JS.trim (JS.sliceTo idx firstPart) in
            let right := JS.trim (JS.sliceFrom (idx + 1) firstPart) in
            if looksLikeLocation right
            then (if length left <? 50 then Some left else None, Some right)
            else (short, None)
          else (short, None) in
        let headerLines := firstn 5 (skipn 1 lines) in
        let h := fold_left scanHeaderLine headerLines
                   (mkHeader None location dates None) in
        let location :=
          if negb (truthy (hLocation h)) && (2 <=? length lines)
          then cityStateLocation lines (seq 1 (Nat.min (length lines) 6 - 1))
               ?? hLocation h
          else hLocation h in
        let dates :=
          if negb (truthy (hDates h))
          then opt (exec flag_i EXPERIENCE_DATE_REGEX block)
                 (fun m => group 1 (groups m))
               ?? hDates h
          else hDates h in
        let location :=
          if negb (truthy location)
          then option_map (fun m => JS.trim (group 1 (groups m) ?: str ""))
                 (exec flag_im locationInBlockRegex (JS.sliceTo 400 block))
               ?? location
          else location in
        let blockWithoutHeader := stripExperienceHeaderLines block firstLine in
        let bullets := extractBullets blockWithoutHeader in
        Some (ExperienceEntry.mk
                (if length (company ?: str "") <? 50 then company else None)
                (orUndefined (hRole h))
                (orUndefined location)
                (orUndefined dates)
                (orUndefined (hSubheader h))
                (if 0 <? length bullets then bullets else []))
  end.

Definition parseExperienceBlock (text : jsstring) : list ExperienceEntry.t :=
  let normalized :=
    JS.replaceChar CR [LF] (replaceAll noFlags (Lit [CR; LF]) [LF] text) in
  let jobBlocks :=
    filter (fun s => nonEmpty (JS.trim s))
      (split noFlags EXPERIENCE_JOB_SPLIT_TAB_DATE normalized) in
  let jobBlocks :=
    if length jobBlocks <=? 1
    then filter (fun s => nonEmpty (JS.trim s))
           (split noFlags EXPERIENCE_JOB_SPLIT normalized)
    else jobBlocks in
  let entries :=
    fold_left
      (fun entries block =>
         match experienceEntry block with
         | Some e => entries ++ [e]
         | None => entries
         end)
      jobBlocks [] in
  if (length entries =? 0) && nonEmpty (JS.trim text)
  then
    let bullets := extractBullets text in
    entries
    ++ [ExperienceEntry.mk None None None None None
          (if 0 <? length bullets then bullets else [JS.trim text])]
  else entries.

(** [/[\w.+%-]+@[\w.-]+\.[A-Za-z]{2,}/] *)
Definition contactEmail : regex :=
  Seqs [Plus (Cls [IWord; IChar (chr "."); IChar (chr "+"); IChar (chr "%");
                   IChar (chr "-")]);
        Chr (chr "@");
        Plus (Cls [IWord; IChar (chr "."); IChar (chr "-")]);
        Chr (chr ".");
        Rep 2 None (Cls [AZ; az])].

(** [/\+?[\d\s\-().]{10,}/] *)
Definition contactPhone : regex :=
  Seq (Opt (Chr (chr "+")))
    (Rep 10 None
       (Cls [IDigit; ISpace; IChar (chr "-"); IChar (chr "("); IChar (chr ")");
             IChar (chr ".")])).

(** [/linkedin\.com\/in\/[^\s]+/i] *)
Definition contactLinkedIn : regex :=
  Seq (L "linkedin.com/in/") (Plus (NCls [ISpace])).

(** [/(?:Seattle|San Jose|Los Angeles|[\w\s]+,\s*(?:CA|WA|Washington))/] *)
Definition contactLocation : regex :=
  Alts [L "Seattle"; L "San Jose"; L "Los Angeles";
        Seqs [Plus (Cls [IWord; ISpace]); Chr (chr ","); Star ws;
              Alts [L "CA"; L "WA"; L "Washington"]]].

(** [/^([A-Z][a-z]+\s+[A-Z][a-z]+(?:\s+[A-Z][a-z]+)?)\s*[\s|]/m] *)
Definition contactName : regex :=
  Seqs [Bol;
        Cap 1 (Seqs [Cls [AZ]; Plus (Cls [az]); Plus ws; Cls [AZ]; Plus (Cls [az]);
                     Opt (Seqs [Plus ws; Cls [AZ]; Plus (Cls [az])])]);
        Star ws; Cls [ISpace; IChar (chr "|")]].

Definition parseContactBlock (text : jsstring) : Contact.t :=
  let email := option_map matched (exec noFlags contactEmail text) in
  let phone :=
    option_map (fun m => JS.trim (matched m)) (exec noFlags contactPhone text) in
  let linkedin :=
    option_map (fun m => str "https://" ++ matched m)
      (exec flag_i contactLinkedIn text) in
  let location :=
    option_map (fun m => JS.trim (matched m)) (exec noFlags contactLocation text) in
  let name :=
    option_map (fun m => JS.trim (group 1 (groups m) ?: str ""))
      (exec flag_m contactName text) in
  let lines := trimmedLines text in
  let name :=
    if (0 <? length lines) && negb (truthy name) then
      match at_ lines 0 with
      | Some first =>
          if nonEmpty first && (length first <? 50)
             && negb (JS.includes first (str "@"))
             && test noFlags (Seqs [Bol; Plus (Cls [AZ; az; ISpace]); Eol])
                  (replaceAll noFlags ws (str "") first)
          then Some first
          else name
      | None => name
      end
    else name in
  Contact.mk name email phone location linkedin.

(** [/\s*\|.*$/]: what follows the title on a project's first line. *)
Definition titleTail : regex :=
  Seqs [Star ws; Chr (chr "|"); Star Dot; Eol].

(** ["\\n(?=[A-Z][^\\n]{5,60}\\s*\\|\\s*[A-Za-z])"] *)
Definition projectStart : regex :=
  Seq (Chr LF)
    (Look (Seqs [Cls [AZ]; Rep 5 (Some 60) (NCls [IChar LF]); Star ws;
                 Chr (chr "|"); Star ws; Cls [AZ; az]])).

(** The body of the loop over the parts. *)
Definition projectEntry (part : jsstring) : ProjectEntry.t :=
  let firstLine :=
    option_map JS.trim (at_ (split noFlags (Chr LF) part) 0) ?: str "" in
  let bullets := extractBullets (JS.sliceFrom (length firstLine) part) in
  let title :=
    let t := JS.trim (replace noFlags titleTail (str "") firstLine) in
    if nonEmpty t then t else firstLine in
  ProjectEntry.mk (orUndefined (Some title)) bullets.

Definition parseProjectsBlock (text : jsstring) : list ProjectEntry.t :=
  let parts :=
    filter (fun s => nonEmpty (JS.trim s)) (split noFlags projectStart text) in
  let entries :=
    fold_left (fun entries part => entries ++ [projectEntry part]) parts [] in
  if (length entries =? 0) && nonEmpty (JS.trim text)
  then
    let bullets := extractBullets text in
    entries
    ++ [ProjectEntry.mk None (if 0 <? length bullets then bullets else [JS.trim text])]
  else entries.

Definition parseSkillsBlock (text : jsstring) : list jsstring :=
  let normalized :=
    replaceAll noFlags (Plus (Chr (chr ","))) (str ",")
      (JS.replaceChar LF (str ",") text) in
  JS.filterNonEmpty (map JS.trim (JS.split (str ",") normalized)).

Definition stripHtml (html : jsstring) : jsstring :=
  JS.trim
    (replaceAll noFlags (L "&gt;") (str ">")
       (replaceAll noFlags (L "&lt;") (str "<")
          (replaceAll noFlags (L "&amp;") (str "&")
             (replaceAll noFlags (L "&nbsp;") (str " ")
                (replaceAll noFlags
                   (Seqs [Chr (chr "<"); Plus (NCls [IChar (chr ">")]); Chr (chr ">")])
                   (str "")
                   (replaceAll flag_i (L "</li>") [LF]
                      (replaceAll flag_i (L "</p>") [LF]
                         (replaceAll flag_i
                            (Seqs [L "<br"; Star ws; Opt (Chr (chr "/")); Chr (chr ">")])
                            [LF] html)))))))).

(** [/^(EDUCATION|EXPERIENCE|PROFESSIONAL EXPERIENCE|WORK EXPERIENCE|PROJECTS|
    PROJECTS\s*&\s*OUTSIDE EXPERIENCE|SKILLS|TECHNICAL SKILLS|CONTACT)\s*$/im] *)
Definition SECTION_HEADER_REGEX : regex :=
  Seqs [Bol;
        Cap 1 (Alts [L "EDUCATION"; L "EXPERIENCE"; L "PROFESSIONAL EXPERIENCE";
                     L "WORK EXPERIENCE"; L "PROJECTS";
                     Seqs [L "PROJECTS"; Star ws; Chr (chr "&"); Star ws;
                           L "OUTSIDE EXPERIENCE"];
                     L "SKILLS"; L "TECHNICAL SKILLS"; L "CONTACT"]);
        Star ws; Eol].

(** [{ title: string; content: string }] *)
Record section := mkSection { title : jsstring; content : jsstring }.

(** The variables of the loop over the lines. *)
Record splitter := mkSplitter {
  currentTitle : jsstring;
  currentContent : list jsstring;
  sections : list section
}.

(** [if (currentTitle) sections.push({ title: currentTitle,
    content: currentContent.join("\n").trim() })] *)
Definition flushSection (st : splitter) : list section :=
  if nonEmpty (currentTitle st)
  then sections st
       ++ [mkSection (currentTitle st) (JS.trim (JS.join [LF] (currentContent st)))]
  else sections st.

(** One turn of the loop over the lines. *)
Definition splitLine (st : splitter) (line : jsstring) : splitter :=
  let trimmed := JS.trim line in
  if test flag_im SECTION_HEADER_REGEX trimmed
  then mkSplitter trimmed [] (flushSection st)
  else mkSplitter (currentTitle st) (currentContent st ++ [line]) (sections st).

Definition splitBySectionHeaders (fullText : jsstring) : list section :=
  let lines := split noFlags (Chr LF) fullText in
  flushSection (fold_left splitLine lines (mkSplitter (str "") [] [])).

Definition SECTION_NAMES : list jsstring :=
  [str "contact"; str "education"; str "experience"; str "professional experience";
   str "work experience"; str "projects"; str "projects & outside experience";
   str "skills"; str "technical skills"].

(** [<(?:h[1-3]|p)[^>]*>], the opening tag of a heading or a paragraph. *)
Definition openingTag : regex :=
  Seqs [Chr (chr "<");
        Alt (Seq (Chr (chr "h")) (Cls [IRange 49 51])) (Chr (chr "p"));
        Star (NCls [IChar (chr ">")]);
        Chr (chr ">")].

(** [/(?=<(?:h[1-3]|p)[^>]*>)/gi] *)
Definition blockStart : regex := Look openingTag.

(** The pattern [sectionTitleRegex], with the [i] flag: at the start of the
    block an opening tag, as group 1 the text up to the next [<], and [</]. *)
Definition sectionTitleRegex : regex :=
  Seqs [Bol; openingTag; Cap 1 (Star (NCls [IChar (chr "<")]));
        Chr (chr "<"); Chr (chr "/")].

(** [{ ...a, ...b }]: a property that [b] has wins. *)
Definition spreadContact (a b : Contact.t) : Contact.t :=
  Contact.mk
    (Contact.name b ?? Contact.name a)
    (Contact.email b ?? Contact.email a)
    (Contact.phone b ?? Contact.phone a)
    (Contact.location b ?? Contact.location a)
    (Contact.linkedin b ?? Contact.linkedin a).

(** Assignments to the properties of [resume] and of its contact. *)
Definition setName (c : Contact.t) (v : jsstring) : Contact.t :=
  Contact.mk (Some v) (Contact.email c) (Contact.phone c) (Contact.location c)
    (Contact.linkedin c).
Definition setContact (r : ParsedResume.t) (v : Contact.t) : ParsedResume.t :=
  ParsedResume.mk v (ParsedResume.education r) (ParsedResume.experience r)
    (ParsedResume.projects r) (ParsedResume.skills r) (ParsedResume.otherSections r).
Definition setEducation (r : ParsedResume.t) (v : list EducationEntry.t)
  : ParsedResume.t :=
  ParsedResume.mk (ParsedResume.contact r) v (ParsedResume.experience r)
    (ParsedResume.projects r) (ParsedResume.skills r) (ParsedResume.otherSections r).
Definition setExperience (r : ParsedResume.t) (v : list ExperienceEntry.t)
  : ParsedResume.t :=
  ParsedResume.mk (ParsedResume.contact r) (ParsedResume.education r) v
    (ParsedResume.projects r) (ParsedResume.skills r) (ParsedResume.otherSections r).
Definition setProjects (r : ParsedResume.t) (v : list ProjectEntry.t)
  : ParsedResume.t :=
  ParsedResume.mk (ParsedResume.contact r) (ParsedResume.education r)
    (ParsedResume.experience r) v (ParsedResume.skills r)
    (ParsedResume.otherSections r).
Definition setSkills (r : ParsedResume.t) (v : list jsstring) : ParsedResume.t :=
  ParsedResume.mk (ParsedResume.contact r) (ParsedResume.education r)
    (ParsedResume.experience r) (ParsedResume.projects r) v
    (ParsedResume.otherSections r).
Definition setOtherSections (r : ParsedResume.t) (v : Obj.t) : ParsedResume.t :=
  ParsedResume.mk (ParsedResume.contact r) (ParsedResume.education r)
    (ParsedResume.experience r) (ParsedResume.projects r) (ParsedResume.skills r)
    (Some v).

(** [resume.otherSections = resume.otherSections ?? {};
    resume.otherSections[title] = content] *)
Definition putOtherSection (r : ParsedResume.t) (s : section) : ParsedResume.t :=
  setOtherSections r (Obj.set (ParsedResume.otherSections r ?: []) (title s) (content s)).

(** [fullText.split(/\n/).slice(0, n).join("\n")] *)
Definition topLines (n : nat) (fullText : jsstring) : jsstring :=
  JS.join [LF] (firstn n (split noFlags (Chr LF) fullText)).

(** [!resume.contact.name && !resume.contact.email] *)
Definition noNameNoEmail (r : ParsedResume.t) : bool :=
  negb (truthy (Contact.name (ParsedResume.contact r)))
  && negb (truthy (Contact.email (ParsedResume.contact r))).

Section ParseHtmlToResume.

(** [String.prototype.toLowerCase] of the platform. *)
Variable toLowerCase : jsstring -> jsstring.

Definition normalizeSectionTitle (title : jsstring) : jsstring :=
  replaceAll noFlags (Plus ws) (str " ") (toLowerCase (JS.trim title)).

Definition looksLikeHeader (possibleTitle : jsstring) : bool :=
  (length possibleTitle <? 80)
  && (existsb (fun s => JS.includes (normalizeSectionTitle possibleTitle) s)
        SECTION_NAMES
      || test flag_i (Seqs [Bol; Plus (Cls [AZ; ISpace; IChar (chr "&")]); Eol])
           (replaceAll noFlags ws (str "") possibleTitle)).

(** One turn of the loop over the blocks of the markup. *)
Definition splitBlock (st : splitter) (block : jsstring) : splitter :=
  let plain :=
    mkSplitter (currentTitle st) (currentContent st ++ [stripHtml block])
      (sections st) in
  match exec flag_i sectionTitleRegex block with
  | Some titleMatch =>
      let rawTitle := stripHtml (group 1 (groups titleMatch) ?: str "") in
      let possibleTitle := JS.trim rawTitle in
      if looksLikeHeader possibleTitle then
        let rest := replace flag_i sectionTitleRegex (str "") block in
        mkSplitter possibleTitle [stripHtml rest] (flushSection st)
      else plain
  | None => plain
  end.

Definition isExperienceKey (key : jsstring) : bool :=
  JS.includes key (str "experience") || JS.includes key (str "professional")
  || JS.includes key (str "work").

(** One turn of the loop over the sections found by header lines, when the
    markup gave none. *)
Definition assignByHeader (resume : ParsedResume.t) (s : section) : ParsedResume.t :=
  let key := normalizeSectionTitle (title s) in
  if JS.includes key (str "education")
  then setEducation resume (parseEducationBlock (content s))
  else if isExperienceKey key
  then setExperience resume (parseExperienceBlock (content s))
  else if JS.includes key (str "project")
  then setProjects resume (parseProjectsBlock (content s))
  else if JS.includes key (str "skill")
  then setSkills resume (parseSkillsBlock (content s))
  else if JS.includes key (str "contact") || str_eqb key (str "")
  then setContact resume (parseContactBlock (content s))
  else putOtherSection resume s.

(** One turn of the loop over the sections of the markup. *)
Definition assignSection (resume : ParsedResume.t) (s : section) : ParsedResume.t :=
  let key := normalizeSectionTitle (title s) in
  if JS.includes key (str "contact") || JS.includes key (str "name")
     || str_eqb key (str "")
  then
    let contact :=
      spreadContact (ParsedResume.contact resume) (parseContactBlock (content s)) in
    let contact :=
      if (0 <? length (JS.trim (content s))) && negb (truthy (Contact.name contact))
      then
        match option_map JS.trim (at_ (split noFlags (Chr LF) (content s)) 0) with
        | Some firstLine =>
            if nonEmpty firstLine && (length firstLine <? 80)
            then setName contact firstLine
            else contact
        | None => contact
        end
      else contact in
    setContact resume contact
  else if JS.includes key (str "education")
  then setEducation resume (parseEducationBlock (content s))
  else if isExperienceKey key
  then setExperience resume (parseExperienceBlock (content s))
  else if JS.includes key (str "project")
  then setProjects resume (parseProjectsBlock (content s))
  else if JS.includes key (str "skill")
  then setSkills resume (parseSkillsBlock (content s))
  else putOtherSection resume s.

(** One turn of the loop that fills what the markup's sections left empty
    from the sections found by header lines. *)
Definition fillFromHeader (resume : ParsedResume.t) (s : section) : ParsedResume.t :=
  let key := normalizeSectionTitle (title s) in
  if JS.includes key (str "education")
     && (length (ParsedResume.education resume) =? 0)
  then setEducation resume (parseEducationBlock (content s))
  else if isExperienceKey key && (length (ParsedResume.experience resume) =? 0)
  then setExperience resume (parseExperienceBlock (content s))
  else if JS.includes key (str "project")
          && (length (ParsedResume.projects resume) =? 0)
  then setProjects resume (parseProjectsBlock (content s))
  else if JS.includes key (str "skill") && (length (ParsedResume.skills resume) =? 0)
  then setSkills resume (parseSkillsBlock (content s))
  else if (str_eqb key (str "") || JS.includes key (str "contact"))
          && negb (truthy (Contact.email (ParsedResume.contact resume)))
  then setContact resume
         (spreadContact (ParsedResume.contact resume) (parseContactBlock (content s)))
  else resume.

Definition parseHtmlToResume (html : jsstring) : ParsedResume.t :=
  let resume := ParsedResume.mk Contact.empty [] [] [] [] (Some []) in
  let fullText := stripHtml html in
  let blocks := JS.filterNonEmpty (split flag_i blockStart html) in
  let sections :=
    flushSection (fold_left splitBlock blocks (mkSplitter (str "") [] [])) in
  if length sections =? 0 then
    let byHeaders := splitBySectionHeaders fullText in
    if 0 <? length byHeaders then
      let resume := fold_left assignByHeader byHeaders resume in
      if noNameNoEmail resume
      then setContact resume (parseContactBlock (topLines 6 fullText))
      else resume
    else
      setOtherSections
        (setContact resume (parseContactBlock (topLines 6 fullText)))
        [(str "Full text", fullText)]
  else
    let resume := fold_left assignSection sections resume in
    let missingStructured :=
      (length (ParsedResume.education resume) =? 0)
      || (length (ParsedResume.experience resume) =? 0)
      || (length (ParsedResume.skills resume) =? 0) in
    if missingStructured then
      let resume := fold_left fillFromHeader (splitBySectionHeaders fullText) resume in
      if noNameNoEmail resume
      then setContact resume
             (spreadContact (ParsedResume.contact resume)
                (parseContactBlock (topLines 8 fullText)))
      else resume
    else resume.

End ParseHtmlToResume.
End Parser.

(** The placeholder keys of the template, one per capped slot: the contact
    fields and the skills line, 2 education entries, 3 experience entries
    with 4 bullets each, 2 projects with 2 bullets each. *)
Definition templateKeys : list jsstring :=
  [ str "contact.name"; str "contact.phone"; str "contact.email";
    str "contact.location"; str "contact.linkedin"; str "skills";
    str "education.0.school"; str "education.0.degree";
    str "education.0.dates"; str "education.0.gpa";
    str "education.1.school"; str "education.1.degree";
    str "education.1.dates"; str "education.1.gpa";
    str "experience.0.company"; str "experience.0.role";
    str "experience.0.location"; str "experience.0.dates";
    str "experience.0.subheader";
    str "experience.0.bullet.0"; str "experience.0.bullet.1";
    str "experience.0.bullet.2"; str "experience.0.bullet.3";
    str "experience.1.company"; str "experience.1.role";
    str "experience.1.location"; str "experience.1.dates";
    str "experience.1.subheader";
    str "experience.1.bullet.0"; str "experience.1.bullet.1";
    str "experience.1.bullet.2"; str "experience.1.bullet.3";
    str "experience.2.company"; str "experience.2.role";
    str "experience.2.location"; str "experience.2.dates";
    str "experience.2.subheader";
    str "experience.2.bullet.0"; str "experience.2.bullet.1";
    str "experience.2.bullet.2"; str "experience.2.bullet.3";
    str "projects.0.title"; str "projects.0.bullet.0"; str "projects.0.bullet.1";
    str "projects.1.title"; str "projects.1.bullet.0"; str "projects.1.bullet.1" ].

(** The education entry and the overlay experience entry that the payload
    reads at index [i]: [education?.[i] ?? parsed.education?.[i]] and
    [experience?.[i]]. *)
Definition educationSlot (parsed : ParsedResume.t)
  (optimized : option OptimizedSections.t) (i : nat) : option EducationEntry.t :=
  at_ (opt optimized OptimizedSections.education ?: ParsedResume.education parsed) i
  ?? at_ (ParsedResume.education parsed) i.

Definition overlaySlot (parsed : ParsedResume.t)
  (optimized : option OptimizedSections.t) (i : nat)
  : option OptimizedSections.experienceEntry :=
  at_ (opt optimized OptimizedSections.experience
       ?: map asOverlayEntry (ParsedResume.experience parsed)) i.

(** A slot lies beyond the actual data when neither the original resume nor
    the overlay (if it has the section) has an entry at its index, or when
    the entry it reads has no bullet at its index. *)
Definition beyondEducation (parsed : ParsedResume.t)
  (optimized : option OptimizedSections.t) (i : nat) : Prop :=
  length (ParsedResume.education parsed) <= i
  /\ forall o es, optimized = Some o -> OptimizedSections.education o = Some es ->
       length es <= i.

Definition beyondExperience (parsed : ParsedResume.t)
  (optimized : option OptimizedSections.t) (i : nat) : Prop :=
  length (ParsedResume.experience parsed) <= i
  /\ forall o es, optimized = Some o -> OptimizedSections.experience o = Some es ->
       length es <= i.

Definition beyondBullets (parsed : ParsedResume.t)
  (optimized : option OptimizedSections.t) (i j : nat) : Prop :=
  (forall e, at_ (ParsedResume.experience parsed) i = Some e ->
             length (ExperienceEntry.bullets e) <= j)
  /\ forall o es e bs,
       optimized = Some o -> OptimizedSections.experience o = Some es ->
       at_ es i = Some e -> OptimizedSections.bullets e = Some bs ->
       length bs <= j.

Definition beyondProjectBullets (parsed : ParsedResume.t) (i j : nat) : Prop :=
  forall p, at_ (ParsedResume.projects parsed) i = Some p ->
            length (ProjectEntry.bullets p) <= j.

(* ================================================================== *)
(** ** Templates as pieces

    The text of a well-formed template is plain text interleaved with
    placeholders: neither the text nor the names between the braces hold a
    brace of their own. *)
(* ================================================================== *)

Module Template.

Inductive piece :=
| Text (t : jsstring)
| Hole (key : jsstring).



Definition isBrace (c : char) : bool := N.eqb c (chr "{") || N.eqb c (chr "}").

Definition braceFree (s : jsstring) : bool := forallb (fun c => negb (isBrace c)) s.





End Template.

(** A replacement is well formed when it puts a placeholder whose name
    holds no brace in the place of a literal that is not empty. *)
Definition wellFormedReplacement (r : Replacement) : Prop :=
  fst r <> []
  /\ exists key, snd r = placeholderOf key /\ Template.braceFree key = true.

(** What every entry the experience extractor returns satisfies. *)
Definition tidyExperience (e : ExperienceEntry.t) : Prop :=
  (forall company, ExperienceEntry.company e = Some company -> length company < 50)
  /\ ExperienceEntry.role e <> Some []
  /\ ExperienceEntry.location e <> Some []
  /\ ExperienceEntry.dates e <> Some []
  /\ ExperienceEntry.subheader e <> Some []
  /\ Forall (fun b => b <> [] /\ JS.trim b = b) (ExperienceEntry.bullets e).

(** Every field of the contact but the name is one the contact extractor
    found in some text. *)
Definition contactFromBlock (c : Contact.t) : Prop :=
  (exists text, Contact.email c = Contact.email (Parser.parseContactBlock text))
  /\ (exists text, Contact.phone c = Contact.phone (Parser.parseContactBlock text))
  /\ (exists text,
        Contact.location c = Contact.location (Parser.parseContactBlock text))
  /\ (exists text,
        Contact.linkedin c = Contact.linkedin (Parser.parseContactBlock text)).

(** Every list section is what its extractor returns on some text. *)
Definition fromBlockParsers (r : ParsedResume.t) : Prop :=
  (exists text, ParsedResume.education r = Parser.parseEducationBlock text)
  /\ (exists text, ParsedResume.experience r = Parser.parseExperienceBlock text)
  /\ (exists text, ParsedResume.projects r = Parser.parseProjectsBlock text)
  /\ (exists text, ParsedResume.skills r = Parser.parseSkillsBlock text)
  /\ contactFromBlock (ParsedResume.contact r)
  /\ ParsedResume.otherSections r <> None.

(* ================================================================== *)
(** ** The tokens in the words of the specification *)
(* ================================================================== *)

(** The stretches of [s] whose characters all satisfy [p]: the text is cut
    at every character that does not, and between two such characters next
    to each other lies an empty stretch.  [cur] is the stretch being
    collected, nearest character first. *)
Fixpoint runsGo (p : char -> bool) (cur s : jsstring) : list jsstring :=
  match s with
  | [] => [rev cur]
  | c :: s' => if p c then runsGo p (c :: cur) s' else rev cur :: runsGo p [] s'
  end.

Definition runs (p : char -> bool) (s : jsstring) : list jsstring := runsGo p [] s.

(** The words of a text: its stretches of word characters. *)
Definition wordsOf (s : jsstring) : list jsstring := runs Chars.isWord s.

(** A word is kept when it is longer than two characters and not purely
    numeric. *)
Definition keptWord (t : jsstring) : bool :=
  (2 <? length t) && negb (forallb Chars.isDigit t).

(** The token set as the specification words it: the text lower-cased, cut
    wherever a character is not a word character, keeping the words longer
    than two characters that are not purely numeric, each once. *)
Definition specTokens (toLowerCase : jsstring -> jsstring) (text : jsstring)
  : StringSet.t :=
  StringSet.ofList (filter keptWord (wordsOf (toLowerCase text))).

(* ================================================================== *)
(** ** Occurrences of a literal, and the stretches between braces *)
(* ================================================================== *)

(** The number of places in [s] at which the text [v] starts. *)
Fixpoint occurrences (s v : jsstring) : nat :=
  match s with
  | [] => 0
  | c :: s' =>
      (match JS.stripPrefix v (c :: s') with Some _ => 1 | None => 0 end)
      + occurrences s' v
  end.




(** The job blocks [parseExperienceBlock] runs its loop over. *)
Definition experienceBlocks (text : jsstring) : list jsstring :=
  let normalized :=
    JS.replaceChar Parser.CR [Parser.LF]
      (RegExp.replaceAll RegExp.noFlags (RegExp.Lit [Parser.CR; Parser.LF])
         [Parser.LF] text) in
  let jobBlocks :=
    filter (fun s => nonEmpty (JS.trim s))
      (RegExp.split RegExp.noFlags Parser.EXPERIENCE_JOB_SPLIT_TAB_DATE normalized) in
  if length jobBlocks <=? 1
  then filter (fun s => nonEmpty (JS.trim s))
         (RegExp.split RegExp.noFlags Parser.EXPERIENCE_JOB_SPLIT normalized)
  else jobBlocks.

(** The bullets of an entry built from [block] start below the block's
    first line, or below its second line when that holds a bar. *)
Definition bulletsBelowHeader (block : jsstring) (e : ExperienceEntry.t) : Prop :=
  let lines := Parser.trimmedLines block in
  ExperienceEntry.bullets e
  = Parser.extractBullets (JS.join [Parser.LF] (skipn 1 lines))
  \/ (ExperienceEntry.bullets e
      = Parser.extractBullets (JS.join [Parser.LF] (skipn 2 lines))
      /\ exists second,
           at_ lines 1 = Some second /\ JS.includes second (str "|") = true).

(* ================================================================== *)
(** ** Sample data for the examples below *)
(* ================================================================== *)

Module Sample.

Definition acme : ExperienceEntry.t :=
  ExperienceEntry.mk
    (Some (str "Acme Corp")) (Some (str "Software Engineer"))
    (Some (str "Seattle, WA")) (Some (str "June 2020 - Present"))
    None [str "Built backend services and APIs"].

Definition globex : ExperienceEntry.t :=
  ExperienceEntry.mk
    (Some (str "Globex")) (Some (str "Developer"))
    (Some (str "San Jose, CA")) (Some (str "May 2018 - June 2020"))
    (Some (str "Java, SQL")) [str "Kept the billing system running"].

(** A resume with two jobs. *)
Definition resume : ParsedResume.t :=
  ParsedResume.mk
    (Contact.mk (Some (str "Ann Lee")) (Some (str "ann@example.com")) None None None)
    [EducationEntry.mk (Some (str "Bellevue College")) None None None
       (Some (str "Bellevue College"))]
    [acme; globex]
    []
    [str "Python"; str "Java"; str "AWS"; str "REST APIs"]
    (Some [(str "AWARDS", str "Dean list")]).

(** An overlay that rewrites the first job only and names neither company
    nor role. *)
Definition rewrittenJob : OptimizedSections.experienceEntry :=
  OptimizedSections.mkExperience None None None
    (Some [str "Built backend services and REST APIs in Python"]).

Definition overlayOneJob : OptimizedSections.t :=
  OptimizedSections.mk (Some [rewrittenJob]) None None None None.

(** An overlay that rewrites both jobs. *)
Definition overlayTwoJobs : OptimizedSections.t :=
  OptimizedSections.mk (Some [rewrittenJob; rewrittenJob]) None None None None.

(** A resume with four jobs, one more than the experience cap. *)
Definition initech : ExperienceEntry.t :=
  ExperienceEntry.mk (Some (str "Initech")) None None None None [].

Definition resumeFourJobs : ParsedResume.t :=
  ParsedResume.mk Contact.empty [] [acme; globex; acme; initech] [] [] None.

(** The text of a document that names the fourth employer. *)
Definition fourthEmployer : jsstring := str "<w:t>Initech</w:t>".

(** An overlay whose contact is the empty object. *)
Definition overlayEmptyContact : OptimizedSections.t :=
  OptimizedSections.mk None None None None (Some Contact.empty).

(** An overlay whose list sections are all present and empty. *)
Definition overlayEmptyLists : OptimizedSections.t :=
  OptimizedSections.mk (Some []) (Some []) (Some []) (Some []) None.



(** A text given by its lines. *)
Definition text (ls : list string) : jsstring :=
  JS.join [10%N] (map str ls).

(** An education section with two schools. *)
Definition education : jsstring :=
  text ["University of Washington | GPA: 3.9";
        "B.S. in Computer Science";
        "Sept 2016 - June 2020";
        "Bellevue College";
        "Associate"]%string.

(** An education section no pattern fits: a date line with an open end. *)
Definition educationOpenEnded : jsstring := str "Sept 2016 - Present".




(** What [patchDocument] does to a text none of whose placeholders it
    replaces.  The samples it is used on are of that kind: their
    placeholders stand inside hyperlinks, where, as the source notes,
    [patchDocument] does not replace them, or have no patch because the
    payload has no such key, or there are none. *)
Definition patchNothing (template : jsstring) (patches : list (jsstring * jsstring))
  : jsstring := template.


(** An experience block in the layout without pipes: company, role, bullet. *)
Definition jobPlain : jsstring :=
  text ["Acme Corp"; "Software Engineer"; "Built things"]%string.

(** An experience block whose dates stand on a line of their own. *)
Definition jobDatesLine : jsstring :=
  text ["Acme Corp"; "Jan 2020 - Present"; "Built things"]%string.

(** An experience block in the pipe layout: the header line and a
    "role | stack" line. *)
Definition jobPiped : jsstring :=
  text ["Acme Corp | Seattle, WA"; "Software Engineer | AWS Lambda";
        "- Built things"; "* Shipped stuff"]%string.

End Sample.

(* ================================================================== *)
(** * Properties *)
(* ================================================================== *)

(** ** Strings and arrays *)

Lemma str_eqb_eq (a b : jsstring) : str_eqb a b = true <-> a = b.
Proof.
  revert b; induction a as [|x a IH]; intros [|y b]; simpl; split;
    try congruence; try reflexivity.
  - intros H. apply andb_true_iff in H as [Hx Hab].
    apply N.eqb_eq in Hx. apply IH in Hab. congruence.
  - intros H. injection H as -> ->.
    rewrite N.eqb_refl. simpl. now apply IH.
Qed.

Lemma str_eqb_refl (a : jsstring) : str_eqb a a = true.
Proof. now apply str_eqb_eq. Qed.


Lemma indexed_length {A} (xs : list A) : length (indexed xs) = length xs.
Proof.
  unfold indexed. rewrite length_combine, length_seq. apply Nat.min_id.
Qed.

Lemma combine_seq_nth {A} (xs : list A) (base i : nat) (x : A) :
  nth_error xs i = Some x ->
  nth_error (combine (seq base (length xs)) xs) i = Some (base + i, x).
Proof.
  revert base i. induction xs as [|y xs IH]; intros base [|i] H; simpl in *;
    try discriminate.
  - injection H as ->. now rewrite Nat.add_0_r.
  - rewrite (IH (S base) i H). f_equal. f_equal. lia.
Qed.

Lemma indexed_nth {A} (xs : list A) (i : nat) (x : A) :
  nth_error xs i = Some x -> nth_error (indexed xs) i = Some (i, x).
Proof. intros H. unfold indexed. now rewrite (combine_seq_nth xs 0 i x H). Qed.

Lemma at_None {A} (xs : list A) (i : nat) : at_ xs i = None <-> length xs <= i.
Proof. apply nth_error_None. Qed.

(* ------------------------------------------------------------------ *)
(** ** The optimize route: merging an overlay *)
(* ------------------------------------------------------------------ *)

(** C10.  The merged resume carries the original's [otherSections]
    untouched, whatever the overlay holds: an overlay never modifies,
    replaces or drops the unrecognized-section mapping. *)
Theorem merge_keeps_otherSections :
  forall (parsed : ParsedResume.t) (optimized : OptimizedSections.t),
    ParsedResume.otherSections (mergeOptimizedIntoResume parsed optimized)
    = ParsedResume.otherSections parsed.
Proof. intros parsed optimized. destruct optimized; reflexivity. Qed.

(** What the merge makes of the overlay's experience entry [e] at index
    [idx]. *)
Lemma merge_experience_nth :
  forall parsed optimized es i e,
    OptimizedSections.experience optimized = Some es ->
    at_ es i = Some e ->
    at_ (ParsedResume.experience (mergeOptimizedIntoResume parsed optimized)) i
    = Some (ExperienceEntry.mk
              (OptimizedSections.company e)
              (OptimizedSections.role e)
              (opt (at_ (ParsedResume.experience parsed) i) ExperienceEntry.location)
              (opt (at_ (ParsedResume.experience parsed) i) ExperienceEntry.dates)
              (OptimizedSections.subheader e
               ?? opt (at_ (ParsedResume.experience parsed) i) ExperienceEntry.subheader)
              (OptimizedSections.bullets e ?: [])).
Proof.
  intros parsed optimized es i e Hes Hi.
  unfold mergeOptimizedIntoResume; simpl. rewrite Hes.
  destruct es as [|e0 es']; [destruct i; discriminate|].
  cbn [hasLength orDefault]. unfold at_ in *.
  apply indexed_nth in Hi.
  now rewrite (map_nth_error _ _ _ Hi).
Qed.

Lemma merge_experience_length :
  forall parsed optimized es,
    OptimizedSections.experience optimized = Some es ->
    1 <= length es ->
    length (ParsedResume.experience (mergeOptimizedIntoResume parsed optimized))
    = length es.
Proof.
  intros parsed optimized es Hes Hlen.
  unfold mergeOptimizedIntoResume; simpl. rewrite Hes.
  destruct es as [|e0 es']; [simpl in Hlen; lia|].
  cbn [hasLength orDefault]. now rewrite length_map, indexed_length.
Qed.

(** C2, as the code has it.  Let the overlay have [N] experience entries
    and the original [M], with [1 <= N <= M].  The merge keeps the order:
    for every overlay entry [i] the merged resume has an entry at index [i]
    that takes its location and dates from original entry [i] (the overlay
    cannot carry them) and its subheader from the overlay entry, falling
    back to original entry [i] when the overlay omits it.  The entry count
    [M] is preserved when [N = M]. *)
Theorem merge_experience_positional :
  forall (parsed : ParsedResume.t) (optimized : OptimizedSections.t)
         (es : list OptimizedSections.experienceEntry),
    OptimizedSections.experience optimized = Some es ->
    1 <= length es ->
    length es <= length (ParsedResume.experience parsed) ->
    let merged := ParsedResume.experience (mergeOptimizedIntoResume parsed optimized) in
    (length es = length (ParsedResume.experience parsed) ->
     length merged = length (ParsedResume.experience parsed))
    /\ forall i e, at_ es i = Some e ->
         exists orig m,
           at_ (ParsedResume.experience parsed) i = Some orig
           /\ at_ merged i = Some m
           /\ ExperienceEntry.location m = ExperienceEntry.location orig
           /\ ExperienceEntry.dates m = ExperienceEntry.dates orig
           /\ ExperienceEntry.subheader m
              = (OptimizedSections.subheader e ?? ExperienceEntry.subheader orig).
Proof.
  intros parsed optimized es Hes Hlen Hle merged. split.
  - intros Heq. rewrite <- Heq. now apply merge_experience_length.
  - intros i e Hi.
    destruct (at_ (ParsedResume.experience parsed) i) as [orig|] eqn:Eorig.
    + exists orig. eexists. split; [reflexivity|]. split.
      * unfold merged. eapply merge_experience_nth; eassumption.
      * simpl. rewrite Eorig. repeat split.
    + apply at_None in Eorig.
      assert (i < length es) by (apply nth_error_Some; unfold at_ in Hi; congruence).
      lia.
Qed.

(** C2, as stated, fails.  The original has [M = 2] jobs and the overlay
    [N = 1]: the merged resume has one job, not two, and the company the
    overlay entry omits is absent from the merged entry although original
    entry 0 has one. *)
Lemma merge_experience_count_counterexample :
  length (ParsedResume.experience Sample.resume) = 2
  /\ OptimizedSections.experience Sample.overlayOneJob = Some [Sample.rewrittenJob]
  /\ length (ParsedResume.experience
               (mergeOptimizedIntoResume Sample.resume Sample.overlayOneJob)) = 1
  /\ option_map ExperienceEntry.company
       (at_ (ParsedResume.experience
               (mergeOptimizedIntoResume Sample.resume Sample.overlayOneJob)) 0)
     = Some None
  /\ option_map ExperienceEntry.company
       (at_ (ParsedResume.experience Sample.resume) 0)
     = Some (Some (str "Acme Corp")).
Proof. repeat split. Qed.

(** C2 on the sample resume, with an overlay that rewrites both jobs. *)
Lemma merge_experience_positional_witness :
  OptimizedSections.experience Sample.overlayTwoJobs
  = Some [Sample.rewrittenJob; Sample.rewrittenJob]
  /\ length (ParsedResume.experience
               (mergeOptimizedIntoResume Sample.resume Sample.overlayTwoJobs))
     = length (ParsedResume.experience Sample.resume)
  /\ at_ (ParsedResume.experience
            (mergeOptimizedIntoResume Sample.resume Sample.overlayTwoJobs)) 1
     = Some (ExperienceEntry.mk None None
               (Some (str "San Jose, CA")) (Some (str "May 2018 - June 2020"))
               (Some (str "Java, SQL"))
               [str "Built backend services and REST APIs in Python"]).
Proof.
  split; [reflexivity|]. split; [|reflexivity].
  apply (proj1 (merge_experience_positional Sample.resume Sample.overlayTwoJobs
                  [Sample.rewrittenJob; Sample.rewrittenJob]
                  eq_refl (le_S 1 1 (le_n 1)) (le_n 2))).
  reflexivity.
Defined.

(** With as many overlay entries as original ones the count is kept. *)
Corollary merge_experience_same_count :
  forall parsed optimized es,
    OptimizedSections.experience optimized = Some es ->
    1 <= length es ->
    length es = length (ParsedResume.experience parsed) ->
    length (ParsedResume.experience (mergeOptimizedIntoResume parsed optimized))
    = length (ParsedResume.experience parsed).
Proof.
  intros parsed optimized es Hes Hlen Heq.
  rewrite <- Heq. now apply merge_experience_length.
Qed.

(** C4, as stated, fails for the contact: an overlay whose contact is the
    empty object replaces the original contact, so the merged resume has
    lost the name. *)
Lemma merge_empty_contact_counterexample :
  OptimizedSections.contact Sample.overlayEmptyContact = Some Contact.empty
  /\ Contact.name (ParsedResume.contact Sample.resume) = Some (str "Ann Lee")
  /\ ParsedResume.contact
       (mergeOptimizedIntoResume Sample.resume Sample.overlayEmptyContact)
     = Contact.empty
  /\ ParsedResume.contact
       (mergeOptimizedIntoResume Sample.resume Sample.overlayEmptyContact)
     <> ParsedResume.contact Sample.resume.
Proof. repeat split. discriminate. Qed.

(** C4, as the code has it.  A list section of the overlay (education,
    experience, projects, skills) that is absent or present but empty leaves
    the original section in place; a non-empty education or skills list
    replaces the original wholesale.  The contact has no such test: an
    overlay contact replaces the original whenever it is present, even with
    no field set, and only an absent one keeps the original. *)
Theorem merge_empty_overlay_sections :
  forall (parsed : ParsedResume.t) (optimized : OptimizedSections.t),
    let merged := mergeOptimizedIntoResume parsed optimized in
    (hasLength (OptimizedSections.education optimized) = false ->
     ParsedResume.education merged = ParsedResume.education parsed)
    /\ (hasLength (OptimizedSections.experience optimized) = false ->
        ParsedResume.experience merged = ParsedResume.experience parsed)
    /\ (hasLength (OptimizedSections.projects optimized) = false ->
        ParsedResume.projects merged = ParsedResume.projects parsed)
    /\ (hasLength (OptimizedSections.skills optimized) = false ->
        ParsedResume.skills merged = ParsedResume.skills parsed)
    /\ (forall e es, OptimizedSections.education optimized = Some (e :: es) ->
        ParsedResume.education merged = e :: es)
    /\ (forall k ks, OptimizedSections.skills optimized = Some (k :: ks) ->
        ParsedResume.skills merged = k :: ks)
    /\ (forall c, OptimizedSections.contact optimized = Some c ->
        ParsedResume.contact merged = c)
    /\ (OptimizedSections.contact optimized = None ->
        ParsedResume.contact merged = ParsedResume.contact parsed).
Proof.
  intros parsed optimized merged. unfold merged, mergeOptimizedIntoResume.
  cbn [ParsedResume.education ParsedResume.experience ParsedResume.projects
       ParsedResume.skills ParsedResume.contact].
  repeat split.
  - intros H. now rewrite H.
  - intros H. now rewrite H.
  - intros H. now rewrite H.
  - intros H. now rewrite H.
  - intros e es H. now rewrite H.
  - intros k ks H. now rewrite H.
  - intros c H. now rewrite H.
  - intros H. now rewrite H.
Qed.

(** The payload builder reads the overlay through [??] and does not share
    the emptiness test of the merge: an overlay with an empty skills list
    gives an empty skills line. *)
Remark payload_empty_skills_overlay :
  Obj.get (buildTemplatePayload Sample.resume (Some Sample.overlayEmptyLists))
    (str "skills") = Some (str "")
  /\ Obj.get (buildTemplatePayload Sample.resume None) (str "skills")
     = Some (str "Python, Java, AWS, REST APIs").
Proof. split; reflexivity. Qed.

(** C4 on the sample resume, with an overlay whose lists are all empty. *)
Lemma merge_empty_overlay_sections_witness :
  ParsedResume.education (mergeOptimizedIntoResume Sample.resume Sample.overlayEmptyLists)
  = ParsedResume.education Sample.resume
  /\ ParsedResume.skills (mergeOptimizedIntoResume Sample.resume Sample.overlayEmptyLists)
     = ParsedResume.skills Sample.resume.
Proof.
  pose proof (merge_empty_overlay_sections Sample.resume Sample.overlayEmptyLists)
    as (Hedu & _ & _ & Hskills & _).
  split; [apply Hedu | apply Hskills]; reflexivity.
Defined.

(* ------------------------------------------------------------------ *)
(** ** The template payload *)
(* ------------------------------------------------------------------ *)

Lemma get_in_keys (o : Obj.t) (k : jsstring) :
  In k (Obj.keys o) -> exists v, Obj.get o k = Some v.
Proof.
  induction o as [|[k' v'] o IH]; simpl; [contradiction|].
  intros [-> | H].
  - rewrite str_eqb_refl. now exists v'.
  - destruct (str_eqb k' k); [now exists v' | now apply IH].
Qed.

Lemma get_not_in_keys (o : Obj.t) (k : jsstring) :
  ~ In k (Obj.keys o) -> Obj.get o k = None.
Proof.
  induction o as [|[k' v'] o IH]; simpl; [reflexivity|].
  intros H. destruct (str_eqb k' k) eqn:E.
  - apply str_eqb_eq in E. subst. exfalso. apply H. now left.
  - apply IH. intros Hin. apply H. now right.
Qed.

(** What the payload holds in each slot. *)
Section PayloadValues.
Variable parsed : ParsedResume.t.
Variable optimized : option OptimizedSections.t.

Lemma payload_education (i : nat) :
  i < MAX_EDUCATION ->
  Obj.get (buildTemplatePayload parsed optimized) (key2 "education" i "school")
  = Some (opt (educationSlot parsed optimized i) EducationEntry.school ?: str "")
  /\ Obj.get (buildTemplatePayload parsed optimized) (key2 "education" i "degree")
     = Some (opt (educationSlot parsed optimized i) EducationEntry.degree ?: str "")
  /\ Obj.get (buildTemplatePayload parsed optimized) (key2 "education" i "dates")
     = Some (opt (educationSlot parsed optimized i) EducationEntry.dates ?: str "")
  /\ Obj.get (buildTemplatePayload parsed optimized) (key2 "education" i "gpa")
     = Some (opt (educationSlot parsed optimized i) EducationEntry.gpa ?: str "").
Proof.
  unfold MAX_EDUCATION. intros H.
  destruct i as [|[|i]]; [| |lia]; repeat split.
Qed.

Lemma payload_experience (i : nat) :
  i < MAX_EXPERIENCE ->
  Obj.get (buildTemplatePayload parsed optimized) (key2 "experience" i "company")
  = Some (opt (overlaySlot parsed optimized i) OptimizedSections.company
          ?? opt (at_ (ParsedResume.experience parsed) i) ExperienceEntry.company
          ?: str "")
  /\ Obj.get (buildTemplatePayload parsed optimized) (key2 "experience" i "role")
     = Some (opt (overlaySlot parsed optimized i) OptimizedSections.role
             ?? opt (at_ (ParsedResume.experience parsed) i) ExperienceEntry.role
             ?: str "")
  /\ Obj.get (buildTemplatePayload parsed optimized) (key2 "experience" i "location")
     = Some (opt (at_ (ParsedResume.experience parsed) i) ExperienceEntry.location
             ?: str "")
  /\ Obj.get (buildTemplatePayload parsed optimized) (key2 "experience" i "dates")
     = Some (opt (at_ (ParsedResume.experience parsed) i) ExperienceEntry.dates ?: str "")
  /\ Obj.get (buildTemplatePayload parsed optimized) (key2 "experience" i "subheader")
     = Some (opt (overlaySlot parsed optimized i) OptimizedSections.subheader
             ?? opt (at_ (ParsedResume.experience parsed) i) ExperienceEntry.subheader
             ?: str "").
Proof.
  unfold MAX_EXPERIENCE. intros H.
  destruct i as [|[|[|i]]]; [| | |lia]; repeat split.
Qed.

Lemma payload_experience_bullet (i j : nat) :
  i < MAX_EXPERIENCE -> j < MAX_EXPERIENCE_BULLETS ->
  Obj.get (buildTemplatePayload parsed optimized) (key3 "experience" i "bullet" j)
  = Some (at_ (opt (overlaySlot parsed optimized i) OptimizedSections.bullets
               ?? option_map ExperienceEntry.bullets
                    (at_ (ParsedResume.experience parsed) i) ?: []) j
          ?: str "").
Proof.
  unfold MAX_EXPERIENCE, MAX_EXPERIENCE_BULLETS. intros Hi Hj.
  destruct i as [|[|[|i]]]; [| | |lia];
    (destruct j as [|[|[|[|j]]]]; [| | | |lia]); reflexivity.
Qed.

Lemma payload_project (i : nat) :
  i < MAX_PROJECTS ->
  Obj.get (buildTemplatePayload parsed optimized) (key2 "projects" i "title")
  = Some (opt (at_ (ParsedResume.projects parsed) i) ProjectEntry.title ?: str "").
Proof.
  unfold MAX_PROJECTS. intros H.
  destruct i as [|[|i]]; [| |lia]; reflexivity.
Qed.

Lemma payload_project_bullet (i j : nat) :
  i < MAX_PROJECTS -> j < MAX_PROJECT_BULLETS ->
  Obj.get (buildTemplatePayload parsed optimized) (key3 "projects" i "bullet" j)
  = Some (at_ (option_map ProjectEntry.bullets
                 (at_ (ParsedResume.projects parsed) i) ?: []) j
          ?: str "").
Proof.
  unfold MAX_PROJECTS, MAX_PROJECT_BULLETS. intros Hi Hj.
  destruct i as [|[|i]]; [| |lia]; (destruct j as [|[|j]]; [| |lia]); reflexivity.
Qed.

Lemma educationSlot_beyond (i : nat) :
  length (ParsedResume.education parsed) <= i ->
  (forall o es, optimized = Some o -> OptimizedSections.education o = Some es ->
                length es <= i) ->
  educationSlot parsed optimized i = None.
Proof.
  intros Hp Ho. unfold educationSlot. apply at_None in Hp.
  destruct optimized as [o|]; simpl.
  - destruct (OptimizedSections.education o) as [es|] eqn:E; simpl.
    + assert (Hes : at_ es i = None) by (apply at_None; now apply (Ho o es)).
      now rewrite Hes, Hp.
    + now rewrite Hp.
  - now rewrite Hp.
Qed.

Lemma overlaySlot_beyond (i : nat) :
  length (ParsedResume.experience parsed) <= i ->
  (forall o es, optimized = Some o -> OptimizedSections.experience o = Some es ->
                length es <= i) ->
  overlaySlot parsed optimized i = None
  /\ at_ (ParsedResume.experience parsed) i = None.
Proof.
  intros Hp Ho. unfold overlaySlot. split; [|now apply at_None].
  destruct optimized as [o|]; simpl.
  - destruct (OptimizedSections.experience o) as [es|] eqn:E; simpl.
    + apply at_None. now apply (Ho o es).
    + apply at_None. now rewrite length_map.
  - apply at_None. now rewrite length_map.
Qed.

End PayloadValues.

Lemma bullets_beyond parsed optimized i j :
  beyondBullets parsed optimized i j ->
  at_ (opt (overlaySlot parsed optimized i) OptimizedSections.bullets
       ?? option_map ExperienceEntry.bullets
            (at_ (ParsedResume.experience parsed) i) ?: []) j
  = None.
Proof.
  intros [Horig Hover]. unfold overlaySlot.
  assert (Hfallback :
    at_ (option_map ExperienceEntry.bullets
           (at_ (ParsedResume.experience parsed) i) ?: []) j = None).
  { destruct (at_ (ParsedResume.experience parsed) i) as [e|] eqn:E; simpl.
    - apply at_None. now apply Horig.
    - now destruct j. }
  assert (Hparsed :
    at_ (opt (at_ (map asOverlayEntry (ParsedResume.experience parsed)) i)
           OptimizedSections.bullets
         ?? option_map ExperienceEntry.bullets
              (at_ (ParsedResume.experience parsed) i) ?: []) j = None).
  { unfold at_ in *. rewrite nth_error_map.
    destruct (nth_error (ParsedResume.experience parsed) i) as [e|] eqn:E; simpl.
    - apply nth_error_None. now apply Horig.
    - now destruct j. }
  destruct optimized as [o|]; simpl; [|exact Hparsed].
  destruct (OptimizedSections.experience o) as [es|] eqn:Ees; simpl; [|exact Hparsed].
  destruct (at_ es i) as [e|] eqn:Ee; simpl; [|exact Hfallback].
  destruct (OptimizedSections.bullets e) as [bs|] eqn:Eb; simpl; [|exact Hfallback].
  apply at_None. now apply (Hover o es e bs).
Qed.

(** C5, as the code has it.  Whatever the resume and the overlay hold, the
    payload has exactly the keys of the capped slots, in the order they are
    written: none is omitted, and a slot beyond a cap has no key at all, so
    data beyond a cap is dropped.  Every capped slot beyond the actual data
    holds the empty string: an absent contact field, an education,
    experience or project index with no entry, a bullet index the entry has
    no bullet for. *)
Theorem payload_has_every_capped_slot :
  forall (parsed : ParsedResume.t) (optimized : option OptimizedSections.t),
    let payload := buildTemplatePayload parsed optimized in
    let contact :=
      opt optimized OptimizedSections.contact ?: ParsedResume.contact parsed in
    Obj.keys payload = templateKeys
    /\ (forall k, In k templateKeys -> exists v, Obj.get payload k = Some v)
    /\ (forall k, ~ In k templateKeys -> Obj.get payload k = None)
    /\ (Contact.name contact = None ->
        Obj.get payload (str "contact.name") = Some (str ""))
    /\ (Contact.phone contact = None ->
        Obj.get payload (str "contact.phone") = Some (str ""))
    /\ (Contact.email contact = None ->
        Obj.get payload (str "contact.email") = Some (str ""))
    /\ (Contact.location contact = None ->
        Obj.get payload (str "contact.location") = Some (str ""))
    /\ (Contact.linkedin contact = None ->
        Obj.get payload (str "contact.linkedin") = Some (str ""))
    /\ (forall i field,
          i < MAX_EDUCATION ->
          In field ["school"; "degree"; "dates"; "gpa"]%string ->
          beyondEducation parsed optimized i ->
          Obj.get payload (key2 "education" i field) = Some (str ""))
    /\ (forall i field,
          i < MAX_EXPERIENCE ->
          In field ["company"; "role"; "location"; "dates"; "subheader"]%string ->
          beyondExperience parsed optimized i ->
          Obj.get payload (key2 "experience" i field) = Some (str ""))
    /\ (forall i j,
          i < MAX_EXPERIENCE -> j < MAX_EXPERIENCE_BULLETS ->
          beyondBullets parsed optimized i j ->
          Obj.get payload (key3 "experience" i "bullet" j) = Some (str ""))
    /\ (forall i,
          i < MAX_PROJECTS ->
          length (ParsedResume.projects parsed) <= i ->
          Obj.get payload (key2 "projects" i "title") = Some (str ""))
    /\ (forall i j,
          i < MAX_PROJECTS -> j < MAX_PROJECT_BULLETS ->
          beyondProjectBullets parsed i j ->
          Obj.get payload (key3 "projects" i "bullet" j) = Some (str "")).
Proof.
  intros parsed optimized payload contact.
  assert (Hkeys : Obj.keys payload = templateKeys) by reflexivity.
  split; [exact Hkeys|].
  split; [intros k Hk; apply get_in_keys; now rewrite Hkeys|].
  split; [intros k Hk; apply get_not_in_keys; now rewrite Hkeys|].
  repeat match goal with
         | |- (Contact.name _ = None -> _) /\ _ => split
         | |- (Contact.phone _ = None -> _) /\ _ => split
         | |- (Contact.email _ = None -> _) /\ _ => split
         | |- (Contact.location _ = None -> _) /\ _ => split
         | |- (Contact.linkedin _ = None -> _) /\ _ => split
         end;
    try (intros H; change (Some (Contact.name contact ?: str "") = Some (str ""))
         || change (Some (Contact.phone contact ?: str "") = Some (str ""))
         || change (Some (Contact.email contact ?: str "") = Some (str ""))
         || change (Some (Contact.location contact ?: str "") = Some (str ""))
         || change (Some (Contact.linkedin contact ?: str "") = Some (str ""));
         now rewrite H).
  subst payload.
  split; [|split; [|split; [|split]]].
  - intros i field Hi Hfield [Hp Ho].
    destruct (payload_education parsed optimized i Hi) as (Hs & Hd & Hdt & Hg).
    pose proof (educationSlot_beyond parsed optimized i Hp Ho) as Hnone.
    simpl in Hfield.
    destruct Hfield as [<- | [<- | [<- | [<- | []]]]];
      [rewrite Hs | rewrite Hd | rewrite Hdt | rewrite Hg]; now rewrite Hnone.
  - intros i field Hi Hfield [Hp Ho].
    destruct (payload_experience parsed optimized i Hi) as (Hc & Hr & Hl & Hd & Hs).
    destruct (overlaySlot_beyond parsed optimized i Hp Ho) as [Hover Horig].
    simpl in Hfield.
    destruct Hfield as [<- | [<- | [<- | [<- | [<- | []]]]]];
      [rewrite Hc | rewrite Hr | rewrite Hl | rewrite Hd | rewrite Hs];
      now rewrite ?Hover, ?Horig.
  - intros i j Hi Hj Hb.
    rewrite (payload_experience_bullet parsed optimized i j Hi Hj).
    now rewrite (bullets_beyond parsed optimized i j Hb).
  - intros i Hi Hp.
    rewrite (payload_project parsed optimized i Hi).
    apply at_None in Hp. now rewrite Hp.
  - intros i j Hi Hj Hb.
    rewrite (payload_project_bullet parsed optimized i j Hi Hj).
    unfold beyondProjectBullets in Hb.
    destruct (at_ (ParsedResume.projects parsed) i) as [p|] eqn:E; simpl.
    + specialize (Hb p eq_refl). apply at_None in Hb. now rewrite Hb.
    + now destruct j.
Qed.

(** C5, as stated, fails for the slots beyond a cap.  The resume has a
    fourth job; the payload has no key for it, so the slot does not map to
    the empty string: it maps to nothing.  The generator, which has no cap,
    puts the fourth job's placeholder into the template, and the filler
    leaves it there. *)
Lemma payload_beyond_cap_counterexample :
  let payload := buildTemplatePayload Sample.resumeFourJobs None in
  option_map ExperienceEntry.company
    (at_ (ParsedResume.experience Sample.resumeFourJobs) 3)
  = Some (Some (str "Initech"))
  /\ Obj.get payload (str "experience.3.company") = None
  /\ Obj.get payload (str "experience.2.company") = Some (str "Acme Corp")
  /\ generateTemplate Sample.resumeFourJobs Sample.fourthEmployer
     = str "<w:t>{{experience.3.company}}</w:t>"
  /\ populateTemplate Sample.patchNothing
       (generateTemplate Sample.resumeFourJobs Sample.fourthEmployer) payload
     = str "<w:t>{{experience.3.company}}</w:t>".
Proof. repeat split; vm_compute; reflexivity. Qed.

(** C5 on the sample resume: one school, so the second education slot is
    empty; one bullet in the first job, so its second bullet slot is empty. *)
Lemma payload_has_every_capped_slot_witness :
  Obj.keys (buildTemplatePayload Sample.resume None) = templateKeys
  /\ Obj.get (buildTemplatePayload Sample.resume None) (str "education.1.school")
     = Some (str "")
  /\ Obj.get (buildTemplatePayload Sample.resume None) (str "experience.0.bullet.1")
     = Some (str "").
Proof.
  pose proof (payload_has_every_capped_slot Sample.resume None)
    as (Hkeys & _ & _ & _ & _ & _ & _ & _ & Hedu & _ & Hbul & _).
  split; [exact Hkeys|]. split.
  - apply (Hedu 1 "school"%string).
    + unfold MAX_EDUCATION; lia.
    + simpl; auto.
    + split; [simpl; lia | discriminate].
  - apply (Hbul 0 1).
    + unfold MAX_EXPERIENCE; lia.
    + unfold MAX_EXPERIENCE_BULLETS; lia.
    + split.
      * intros e He. injection He as <-. simpl. lia.
      * discriminate.
Defined.

(* ------------------------------------------------------------------ *)
(** ** The keyword comparator *)
(* ------------------------------------------------------------------ *)

Lemma has_In (s : StringSet.t) (x : jsstring) :
  StringSet.has s x = true <-> In x s.
Proof.
  unfold StringSet.has. rewrite existsb_exists. split.
  - intros (y & Hy & E). apply str_eqb_eq in E. now subst.
  - intros H. exists x. split; [assumption | apply str_eqb_refl].
Qed.

Lemma has_not_In (s : StringSet.t) (x : jsstring) :
  StringSet.has s x = false <-> ~ In x s.
Proof.
  rewrite <- has_In. destruct (StringSet.has s x); split; congruence.
Qed.

Lemma add_In (s : StringSet.t) (x y : jsstring) :
  In y (StringSet.add s x) <-> In y s \/ y = x.
Proof.
  unfold StringSet.add. destruct (StringSet.has s x) eqn:E.
  - apply has_In in E. split; [auto | intros [H | ->]; assumption].
  - rewrite in_app_iff. simpl. intuition congruence.
Qed.

Lemma add_NoDup (s : StringSet.t) (x : jsstring) :
  NoDup s -> NoDup (StringSet.add s x).
Proof.
  intros H. unfold StringSet.add. destruct (StringSet.has s x) eqn:E; [assumption|].
  apply has_not_In in E.
  apply NoDup_app; [assumption | repeat constructor; intros [] | ].
  intros y Hy [<- | []]. contradiction.
Qed.

Lemma fold_add_In (xs : list jsstring) (s : StringSet.t) (y : jsstring) :
  In y (fold_left StringSet.add xs s) <-> In y s \/ In y xs.
Proof.
  revert s. induction xs as [|x xs IH]; intros s; simpl.
  - intuition.
  - rewrite IH, add_In. intuition congruence.
Qed.

Lemma fold_add_NoDup (xs : list jsstring) (s : StringSet.t) :
  NoDup s -> NoDup (fold_left StringSet.add xs s).
Proof.
  revert s. induction xs as [|x xs IH]; intros s H; simpl; [assumption|].
  apply IH. now apply add_NoDup.
Qed.

(** [new Set(xs)] has the members of [xs], each once. *)
Lemma ofList_In (xs : list jsstring) (y : jsstring) :
  In y (StringSet.ofList xs) <-> In y xs.
Proof. unfold StringSet.ofList. rewrite fold_add_In. simpl. intuition. Qed.

Lemma ofList_NoDup (xs : list jsstring) : NoDup (StringSet.ofList xs).
Proof. apply fold_add_NoDup. constructor. Qed.

(** The loop of [compareKeywords] files each job token under matched or
    missing, in order. *)
Lemma classify_fold (resumeTokens : StringSet.t) (ts : list jsstring)
  (acc : AnalyzeResponse.t) :
  let r := fold_left (classify resumeTokens) ts acc in
  AnalyzeResponse.matchedKeywords r
  = AnalyzeResponse.matchedKeywords acc ++ filter (StringSet.has resumeTokens) ts
  /\ AnalyzeResponse.missingKeywords r
     = AnalyzeResponse.missingKeywords acc
       ++ filter (fun t => negb (StringSet.has resumeTokens t)) ts.
Proof.
  revert acc. induction ts as [|t ts IH]; intros acc; simpl.
  - now rewrite !app_nil_r.
  - destruct (IH (classify resumeTokens acc t)) as [Hm Hx].
    rewrite Hm, Hx. unfold classify.
    destruct (StringSet.has resumeTokens t); simpl;
      now rewrite <- ?app_assoc.
Qed.

Lemma filter_partition_Permutation {A} (f : A -> bool) (l : list A) :
  Permutation (filter f l ++ filter (fun x => negb (f x)) l) l.
Proof.
  induction l as [|x l IH]; simpl; [constructor|].
  destruct (f x); simpl.
  - now constructor.
  - apply Permutation_sym, Permutation_cons_app. now apply Permutation_sym.
Qed.

(** The comparator on the specification's example: the tokens shorter than
    three characters and the number are dropped, the others are split
    between the two lists. *)
Example compareKeywords_example :
  compareKeywords asciiToLowerCase
    (ParsedResume.mk Contact.empty [] [Sample.acme] []
       [str "Python"; str "Java"; str "AWS"; str "REST APIs"] None)
    (str "Software Engineer backend Python, Java/AWS: REST APIs 2024 in Go")
  = AnalyzeResponse.mk
      []
      [str "software"; str "engineer"; str "backend"; str "python";
       str "java"; str "aws"; str "rest"; str "apis"].
Proof. vm_compute. reflexivity. Qed.

(* ------------------------------------------------------------------ *)
(** ** The template generator: first-occurrence replacement *)
(* ------------------------------------------------------------------ *)

Lemma stripPrefix_Some (p s rest : jsstring) :
  JS.stripPrefix p s = Some rest <-> s = p ++ rest.
Proof.
  revert s. induction p as [|x p IH]; intros s; simpl.
  - split; congruence.
  - destruct s as [|y s]; [split; discriminate|].
    destruct (N.eqb_spec x y) as [->|Hne].
    + rewrite IH. split; congruence.
    + split; [discriminate | congruence].
Qed.

Lemma stripPrefix_app (p rest : jsstring) : JS.stripPrefix p (p ++ rest) = Some rest.
Proof. now apply stripPrefix_Some. Qed.

Lemma indexOf_unfold (s p : jsstring) :
  JS.indexOf s p
  = match JS.stripPrefix p s with
    | Some _ => Some 0
    | None =>
        match s with
        | [] => None
        | _ :: s' => option_map S (JS.indexOf s' p)
        end
    end.
Proof. destruct s; reflexivity. Qed.

(** [indexOf] finds an occurrence: the text splits around it. *)
Lemma indexOf_Some (s p : jsstring) (i : nat) :
  JS.indexOf s p = Some i ->
  JS.sliceTo i s ++ p ++ JS.sliceFrom (i + length p) s = s.
Proof.
  unfold JS.sliceTo, JS.sliceFrom.
  revert i. induction s as [|c s IH]; intros i; rewrite indexOf_unfold.
  - destruct (JS.stripPrefix p []) as [rest|] eqn:E; [|discriminate].
    intros [= <-]. apply stripPrefix_Some in E. simpl.
    symmetry in E. apply app_eq_nil in E as [-> ->]. reflexivity.
  - destruct (JS.stripPrefix p (c :: s)) as [rest|] eqn:E.
    + intros [= <-]. apply stripPrefix_Some in E. rewrite E. simpl.
      now rewrite skipn_app, skipn_all, Nat.sub_diag.
    + destruct (JS.indexOf s p) as [j|] eqn:Ej; [|discriminate].
      simpl. intros [= <-]. simpl. f_equal. now apply IH.
Qed.

Lemma replaceFirst_not_found (s from to : jsstring) :
  JS.indexOf s from = None -> replaceFirst s from to = s.
Proof. intros H. unfold replaceFirst. now rewrite H. Qed.

(** A found literal that differs from its placeholder changes the text. *)
Lemma replaceFirst_changes (s from to : jsstring) (i : nat) :
  JS.indexOf s from = Some i -> from <> to -> replaceFirst s from to <> s.
Proof.
  intros Hi Hne Heq. unfold replaceFirst in Heq. rewrite Hi in Heq.
  pose proof (indexOf_Some s from i Hi) as Hs.
  rewrite <- Hs in Heq at 3. clear Hs.
  apply app_inv_head, app_inv_tail in Heq. congruence.
Qed.

Lemma includes_false (s p : jsstring) :
  JS.includes s p = false <-> JS.indexOf s p = None.
Proof.
  unfold JS.includes. destruct (JS.indexOf s p); split; congruence.
Qed.

Lemma includes_true (s p : jsstring) :
  JS.includes s p = true <-> exists i, JS.indexOf s p = Some i.
Proof.
  unfold JS.includes. destruct (JS.indexOf s p) as [i|]; split;
    try congruence; eauto.
  intros [i H]. discriminate.
Qed.



(* ------------------------------------------------------------------ *)
(** ** The education extractor *)
(* ------------------------------------------------------------------ *)

Lemma trimStart_nil (s : jsstring) : JS.trimStart s = [] <-> JS.blank s = true.
Proof.
  unfold JS.blank. induction s as [|c s IH]; simpl; [tauto|].
  destruct (Chars.isSpace c); simpl; [exact IH | split; discriminate].
Qed.

Lemma trimStart_head (s t : jsstring) (c : char) :
  JS.trimStart s = c :: t -> Chars.isSpace c = false.
Proof.
  induction s as [|x s IH]; simpl; [discriminate|].
  destruct (Chars.isSpace x) eqn:E; [exact IH | congruence].
Qed.

Lemma blank_rev (s : jsstring) : JS.blank (rev s) = JS.blank s.
Proof.
  unfold JS.blank. destruct (forallb Chars.isSpace s) eqn:E.
  - rewrite forallb_forall in *. intros x Hx. apply E. now apply in_rev.
  - destruct (forallb Chars.isSpace (rev s)) eqn:E'; [|reflexivity].
    rewrite forallb_forall in E'.
    assert (forallb Chars.isSpace s = true); [|congruence].
    apply forallb_forall. intros x Hx. apply E'. now apply in_rev in Hx.
Qed.

Lemma blank_app (a b : jsstring) : JS.blank (a ++ b) = JS.blank a && JS.blank b.
Proof. apply forallb_app. Qed.

(** [s.trim()] is empty exactly for a JS.blank string. *)
Lemma trim_nil (s : jsstring) : JS.trim s = [] <-> JS.blank s = true.
Proof.
  unfold JS.trim, JS.trimEnd. split.
  - intros H.
    assert (Hrev : JS.trimStart (rev (JS.trimStart s)) = []).
    { destruct (JS.trimStart (rev (JS.trimStart s))); [reflexivity|].
      simpl in H. now apply app_eq_nil in H as [_ H]. }
    apply trimStart_nil in Hrev. rewrite blank_rev in Hrev.
    destruct (JS.trimStart s) as [|c t] eqn:E; [now apply trimStart_nil|].
    apply trimStart_head in E. simpl in Hrev. now rewrite E in Hrev.
  - intros H. apply trimStart_nil in H. now rewrite H.
Qed.

Lemma nonEmpty_trim (s : jsstring) : nonEmpty (JS.trim s) = negb (JS.blank s).
Proof.
  destruct (JS.blank s) eqn:E.
  - apply trim_nil in E. now rewrite E.
  - destruct (JS.trim s) eqn:T; [|reflexivity].
    apply trim_nil in T. congruence.
Qed.

(** If every piece of a split is JS.blank and the separators are JS.blank, the
    text was JS.blank. *)
Lemma splitGo_blank (fl : RegExp.flags) (r : RegExp.regex) :
  (forall prev rest n cs,
      RegExp.matchAt fl r prev rest = Some (n, cs) -> JS.blank (firstn n rest) = true) ->
  forall rest skip prev cur,
    (forall b, In b (RegExp.splitGo fl r skip prev cur rest) -> JS.blank b = true) ->
    JS.blank (rev cur) = true /\ JS.blank (skipn skip rest) = true.
Proof.
  intros Hsep. induction rest as [|c rest IH]; intros skip prev cur Hall.
  - simpl in Hall. rewrite skipn_nil. split; [|reflexivity].
    apply Hall. now left.
  - simpl in Hall. destruct skip as [|skip].
    + destruct (RegExp.matchAt fl r prev (c :: rest)) as [[[|n] cs]|] eqn:E.
      * destruct cur as [|x cur].
        -- destruct (IH 0 (c :: prev) [c] Hall) as [Hc Hrest].
           simpl in *. split; [reflexivity|].
           apply andb_true_iff in Hc as [Hc _]. now rewrite Hc.
        -- destruct (IH 0 (c :: prev) [c] (fun b Hb => Hall b (or_intror Hb)))
             as [Hc Hrest].
           split; [apply Hall; now left|].
           simpl in *. apply andb_true_iff in Hc as [Hc _]. now rewrite Hc.
      * destruct (IH n (c :: prev) [] (fun b Hb => Hall b (or_intror Hb)))
          as [_ Hrest].
        split; [apply Hall; now left|].
        apply Hsep in E. simpl in E. apply andb_true_iff in E as [Hc Hfirst].
        simpl. rewrite Hc. simpl.
        rewrite <- (firstn_skipn n rest), blank_app, Hfirst, Hrest. reflexivity.
      * destruct (IH 0 (c :: prev) (c :: cur) Hall) as [Hcur Hrest].
        simpl in Hcur. rewrite blank_app in Hcur.
        apply andb_true_iff in Hcur as [Hcur Hc]. split; [assumption|].
        simpl in *. apply andb_true_iff in Hc as [Hc _]. now rewrite Hc.
    + destruct (IH skip (c :: prev) cur Hall) as [Hcur Hrest]. now split.
Qed.

Lemma split_blank (fl : RegExp.flags) (r : RegExp.regex) (s : jsstring) :
  (forall prev rest n cs,
      RegExp.matchAt fl r prev rest = Some (n, cs) -> JS.blank (firstn n rest) = true) ->
  (forall b, In b (RegExp.split fl r s) -> JS.blank b = true) ->
  JS.blank s = true.
Proof.
  intros Hsep Hall. destruct s as [|c s]; [reflexivity|].
  unfold RegExp.split in Hall.
  now destruct (splitGo_blank fl r Hsep (c :: s) 0 [] [] Hall).
Qed.

Lemma charEq_LF (fl : RegExp.flags) (c : char) :
  RegExp.charEq fl Parser.LF c = true -> c = Parser.LF.
Proof.
  unfold RegExp.charEq, Parser.LF. destruct (RegExp.ignoreCase fl).
  - unfold Chars.toUpper, Chars.isLower, Chars.inRange.
    change ((97 <=? 10)%N && (10 <=? 122)%N) with false. cbv iota.
    destruct ((97 <=? c)%N && (c <=? 122)%N) eqn:E; intros H;
      apply N.eqb_eq in H; [|congruence].
    apply andb_true_iff in E as [E1 E2]. apply N.leb_le in E1.
    unfold char in c. lia.
  - intros H. apply N.eqb_eq in H. congruence.
Qed.

(** A separator of the shape [\n(?=...)] is one line feed. *)
Lemma newline_lookahead_separator (fl : RegExp.flags) (look : RegExp.regex)
  (prev rest : jsstring) (n : nat) (cs : list (nat * jsstring)) :
  RegExp.matchAt fl (RegExp.Seq (RegExp.Chr Parser.LF) (RegExp.Look look)) prev rest
  = Some (n, cs) ->
  firstn n rest = [Parser.LF].
Proof.
  unfold RegExp.matchAt. cbn [RegExp.run]. unfold RegExp.one. cbn [RegExp.after].
  destruct rest as [|c rest]; [discriminate|].
  destruct (RegExp.charEq fl Parser.LF c) eqn:E; [|discriminate].
  apply charEq_LF in E. subst c.
  destruct (RegExp.run fl look Some (RegExp.step1 _ _ _)) as [y|]; [|discriminate].
  cbn [RegExp.after RegExp.step1]. intros H.
  assert (Hn : n = 1).
  { injection H as Hn _. rewrite <- Hn.
    destruct (length rest); [reflexivity | lia]. }
  now rewrite Hn.
Qed.

Lemma educationStart_separator (prev rest : jsstring) (n : nat)
  (cs : list (nat * jsstring)) :
  RegExp.matchAt RegExp.flag_i Parser.educationStart prev rest = Some (n, cs) ->
  JS.blank (firstn n rest) = true.
Proof.
  intros H. unfold Parser.educationStart in H.
  apply newline_lookahead_separator in H. now rewrite H.
Qed.

(** The loop over the blocks keeps the non-JS.blank ones, in order. *)
Lemma educationEntries_fold (blocks : list jsstring) (acc : list EducationEntry.t) :
  fold_left
    (fun entries block =>
       let t := JS.trim block in
       if negb (nonEmpty t) then entries
       else entries ++ [Parser.educationEntry t])
    blocks acc
  = acc ++ map Parser.educationEntry (filter nonEmpty (map JS.trim blocks)).
Proof.
  revert acc. induction blocks as [|b blocks IH]; intros acc; simpl.
  - now rewrite app_nil_r.
  - rewrite IH. destruct (nonEmpty (JS.trim b)); simpl; [|reflexivity].
    now rewrite <- app_assoc.
Qed.

Lemma educationEntries_map (blocks : list jsstring) :
  Parser.educationEntries blocks
  = map Parser.educationEntry (filter nonEmpty (map JS.trim blocks)).
Proof. unfold Parser.educationEntries. now rewrite educationEntries_fold. Qed.

(** A section with content has a block with content, so the loop never ends
    with no entry and the statement behind it never fires. *)
Lemma educationEntries_nonempty (text : jsstring) :
  JS.trim text <> [] ->
  Parser.educationEntries (RegExp.split RegExp.flag_i Parser.educationStart text) <> [].
Proof.
  intros Htext Hnone. apply Htext, trim_nil.
  apply (split_blank RegExp.flag_i Parser.educationStart text educationStart_separator).
  intros b Hb. rewrite educationEntries_map in Hnone.
  destruct (JS.blank b) eqn:E; [reflexivity|].
  assert (Hin : In (JS.trim b)
                  (filter nonEmpty
                     (map JS.trim (RegExp.split RegExp.flag_i Parser.educationStart text)))).
  { apply filter_In. split; [now apply in_map|].
    now rewrite nonEmpty_trim, E. }
  apply (in_map Parser.educationEntry) in Hin. rewrite Hnone in Hin. destruct Hin.
Qed.

Lemma parseEducationBlock_entries (text : jsstring) :
  Parser.parseEducationBlock text
  = map Parser.educationEntry
      (filter nonEmpty
         (map JS.trim (RegExp.split RegExp.flag_i Parser.educationStart text))).
Proof.
  unfold Parser.parseEducationBlock, Parser.educationFallback.
  destruct (nonEmpty (JS.trim text)) eqn:Et.
  - assert (Hne : JS.trim text <> []) by (intros E; rewrite E in Et; discriminate).
    apply educationEntries_nonempty in Hne.
    destruct (Parser.educationEntries _) as [|e es] eqn:Ee; [contradiction|].
    simpl. rewrite <- Ee. apply educationEntries_map.
  - rewrite andb_false_r. apply educationEntries_map.
Qed.

Lemma educationEntry_rawText (t : jsstring) :
  EducationEntry.rawText (Parser.educationEntry t) = Some t.
Proof. reflexivity. Qed.

(** C8.  For a section text with content the extractor returns at least one
    entry.  In the source every access to a match stands behind a test of
    that match, which the model renders with [option]; the model is a total
    function, so there is no path on which it throws.  When the loop over
    the blocks ends with no entry, the result is exactly one entry whose
    rawText is the trimmed section text and whose school, degree, dates and
    gpa are undefined.  Every returned entry with no structured field has a
    non-empty rawText.

    The section texts the parser passes in are trimmed, so a non-empty one
    has content; a text of white space only yields no entry
    ([parseEducationBlock_blank]). *)
Theorem parseEducationBlock_never_empty :
  forall text : jsstring,
    JS.trim text <> [] ->
    let entries := Parser.parseEducationBlock text in
    1 <= length entries
    /\ (forall blocks,
          Parser.educationEntries blocks = [] ->
          Parser.educationFallback (Parser.educationEntries blocks) text
          = [EducationEntry.mk None None None None (Some (JS.trim text))])
    /\ (forall e,
          In e entries ->
          EducationEntry.school e = None ->
          EducationEntry.degree e = None ->
          EducationEntry.dates e = None ->
          EducationEntry.gpa e = None ->
          exists raw, EducationEntry.rawText e = Some raw /\ raw <> []).
Proof.
  intros text Htext entries. repeat split.
  - unfold entries, Parser.parseEducationBlock, Parser.educationFallback.
    destruct (Parser.educationEntries _) as [|e es] eqn:E.
    + now apply educationEntries_nonempty in E.
    + simpl. lia.
  - intros blocks ->. unfold Parser.educationFallback. simpl.
    destruct (JS.trim text); [contradiction | reflexivity].
  - intros e He _ _ _ _. unfold entries in He.
    rewrite parseEducationBlock_entries in He.
    apply in_map_iff in He as (t & <- & Ht).
    apply filter_In in Ht as [_ Ht].
    exists t. split; [apply educationEntry_rawText|].
    intros ->. discriminate.
Qed.

(** C8 on a section that no pattern fits: one entry, rawText only. *)
Lemma parseEducationBlock_never_empty_witness :
  JS.trim Sample.educationOpenEnded <> []
  /\ 1 <= length (Parser.parseEducationBlock Sample.educationOpenEnded)
  /\ Parser.parseEducationBlock Sample.educationOpenEnded
     = [EducationEntry.mk None None None None (Some (str "Sept 2016 - Present"))].
Proof.
  assert (H : JS.trim Sample.educationOpenEnded <> []) by (vm_compute; discriminate).
  split; [exact H|]. split.
  - exact (proj1 (parseEducationBlock_never_empty Sample.educationOpenEnded H)).
  - vm_compute. reflexivity.
Defined.

(** A text of white space only yields no entry at all. *)
Remark parseEducationBlock_blank :
  Parser.parseEducationBlock (str "   ") = [].
Proof. vm_compute. reflexivity. Qed.

(** C9.  The entries are those of the non-blank blocks, in order, and the
    rawText of each is the full trimmed text of its block, whether or not a
    school, a degree, dates or a GPA were extracted from it. *)
Theorem education_rawText_is_trimmed_block :
  forall text : jsstring,
    let blocks := RegExp.split RegExp.flag_i Parser.educationStart text in
    Parser.parseEducationBlock text
    = map Parser.educationEntry (filter nonEmpty (map JS.trim blocks))
    /\ (forall t, EducationEntry.rawText (Parser.educationEntry t) = Some t)
    /\ (forall e,
          In e (Parser.parseEducationBlock text) ->
          exists block,
            In block blocks
            /\ JS.trim block <> []
            /\ EducationEntry.rawText e = Some (JS.trim block)).
Proof.
  intros text blocks. split; [apply parseEducationBlock_entries|].
  split; [apply educationEntry_rawText|].
  intros e He. rewrite parseEducationBlock_entries in He.
  apply in_map_iff in He as (t & <- & Ht).
  apply filter_In in Ht as [Ht Hne].
  apply in_map_iff in Ht as (block & <- & Hblock).
  exists block. repeat split; [assumption|].
  intros E. rewrite E in Hne. discriminate.
Qed.

(** C9 on a section with two schools: both entries carry their block as
    rawText, the first next to the fields extracted from it. *)
Lemma education_rawText_is_trimmed_block_witness :
  Parser.parseEducationBlock Sample.education
  = [ EducationEntry.mk
        (Some (str "University of Washington"))
        (Some (Sample.text ["B.S. in Computer Science"; "Sept 2016"]%string))
        (Some (str "Sept 2016 - June 2020"))
        (Some (str "3.9"))
        (Some (Sample.text ["University of Washington | GPA: 3.9";
                            "B.S. in Computer Science";
                            "Sept 2016 - June 2020"]%string));
      EducationEntry.mk
        (Some (str "Bellevue College")) None None None
        (Some (Sample.text ["Bellevue College"; "Associate"]%string)) ]
  /\ map EducationEntry.rawText (Parser.parseEducationBlock Sample.education)
     = map (fun t => Some t)
         (filter nonEmpty
            (map JS.trim
               (RegExp.split RegExp.flag_i Parser.educationStart Sample.education))).
Proof.
  split; [vm_compute; reflexivity|].
  rewrite (proj1 (education_rawText_is_trimmed_block Sample.education)).
  rewrite map_map. reflexivity.
Defined.

(* ------------------------------------------------------------------ *)
(** ** The placeholder filler *)
(* ------------------------------------------------------------------ *)









Lemma braceFree_app (a b : jsstring) :
  Template.braceFree (a ++ b) = Template.braceFree a && Template.braceFree b.
Proof. apply forallb_app. Qed.







(** A piece of a template occurs in its text. *)
Lemma indexOf_app_found (a p b : jsstring) : exists i, JS.indexOf (a ++ p ++ b) p = Some i.
Proof.
  induction a as [|c a [i IH]].
  - exists 0. simpl. rewrite indexOf_unfold. now rewrite stripPrefix_app.
  - rewrite indexOf_unfold.
    destruct (JS.stripPrefix p ((c :: a) ++ p ++ b)); [now exists 0|].
    simpl. rewrite IH. now exists (S i).
Qed.


















(* ------------------------------------------------------------------ *)
(** ** The experience extractor *)
(* ------------------------------------------------------------------ *)

(** C7: the code at an input where it breaks the claim.  The block has the
    company on its first line and the role on the second, without a pipe.
    The header scan consumes the second line as the role, but
    [stripExperienceHeaderLines] drops a second line only when it holds a
    pipe, so the role line stays in the block and comes back as the first
    bullet. *)
Lemma parseExperienceBlock_role_line_among_bullets :
  Parser.parseExperienceBlock Sample.jobPlain
  = [ ExperienceEntry.mk
        (Some (str "Acme Corp")) (Some (str "Software Engineer"))
        None None None
        [str "Software Engineer"; str "Built things"] ]
  /\ Parser.stripExperienceHeaderLines Sample.jobPlain (str "Acme Corp")
     = Sample.text ["Software Engineer"; "Built things"]%string.
Proof. split; vm_compute; reflexivity. Qed.

(** The same happens to a date line of its own: it is consumed as the dates
    and kept as a bullet. *)
Remark parseExperienceBlock_dates_line_among_bullets :
  Parser.parseExperienceBlock Sample.jobDatesLine
  = [ ExperienceEntry.mk
        (Some (str "Acme Corp")) None None (Some (str "Jan 2020 - Present")) None
        [str "Jan 2020 - Present"; str "Built things"] ].
Proof. vm_compute. reflexivity. Qed.

(** In the pipe layout both header lines are stripped and only the bullet
    lines come back. *)
Example parseExperienceBlock_piped :
  Parser.parseExperienceBlock Sample.jobPiped
  = [ ExperienceEntry.mk
        (Some (str "Acme Corp")) (Some (str "Software Engineer"))
        (Some (str "Seattle, WA")) None None
        [str "Built things"; str "Shipped stuff"] ].
Proof. vm_compute. reflexivity. Qed.

(* ================================================================== *)
(** * Further properties of the code *)
(* ================================================================== *)

(* ------------------------------------------------------------------ *)
(** ** Patterns of one character *)
(* ------------------------------------------------------------------ *)

Lemma length_cons_sub {A} (c : A) (l : list A) : length (c :: l) - length l = 1.
Proof. simpl. destruct (length l); lia. Qed.

Lemma oneChar_one (fl : RegExp.flags) (p : char -> bool) (prev rest : jsstring) :
  match RegExp.one p Some {| RegExp.before := prev; RegExp.after := rest;
                             RegExp.caps := [] |} with
  | Some y => Some (length rest - length (RegExp.after y), RegExp.caps y)
  | None => None
  end
  = match rest with
    | c :: _ => if p c then Some (1, []) else None
    | [] => None
    end.
Proof.
  unfold RegExp.one. cbn [RegExp.after]. destruct rest as [|c rest]; [reflexivity|].
  destruct (p c); [|reflexivity].
  cbn [RegExp.step1 RegExp.after RegExp.caps]. now rewrite length_cons_sub.
Qed.

Lemma oneChar_Cls (fl : RegExp.flags) (items : list RegExp.citem) :
  RegExp.oneChar fl (RegExp.Cls items) (RegExp.inClass fl items).
Proof. intros prev rest. apply (oneChar_one fl). Qed.

Lemma oneChar_NCls (fl : RegExp.flags) (items : list RegExp.citem) :
  RegExp.oneChar fl (RegExp.NCls items) (fun c => negb (RegExp.inClass fl items c)).
Proof. intros prev rest. apply (oneChar_one fl). Qed.

Lemma oneChar_Chr (fl : RegExp.flags) (a : char) :
  RegExp.oneChar fl (RegExp.Chr a) (RegExp.charEq fl a).
Proof. intros prev rest. apply (oneChar_one fl). Qed.

(** Replacing every match of a one-character pattern works character by
    character. *)
Lemma replaceGo_oneChar (fl : RegExp.flags) (r : RegExp.regex) (p : char -> bool)
  (rep : jsstring) :
  RegExp.oneChar fl r p ->
  forall rest prev,
    RegExp.replaceGo fl r rep 0 prev rest
    = flat_map (fun c => if p c then rep else [c]) rest.
Proof.
  intros Hr. induction rest as [|c rest IH]; intros prev.
  - simpl. now rewrite (Hr prev []).
  - cbn [RegExp.replaceGo flat_map]. rewrite (Hr prev (c :: rest)).
    destruct (p c); rewrite IH; [now rewrite app_nil_r || reflexivity | reflexivity].
Qed.

Lemma replaceAll_oneChar (fl : RegExp.flags) (r : RegExp.regex) (p : char -> bool)
  (rep s : jsstring) :
  RegExp.oneChar fl r p ->
  RegExp.replaceAll fl r rep s = flat_map (fun c => if p c then rep else [c]) s.
Proof. intros Hr. apply (replaceGo_oneChar fl r p rep Hr). Qed.

Lemma flat_map_filter (p : char -> bool) (s : jsstring) :
  flat_map (fun c => if p c then [] else [c]) s = filter (fun c => negb (p c)) s.
Proof.
  induction s as [|c s IH]; simpl; [reflexivity|].
  rewrite IH. now destruct (p c).
Qed.

(* ------------------------------------------------------------------ *)
(** ** The resume key *)
(* ------------------------------------------------------------------ *)

(** [phone.replace(/\D/g, "")] keeps the digits. *)
Lemma digits_of_phone (s : jsstring) :
  RegExp.replaceAll RegExp.noFlags (RegExp.NCls [RegExp.IDigit]) (str "") s
  = filter Chars.isDigit s.
Proof.
  rewrite (replaceAll_oneChar _ _ _ _ _ (oneChar_NCls RegExp.noFlags [RegExp.IDigit])).
  change (str "") with (@nil char). rewrite flat_map_filter.
  apply filter_ext. intros c. unfold RegExp.inClass. simpl.
  rewrite !orb_false_r. apply negb_involutive.
Qed.

Lemma resumeIdFromPhone_digits (phone : option jsstring) :
  resumeIdFromPhone phone
  = if 10 <=? length (filter Chars.isDigit (phone ?: []))
    then filter Chars.isDigit (phone ?: [])
    else DEFAULT_RESUME_ID.
Proof.
  unfold resumeIdFromPhone.
  destruct phone as [[|c s]|]; try reflexivity.
  cbn [truthy nonEmpty negb orDefault]. now rewrite digits_of_phone.
Qed.

(** The key of a resume depends on the digits of the phone number only: two
    numbers with the same digits, however they are written, give the same
    key.  The key is the digit string when there are at least ten digits,
    and "default" when there are fewer or there is no phone number. *)
Theorem resumeIdFromPhone_same_digits_same_id :
  forall phone : option jsstring,
    let digits := filter Chars.isDigit (phone ?: []) in
    resumeIdFromPhone phone
    = (if 10 <=? length digits then digits else DEFAULT_RESUME_ID)
    /\ (forall other : option jsstring,
          filter Chars.isDigit (other ?: []) = digits ->
          resumeIdFromPhone other = resumeIdFromPhone phone)
    /\ resumeIdFromPhone (Some (resumeIdFromPhone phone)) = resumeIdFromPhone phone.
Proof.
  intros phone digits.
  assert (H := resumeIdFromPhone_digits phone).
  fold digits in H. split; [exact H|]. split.
  - intros other Ho. rewrite H, (resumeIdFromPhone_digits other).
    now rewrite Ho.
  - rewrite (resumeIdFromPhone_digits (Some (resumeIdFromPhone phone))).
    cbn [orDefault]. rewrite H.
    destruct (10 <=? length digits) eqn:E; [|reflexivity].
    assert (Hd : filter Chars.isDigit digits = digits).
    { unfold digits. apply forallb_filter_id.
      apply forallb_forall. intros c Hc. now apply filter_In in Hc. }
    now rewrite Hd, E.
Qed.

Example resumeIdFromPhone_example :
  resumeIdFromPhone (Some (str "(909) 438-1726")) = str "9094381726"
  /\ resumeIdFromPhone (Some (str "909.438.1726")) = str "9094381726"
  /\ resumeIdFromPhone (Some (str "438-1726")) = str "default"
  /\ resumeIdFromPhone None = str "default".
Proof. repeat split. Qed.

(* ------------------------------------------------------------------ *)
(** ** The matcher is sound *)
(* ------------------------------------------------------------------ *)

Section MatcherSoundness.
Import RegExp.




Lemma run_Rep fl min max a k x :
  run fl (Rep min max a) k x = exactLoop (run fl a) k min max min x.
Proof. reflexivity. Qed.

Lemma one_sound (p : char -> bool) (k : mstate -> option mstate) (x z : mstate) :
  one p k x = Some z -> exists y, takes p x y /\ k y = Some z.
Proof.
  unfold one. destruct (after x) as [|c rest] eqn:E; [discriminate|].
  destruct (p c) eqn:Ep; [|discriminate].
  intros H. exists (step1 x c rest). split; [|assumption].
  now exists c, rest.
Qed.

Section QuantifierSound.
Variable runA : (mstate -> option mstate) -> mstate -> option mstate.
Variable MA : mstate -> mstate -> Prop.
Hypothesis runA_sound :
  forall k x z, runA k x = Some z -> exists y, MA x y /\ k y = Some z.
Variable k : mstate -> option mstate.

Lemma greedy_sound (fuel : nat) :
  forall max x z,
    greedyLoop runA k fuel max x = Some z ->
    exists n y, iter MA n x y /\ k y = Some z
                /\ (forall m, max = Some m -> n <= m).
Proof.
  induction fuel as [|fuel IH]; intros max x z; simpl.
  - intros H. exists 0, x. repeat split; [assumption | lia].
  - destruct (spent max) eqn:Es.
    + intros H. exists 0, x. repeat split; [assumption | lia].
    + destruct (runA _ x) as [z'|] eqn:Er.
      * intros [= ->]. apply runA_sound in Er as (y1 & Hy1 & Hk).
        destruct (length (after y1) <? length (after x)); [|discriminate].
        apply IH in Hk as (n & y & Hit & Hky & Hmax).
        exists (S n), y. repeat split; [now exists y1 | assumption |].
        intros m ->. destruct m as [|m]; [discriminate Es|].
        specialize (Hmax m eq_refl). lia.
      * intros H. exists 0, x. repeat split; [assumption | lia].
Qed.

Lemma exact_sound (min : nat) (max : option nat) (n : nat) :
  forall x z,
    exactLoop runA k min max n x = Some z ->
    exists j y, iter MA (n + j) x y /\ k y = Some z
                /\ (forall m, max = Some m -> j <= m - min).
Proof.
  induction n as [|n IH]; intros x z.
  - intros H.
    change (greedyLoop runA k (S (length (after x)))
              (option_map (fun mx => mx - min) max) x = Some z) in H.
    apply greedy_sound in H as (j & y & Hit & Hk & Hmax).
    exists j, y. repeat split; [assumption | assumption |].
    intros m ->. now apply Hmax.
  - intros H.
    change (runA (exactLoop runA k min max n) x = Some z) in H.
    apply runA_sound in H as (y1 & Hy1 & Hk).
    apply IH in Hk as (j & y & Hit & Hky & Hmax).
    exists j, y. repeat split; [now exists y1 | assumption | assumption].
Qed.
End QuantifierSound.

(** The matcher is sound: a result comes from a match of the pattern
    followed by a result of the continuation. *)
Lemma run_sound (fl : flags) (r : regex) :
  forall k x z, run fl r k x = Some z -> exists y, matches fl r x y /\ k y = Some z.
Proof.
  induction r as [|c| |items|items|a IHa b IHb|a IHa b IHb|min max a IHa|n a IHa
                 |a IHa| | |]; intros k x z.
  - intros H. now exists x.
  - apply one_sound.
  - apply one_sound.
  - apply one_sound.
  - apply one_sound.
  - cbn [run]. intros H. apply IHa in H as (m & Hm & H).
    apply IHb in H as (y & Hy & H). exists y. split; [now exists m | assumption].
  - cbn [run]. destruct (run fl a k x) as [z'|] eqn:Ea.
    + intros [= ->]. apply IHa in Ea as (y & Hy & H). exists y. split; [now left | assumption].
    + intros H. apply IHb in H as (y & Hy & H). exists y. split; [now right | assumption].
  - rewrite run_Rep. intros H.
    apply (exact_sound (run fl a) (matches fl a) IHa) in H
      as (j & y & Hit & Hk & Hmax).
    exists y. split; [|assumption]. exists (min + j). repeat split.
    + assumption.
    + lia.
    + intros m Hm. specialize (Hmax m Hm). lia.
  - cbn [run]. intros H. apply IHa in H as (m & Hm & H).
    eexists. split; [exists m; split; [exact Hm | reflexivity] | exact H].
  - cbn [run]. destruct (run fl a Some x) as [y|] eqn:Ea; [|discriminate].
    intros H. apply IHa in Ea as (m & Hm & [= ->]).
    eexists. split; [exists y; split; [exact Hm | reflexivity] | exact H].
  - cbn [run]. destruct (atBol fl x) eqn:E; [|discriminate]. intros H. now exists x.
  - cbn [run]. destruct (atEol fl x) eqn:E; [|discriminate]. intros H. now exists x.
  - cbn [run]. destruct (atWordB x) eqn:E; [|discriminate]. intros H. now exists x.
Qed.

Lemma over_refl (x : mstate) : over [] x x.
Proof. now split. Qed.

Lemma over_trans (s t : jsstring) (x y z : mstate) :
  over s x y -> over t y z -> over (s ++ t) x z.
Proof.
  intros [H1 H2] [H3 H4]. split.
  - now rewrite H1, H3, app_assoc.
  - now rewrite H4, H2, rev_app_distr, app_assoc.
Qed.

Lemma takes_over (p : char -> bool) (x y : mstate) :
  takes p x y -> exists c, p c = true /\ over [c] x y.
Proof.
  intros (c & rest & Ha & Hp & ->). exists c. split; [assumption|].
  split; [exact Ha | reflexivity].
Qed.

Lemma iter_over (M : mstate -> mstate -> Prop) :
  (forall x y, M x y -> exists s, over s x y) ->
  forall n x y, iter M n x y -> exists s, over s x y.
Proof.
  intros HM. induction n as [|n IH]; intros x y; simpl.
  - intros ->. exists []. apply over_refl.
  - intros (m & Hm & Hit). apply HM in Hm as [s Hs]. apply IH in Hit as [t Ht].
    exists (s ++ t). now apply (over_trans s t x m y).
Qed.

Lemma matches_over (fl : flags) (r : regex) :
  forall x y, matches fl r x y -> exists s, over s x y.
Proof.
  induction r as [|c| |items|items|a IHa b IHb|a IHa b IHb|min max a IHa|n a IHa
                 |a IHa| | |]; intros x y; cbn [matches].
  - intros ->. exists []. apply over_refl.
  - intros H. apply takes_over in H as (c' & _ & H). now exists [c'].
  - intros H. apply takes_over in H as (c' & _ & H). now exists [c'].
  - intros H. apply takes_over in H as (c' & _ & H). now exists [c'].
  - intros H. apply takes_over in H as (c' & _ & H). now exists [c'].
  - intros (m & Ha & Hb). apply IHa in Ha as [s Hs]. apply IHb in Hb as [t Ht].
    exists (s ++ t). now apply (over_trans s t x m y).
  - intros [H | H]; [now apply IHa | now apply IHb].
  - intros (n & Hit & _). now apply (iter_over _ IHa n).
  - intros (m & Ha & ->). apply IHa in Ha as [s Hs]. exists s. exact Hs.
  - intros (m & Ha & ->). exists []. now split.
  - intros [_ ->]. exists []. apply over_refl.
  - intros [_ ->]. exists []. apply over_refl.
  - intros [_ ->]. exists []. apply over_refl.
Qed.

Lemma over_length (s : jsstring) (x y : mstate) :
  over s x y -> length (after x) - length (after y) = length s.
Proof. intros [H _]. rewrite H, length_app. lia. Qed.

Lemma over_firstn (s : jsstring) (x y : mstate) :
  over s x y -> firstn (length (after x) - length (after y)) (after x) = s.
Proof.
  intros H. rewrite (over_length s x y H). destruct H as [H _].
  rewrite H. now rewrite firstn_app, Nat.sub_diag, firstn_all, app_nil_r.
Qed.

Lemma over_unique (s t : jsstring) (x y : mstate) : over s x y -> over t x y -> s = t.
Proof. intros [H _] [H' _]. rewrite H in H'. now apply app_inv_tail in H'. Qed.

(** A match at a position: the piece it covers, and the state it ends in. *)
Lemma matchAt_sound (fl : flags) (r : regex) (prev rest : jsstring) (n : nat)
  (cs : list (nat * jsstring)) :
  matchAt fl r prev rest = Some (n, cs) ->
  exists s y,
    matches fl r {| before := prev; after := rest; caps := [] |} y
    /\ over s {| before := prev; after := rest; caps := [] |} y
    /\ n = length s /\ firstn n rest = s /\ cs = caps y.
Proof.
  unfold matchAt.
  destruct (run fl r Some _) as [y|] eqn:E; [|discriminate].
  intros [= <- <-]. apply run_sound in E as (y' & Hm & [= ->]).
  destruct (matches_over fl r _ _ Hm) as [s Hs].
  exists s, y. split; [exact Hm|]. split; [exact Hs|].
  split; [exact (over_length s _ y Hs)|].
  split; [exact (over_firstn s _ y Hs) | reflexivity].
Qed.

Lemma search_sound (fl : flags) (r : regex) :
  forall rest i prev m,
    search fl r i prev rest = Some m ->
    exists pre suf,
      rest = pre ++ suf /\ index m = i + length pre
      /\ matchAt fl r (rev pre ++ prev) suf = Some (length (matched m), groups m)
      /\ matched m = firstn (length (matched m)) suf.
Proof.
  assert (Hfound : forall rest i prev n cs,
            matchAt fl r prev rest = Some (n, cs) ->
            exists pre suf,
              rest = pre ++ suf /\ i = i + length pre
              /\ matchAt fl r (rev pre ++ prev) suf
                 = Some (length (firstn n rest), cs)
              /\ firstn n rest = firstn (length (firstn n rest)) suf).
  { intros rest i prev n cs E. exists [], rest. cbn [app rev length].
    apply matchAt_sound in E as E'. destruct E' as (s & y & _ & _ & Hn & Hs & _).
    rewrite Hs, <- Hn. repeat split; try lia; [exact E | now rewrite Hs]. }
  induction rest as [|c rest IH]; intros i prev m; cbn [search].
  - destruct (matchAt fl r prev []) as [[n cs]|] eqn:E; [|discriminate].
    intros [= <-]. cbn [index matched groups]. now apply Hfound.
  - destruct (matchAt fl r prev (c :: rest)) as [[n cs]|] eqn:E.
    + intros [= <-]. cbn [index matched groups]. now apply Hfound.
    + intros H. apply IH in H as (pre & suf & -> & Hi & Hm & Hmatched).
      exists (c :: pre), suf. cbn [app rev length]. rewrite <- app_assoc.
      repeat split; try assumption. lia.
Qed.

(** What [exec] finds: the text splits into what stands before the match,
    the match and the rest, and the match is a match of the pattern there. *)
Lemma exec_sound (fl : flags) (r : regex) (s : jsstring) (m : result) :
  exec fl r s = Some m ->
  exists pre y,
    s = pre ++ matched m ++ after y
    /\ index m = length pre
    /\ groups m = caps y
    /\ matches fl r
         {| before := rev pre; after := matched m ++ after y; caps := [] |} y
    /\ over (matched m)
         {| before := rev pre; after := matched m ++ after y; caps := [] |} y.
Proof.
  unfold exec. intros H. apply search_sound in H as (pre & suf & -> & Hi & Hm & Hmatched).
  rewrite app_nil_r in Hm. apply matchAt_sound in Hm as (t & y & Hy & Ho & Hn & Ht & Hc).
  rewrite <- Hmatched in Ht. subst t.
  assert (Hsuf : suf = matched m ++ after y) by apply Ho.
  exists pre, y. rewrite <- Hsuf. repeat split; try assumption. apply Ho.
Qed.

(** A run of a class covers characters of the class. *)
Lemma iter_takes (p : char -> bool) :
  forall n x y,
    iter (takes p) n x y ->
    exists s, over s x y /\ length s = n /\ forallb p s = true.
Proof.
  induction n as [|n IH]; intros x y; cbn [iter].
  - intros ->. exists []. split; [apply over_refl | now split].
  - intros (m & Hm & Hit). apply takes_over in Hm as (c & Hc & Hm).
    apply IH in Hit as (s & Hs & Hlen & Hp).
    exists ([c] ++ s). split; [now apply (over_trans [c] s x m y)|]. split.
    + cbn [app length]. now rewrite Hlen.
    + cbn [app forallb]. now rewrite Hc, Hp.
Qed.

End MatcherSoundness.

(* ------------------------------------------------------------------ *)
(** ** The phrase comparator *)
(* ------------------------------------------------------------------ *)

Lemma classifyKeyword_fold (toLowerCase : jsstring -> jsstring) (text : jsstring)
  (kws : list jsstring) (acc : AnalyzeResponse.t) :
  let ks := filter nonEmpty (map JS.trim kws) in
  let found := fun k => JS.includes text (toLowerCase k) in
  let r := fold_left (classifyKeyword toLowerCase text) kws acc in
  AnalyzeResponse.matchedKeywords r
  = AnalyzeResponse.matchedKeywords acc ++ filter found ks
  /\ AnalyzeResponse.missingKeywords r
     = AnalyzeResponse.missingKeywords acc ++ filter (fun k => negb (found k)) ks.
Proof.
  revert acc. induction kws as [|kw kws IH]; intros acc; simpl.
  - now rewrite !app_nil_r.
  - destruct (IH (classifyKeyword toLowerCase text acc kw)) as [Hm Hx].
    rewrite Hm, Hx. unfold classifyKeyword.
    destruct (nonEmpty (JS.trim kw)); simpl; [|now split].
    destruct (JS.includes text (toLowerCase (JS.trim kw))); simpl;
      now rewrite <- ?app_assoc.
Qed.

(** The phrase comparator files every keyword that is not blank, trimmed and
    in its own spelling, under matched or missing: matched when its
    lower-cased form occurs in the lower-cased resume text, missing
    otherwise.  Blank keywords are skipped, the order of the list is kept
    within each of the two lists, and a keyword given twice is filed
    twice. *)
Theorem compareKeywordList_partitions_keywords :
  forall (toLowerCase : jsstring -> jsstring)
         (resume : ParsedResume.t) (keywordList : list jsstring),
    let r := compareKeywordList toLowerCase resume keywordList in
    let matched := AnalyzeResponse.matchedKeywords r in
    let missing := AnalyzeResponse.missingKeywords r in
    let keywords := filter nonEmpty (map JS.trim keywordList) in
    let found :=
      fun k => JS.includes (toLowerCase (resumeText resume)) (toLowerCase k) in
    matched = filter found keywords
    /\ missing = filter (fun k => negb (found k)) keywords
    /\ Permutation (matched ++ missing) keywords
    /\ length matched + length missing = length keywords.
Proof.
  intros toLowerCase resume keywordList r matched missing keywords found.
  destruct (classifyKeyword_fold toLowerCase (toLowerCase (resumeText resume))
              keywordList (AnalyzeResponse.mk [] [])) as [Hm Hx].
  simpl in Hm, Hx. fold keywords found in Hm, Hx.
  assert (Hperm : Permutation (matched ++ missing) keywords).
  { unfold matched, missing, r, compareKeywordList. rewrite Hm, Hx.
    apply filter_partition_Permutation. }
  repeat split; try assumption.
  rewrite <- length_app. now apply Permutation_length.
Qed.

(** The comparator on a list with a phrase, a blank keyword and a keyword in
    capitals. *)
Example compareKeywordList_example :
  compareKeywordList asciiToLowerCase Sample.resume
    [str "  REST APIs "; str "   "; str "Golang"; str "backend services"]
  = AnalyzeResponse.mk [str "Golang"] [str "REST APIs"; str "backend services"].
Proof. vm_compute. reflexivity. Qed.

(* ------------------------------------------------------------------ *)
(** ** The provider configuration *)
(* ------------------------------------------------------------------ *)

Lemma orElse_model (m : option jsstring) (d : jsstring) :
  d <> [] ->
  LLM.orElse (option_map JS.trim m) d <> []
  /\ (forall x, m = Some x -> JS.blank x = false ->
        LLM.orElse (option_map JS.trim m) d = JS.trim x)
  /\ (m = None \/ (exists x, m = Some x /\ JS.blank x = true) ->
        LLM.orElse (option_map JS.trim m) d = d).
Proof.
  intros Hd. unfold LLM.orElse. destruct m as [x|]; simpl.
  - rewrite nonEmpty_trim. destruct (JS.blank x) eqn:E; simpl.
    + repeat split; [assumption | intros y [= <-]; congruence].
    + repeat split.
      * intros H. apply trim_nil in H. congruence.
      * now intros y [= <-] _.
      * intros [H | (y & [= <-] & H)]; congruence.
  - repeat split; [assumption | discriminate].
Qed.

(** [isLLMConfigured] answers true exactly when [getLLMConfig] returns a
    configuration instead of throwing; a key that is the empty string counts
    as not set in both.  The first key set, in the order OpenAI, Moonshot,
    OpenRouter, is the one the client gets.  The model is the trimmed
    [LLM_MODEL] unless that is unset or blank, in which case it is one of
    the three defaults; it is never the empty string. *)
Theorem isLLMConfigured_iff_getLLMConfig_returns :
  forall e : LLM.env,
    (LLM.isLLMConfigured e = true <-> exists c, LLM.getLLMConfig e = LLM.Return c)
    /\ (forall c, LLM.getLLMConfig e = LLM.Return c ->
          LLM.apiKey (LLM.client c) <> []
          /\ Some (LLM.apiKey (LLM.client c))
             = (if truthy (LLM.OPENAI_API_KEY e) then LLM.OPENAI_API_KEY e
                else if truthy (LLM.MOONSHOT_API_KEY e) then LLM.MOONSHOT_API_KEY e
                else LLM.OPENROUTER_API_KEY e)
          /\ LLM.model c <> []
          /\ (forall m, LLM.LLM_MODEL e = Some m -> JS.blank m = false ->
                LLM.model c = JS.trim m)
          /\ (LLM.LLM_MODEL e = None
              \/ (exists m, LLM.LLM_MODEL e = Some m /\ JS.blank m = true) ->
                In (LLM.model c)
                   [LLM.DEFAULT_MODELS.openai; LLM.DEFAULT_MODELS.moonshot;
                    LLM.DEFAULT_MODELS.openrouter])).
Proof.
  intros [k1 k2 k3 m]. unfold LLM.isLLMConfigured, LLM.getLLMConfig.
  cbn [LLM.OPENAI_API_KEY LLM.MOONSHOT_API_KEY LLM.OPENROUTER_API_KEY LLM.LLM_MODEL].
  assert (Hkey : forall k, truthy k = true -> exists s, k = Some s /\ s <> []).
  { intros [[|c s]|] H; try discriminate H. exists (c :: s). now split. }
  destruct (orElse_model m LLM.DEFAULT_MODELS.openai) as (A1 & A2 & A3);
    [discriminate|].
  destruct (orElse_model m LLM.DEFAULT_MODELS.moonshot) as (B1 & B2 & B3);
    [discriminate|].
  destruct (orElse_model m LLM.DEFAULT_MODELS.openrouter) as (C1 & C2 & C3);
    [discriminate|].
  destruct (truthy k1) eqn:E1; [|destruct (truthy k2) eqn:E2;
                                 [|destruct (truthy k3) eqn:E3]]; simpl.
  - split; [split; eauto|]. intros c [= <-]; simpl.
    destruct (Hkey k1 E1) as (s & -> & Hs). simpl.
    repeat split; auto. intros H. rewrite (A3 H). now left.
  - split; [split; eauto|]. intros c [= <-]; simpl.
    destruct (Hkey k2 E2) as (s & -> & Hs). simpl.
    repeat split; auto. intros H. rewrite (B3 H). right. now left.
  - split; [split; eauto|]. intros c [= <-]; simpl.
    destruct (Hkey k3 E3) as (s & -> & Hs). simpl.
    repeat split; auto. intros H. rewrite (C3 H). right. right. now left.
  - split; [|discriminate]. split; [discriminate | intros [c H]; discriminate].
Qed.

(** With only a Moonshot key and a blank model override the client is set
    up for Moonshot with its default model; with no key at all the call
    throws and [isLLMConfigured] says so. *)
Example getLLMConfig_example :
  LLM.getLLMConfig
    (LLM.mkEnv (Some (str "")) (Some (str "sk-moon")) None (Some (str "  ")))
  = LLM.Return
      (LLM.mkConfig (LLM.mkClient (str "sk-moon") (Some LLM.MOONSHOT_BASE_URL))
                    (str "kimi-k2-turbo-preview"))
  /\ LLM.isLLMConfigured (LLM.mkEnv (Some (str "")) None None None) = false.
Proof. split; reflexivity. Qed.

(* ------------------------------------------------------------------ *)
(** ** The overlay, applied twice and exported *)
(* ------------------------------------------------------------------ *)

Lemma nullish_idem {A} (a b : option A) : a ?? (a ?? b) = a ?? b.
Proof. now destruct a. Qed.

Lemma map_indexed_ext {A B} (f g : nat * A -> B) (xs : list A) :
  (forall i x, at_ xs i = Some x -> f (i, x) = g (i, x)) ->
  map f (indexed xs) = map g (indexed xs).
Proof.
  intros H. apply nth_error_ext. intros i. rewrite !nth_error_map.
  destruct (nth_error xs i) as [x|] eqn:E.
  - rewrite (indexed_nth xs i x E). simpl. f_equal. now apply H.
  - assert (Hi : nth_error (indexed xs) i = None).
    { apply nth_error_None. rewrite indexed_length. now apply nth_error_None. }
    now rewrite Hi.
Qed.

Lemma at_map_indexed {A B} (f : nat * A -> B) (xs : list A) (i : nat) :
  at_ (map f (indexed xs)) i = option_map (fun x => f (i, x)) (at_ xs i).
Proof.
  unfold at_. rewrite nth_error_map.
  destruct (nth_error xs i) as [x|] eqn:E.
  - now rewrite (indexed_nth xs i x E).
  - assert (Hi : nth_error (indexed xs) i = None).
    { apply nth_error_None. rewrite indexed_length. now apply nth_error_None. }
    now rewrite Hi.
Qed.

(** Applying an overlay to the result of applying it gives nothing new:
    the positional fallbacks of the second pass read back what the first
    pass put there. *)
Theorem merge_twice_is_merge_once :
  forall (parsed : ParsedResume.t) (optimized : OptimizedSections.t),
    mergeOptimizedIntoResume (mergeOptimizedIntoResume parsed optimized) optimized
    = mergeOptimizedIntoResume parsed optimized.
Proof.
  intros parsed [experience education projects skills contact].
  unfold mergeOptimizedIntoResume.
  cbn [OptimizedSections.experience OptimizedSections.education
       OptimizedSections.projects OptimizedSections.skills
       OptimizedSections.contact
       ParsedResume.contact ParsedResume.education ParsedResume.experience
       ParsedResume.projects ParsedResume.skills ParsedResume.otherSections].
  f_equal.
  - now destruct contact.
  - now destruct (hasLength education).
  - destruct (hasLength experience) eqn:E; [|reflexivity].
    apply map_indexed_ext. intros i e Hi.
    rewrite at_map_indexed, Hi. simpl.
    now rewrite nullish_idem.
  - destruct (hasLength projects) eqn:E; [|reflexivity].
    apply map_indexed_ext. intros i p Hi.
    rewrite at_map_indexed, Hi. simpl.
    now rewrite nullish_idem.
  - now destruct (hasLength skills).
Qed.

(** The merged projects, like the merged experience, are the overlay's
    entries: as many as the overlay has, each with the overlay's bullets
    (none if the entry has no bullets) and the overlay's title or, where
    the overlay has none, the title of the original project at the same
    index. *)
Theorem merge_projects_positional :
  forall (parsed : ParsedResume.t) (optimized : OptimizedSections.t),
    let merged := ParsedResume.projects (mergeOptimizedIntoResume parsed optimized) in
    match OptimizedSections.projects optimized with
    | Some (p :: ps) =>
        length merged = length (p :: ps)
        /\ forall i q, at_ (p :: ps) i = Some q ->
             at_ merged i
             = Some (ProjectEntry.mk
                       (OptimizedSections.title q
                        ?? opt (at_ (ParsedResume.projects parsed) i) ProjectEntry.title)
                       (OptimizedSections.projectBullets q ?: []))
    | _ => merged = ParsedResume.projects parsed
    end.
Proof.
  intros parsed [experience education [[|p ps]|] skills contact]; try reflexivity.
  unfold mergeOptimizedIntoResume.
  cbn [OptimizedSections.projects ParsedResume.projects hasLength orDefault].
  split.
  - now rewrite length_map, indexed_length.
  - intros i q Hq. now rewrite at_map_indexed, Hq.
Qed.

(** Neither export path reads the overlay's projects: the payload for the
    template and the paragraphs of the plain document are the same whatever
    the overlay holds there, so a rewritten project never reaches an
    exported file through the overlay. *)
Theorem export_ignores_overlay_projects :
  forall (toUpperCase : jsstring -> jsstring) (parsed : ParsedResume.t)
         (optimized : OptimizedSections.t)
         (projects : option (list OptimizedSections.projectEntry)),
    let optimized' :=
      OptimizedSections.mk
        (OptimizedSections.experience optimized) (OptimizedSections.education optimized)
        projects
        (OptimizedSections.skills optimized) (OptimizedSections.contact optimized) in
    buildTemplatePayload parsed (Some optimized')
    = buildTemplatePayload parsed (Some optimized)
    /\ Docx.buildResumeDocx toUpperCase parsed (Some optimized')
       = Docx.buildResumeDocx toUpperCase parsed (Some optimized).
Proof. intros toUpperCase parsed [e ed p s c] projects. split; reflexivity. Qed.

(** The plain document shows the experience entries the optimize route
    stores: both complete the overlay's entries from the original in the
    same way. *)
Theorem exportExperience_is_merged_experience :
  forall (parsed : ParsedResume.t) (optimized : OptimizedSections.t),
    Docx.exportExperience parsed (Some optimized)
    = ParsedResume.experience (mergeOptimizedIntoResume parsed optimized).
Proof. intros parsed [e ed p s c]. reflexivity. Qed.

Lemma forUpTo_ext {S} (n : nat) (f g : S -> nat -> S) (s s' : S) :
  s = s' -> (forall s i, i < n -> f s i = g s i) ->
  forUpTo n f s = forUpTo n g s'.
Proof.
  intros <- H. unfold forUpTo.
  assert (Hseq : forall i, In i (seq 0 n) -> i < n)
    by (intros i Hi; apply in_seq in Hi; lia).
  revert s Hseq. generalize (seq 0 n) as l.
  induction l as [|i l IH]; intros s Hl; simpl; [reflexivity|].
  rewrite (H s i) by (apply Hl; now left).
  apply IH. intros j Hj. apply Hl. now right.
Qed.

Section StoredOverlay.
Variable parsed : ParsedResume.t.
Variable optimized : OptimizedSections.t.

Lemma at_nil {A} (i : nat) : at_ (@nil A) i = None.
Proof. now destruct i. Qed.

Lemma stored_contact :
  opt (Some (asOverlay (mergeOptimizedIntoResume parsed optimized)))
    OptimizedSections.contact ?: ParsedResume.contact parsed
  = opt (Some optimized) OptimizedSections.contact ?: ParsedResume.contact parsed.
Proof. destruct optimized as [e ed p s c]. reflexivity. Qed.

Lemma stored_skills :
  OptimizedSections.skills optimized <> Some [] ->
  opt (Some (asOverlay (mergeOptimizedIntoResume parsed optimized)))
    OptimizedSections.skills ?: ParsedResume.skills parsed
  = opt (Some optimized) OptimizedSections.skills ?: ParsedResume.skills parsed.
Proof.
  destruct optimized as [e ed p [[|s ss]|] c]; simpl; intros H;
    try reflexivity. congruence.
Qed.

Lemma stored_educationSlot (i : nat) :
  educationSlot parsed (Some (asOverlay (mergeOptimizedIntoResume parsed optimized))) i
  = educationSlot parsed (Some optimized) i.
Proof.
  unfold educationSlot.
  destruct optimized as [e [[|x xs]|] p s c]; simpl; try reflexivity.
  rewrite at_nil. now destruct (at_ (ParsedResume.education parsed) i).
Qed.

(** The entry the stored overlay has at index [i]. *)
Lemma stored_overlaySlot (i : nat) :
  overlaySlot parsed (Some (asOverlay (mergeOptimizedIntoResume parsed optimized))) i
  = match OptimizedSections.experience optimized with
    | Some (e :: es) =>
        option_map
          (fun e =>
             OptimizedSections.mkExperience
               (OptimizedSections.company e) (OptimizedSections.role e)
               (OptimizedSections.subheader e
                ?? opt (at_ (ParsedResume.experience parsed) i) ExperienceEntry.subheader)
               (Some (OptimizedSections.bullets e ?: [])))
          (at_ (e :: es) i)
    | _ => option_map asOverlayEntry (at_ (ParsedResume.experience parsed) i)
    end.
Proof.
  unfold overlaySlot.
  change (opt (Some (asOverlay (mergeOptimizedIntoResume parsed optimized)))
            OptimizedSections.experience
          ?: map asOverlayEntry (ParsedResume.experience parsed))
    with (map asOverlayEntry
            (ParsedResume.experience (mergeOptimizedIntoResume parsed optimized))).
  assert (Hmap : forall xs : list ExperienceEntry.t,
             at_ (map asOverlayEntry xs) i = option_map asOverlayEntry (at_ xs i))
    by (intros xs; unfold at_; now rewrite nth_error_map).
  rewrite Hmap.
  destruct (OptimizedSections.experience optimized) as [[|e es]|] eqn:E.
  - unfold mergeOptimizedIntoResume. now rewrite E.
  - destruct (at_ (e :: es) i) as [x|] eqn:Ex.
    + now rewrite (merge_experience_nth parsed optimized (e :: es) i x E Ex).
    + assert (Hnone : at_ (ParsedResume.experience
                             (mergeOptimizedIntoResume parsed optimized)) i = None).
      { apply at_None.
        rewrite (merge_experience_length parsed optimized (e :: es) E)
          by (simpl; lia).
        now apply at_None. }
      now rewrite Hnone.
  - unfold mergeOptimizedIntoResume. now rewrite E.
Qed.

End StoredOverlay.

Lemma nullish_assoc {A} (a b c : option A) : (a ?? b) ?? c = a ?? (b ?? c).
Proof. now destruct a. Qed.

(** The experience values of the payload built from the stored overlay. *)
Lemma stored_experience_fields (parsed : ParsedResume.t)
  (optimized : OptimizedSections.t) (i : nat) :
  let stored := Some (asOverlay (mergeOptimizedIntoResume parsed optimized)) in
  let orig := at_ (ParsedResume.experience parsed) i in
  opt (overlaySlot parsed stored i) OptimizedSections.company
  ?? opt orig ExperienceEntry.company
  = opt (overlaySlot parsed (Some optimized) i) OptimizedSections.company
    ?? opt orig ExperienceEntry.company
  /\ opt (overlaySlot parsed stored i) OptimizedSections.role
     ?? opt orig ExperienceEntry.role
     = opt (overlaySlot parsed (Some optimized) i) OptimizedSections.role
       ?? opt orig ExperienceEntry.role
  /\ opt (overlaySlot parsed stored i) OptimizedSections.subheader
     ?? opt orig ExperienceEntry.subheader
     = opt (overlaySlot parsed (Some optimized) i) OptimizedSections.subheader
       ?? opt orig ExperienceEntry.subheader
  /\ ((forall es e, OptimizedSections.experience optimized = Some es ->
                    at_ es i = Some e -> OptimizedSections.bullets e <> None) ->
      opt (overlaySlot parsed stored i) OptimizedSections.bullets
      ?? option_map ExperienceEntry.bullets orig
      = opt (overlaySlot parsed (Some optimized) i) OptimizedSections.bullets
        ?? option_map ExperienceEntry.bullets orig).
Proof.
  intros stored orig. unfold stored. rewrite stored_overlaySlot.
  unfold overlaySlot. cbn [opt]. fold orig.
  destruct (OptimizedSections.experience optimized) as [[|e es]|] eqn:E;
    cbn [orDefault].
  - rewrite at_nil. destruct orig as [t|]; cbn [option_map opt]; [|repeat split].
    destruct t as [c r l d s b]; cbn. repeat split.
    + now destruct c.
    + now destruct r.
    + now destruct s.
  - destruct (at_ (e :: es) i) as [x|] eqn:Ex; [|repeat split].
    cbn [option_map opt OptimizedSections.company OptimizedSections.role
         OptimizedSections.subheader OptimizedSections.bullets].
    repeat split.
    + rewrite nullish_assoc. f_equal. now destruct (opt orig ExperienceEntry.subheader).
    + intros H. specialize (H (e :: es) x eq_refl Ex).
      now destruct (OptimizedSections.bullets x).
  - unfold at_. rewrite nth_error_map. fold (at_ (ParsedResume.experience parsed) i).
    fold orig. repeat split.
Qed.

(** Export after optimize, through the template.  The optimize route stores
    the merged resume and the export route passes it on as the overlay.  The
    payload built from that stored overlay is the payload the overlay itself
    would have given, as long as the overlay has no skills list that is
    present and empty and each of its experience entries has its bullets:
    the fields the merge left without a fallback (company, role) get their
    fallback to the original when the payload is built. *)
Theorem payload_of_stored_overlay :
  forall (parsed : ParsedResume.t) (optimized : OptimizedSections.t),
    OptimizedSections.skills optimized <> Some [] ->
    (forall es e, OptimizedSections.experience optimized = Some es ->
                  In e es -> OptimizedSections.bullets e <> None) ->
    buildTemplatePayload parsed
      (Some (asOverlay (mergeOptimizedIntoResume parsed optimized)))
    = buildTemplatePayload parsed (Some optimized).
Proof.
  intros parsed optimized Hskills Hbullets.
  unfold buildTemplatePayload. cbv zeta.
  apply forUpTo_ext; [|reflexivity].
  apply forUpTo_ext; [apply forUpTo_ext|].
  - now rewrite stored_contact, (stored_skills parsed optimized Hskills).
  - intros payload i _.
    pose proof (stored_educationSlot parsed optimized i) as H.
    unfold educationSlot in H. now rewrite H.
  - intros payload i _.
    destruct (stored_experience_fields parsed optimized i) as (Hc & Hr & Hs & Hb).
    unfold overlaySlot in Hc, Hr, Hs, Hb.
    rewrite Hc, Hr, Hs, Hb; [reflexivity|].
    intros es e Hes He. apply (Hbullets es e Hes).
    now apply nth_error_In in He.
Qed.

(** An overlay that rewrites the first job without naming company or role:
    the stored resume has lost the company, the payload built from it has
    it back. *)
Lemma payload_of_stored_overlay_witness :
  ExperienceEntry.company
    (nth 0 (ParsedResume.experience
              (mergeOptimizedIntoResume Sample.resume Sample.overlayOneJob))
         Sample.initech)
  = None
  /\ Obj.get
       (buildTemplatePayload Sample.resume
          (Some (asOverlay (mergeOptimizedIntoResume Sample.resume Sample.overlayOneJob))))
       (str "experience.0.company")
     = Some (str "Acme Corp")
  /\ buildTemplatePayload Sample.resume
       (Some (asOverlay (mergeOptimizedIntoResume Sample.resume Sample.overlayOneJob)))
     = buildTemplatePayload Sample.resume (Some Sample.overlayOneJob).
Proof.
  split; [reflexivity|]. split; [reflexivity|].
  apply (payload_of_stored_overlay Sample.resume Sample.overlayOneJob).
  - discriminate.
  - intros es e [= <-] [<- | []]. discriminate.
Defined.

Lemma nullish_self {A} (a : option A) : a ?? a = a.
Proof. now destruct a. Qed.

(** Read back through the overlay's properties, the stored resume gives the
    experience entries it holds. *)
Lemma exportExperience_stored (parsed : ParsedResume.t)
  (optimized : OptimizedSections.t) :
  Docx.exportExperience parsed
    (Some (asOverlay (mergeOptimizedIntoResume parsed optimized)))
  = ParsedResume.experience (mergeOptimizedIntoResume parsed optimized).
Proof.
  unfold Docx.exportExperience.
  change (opt (Some (asOverlay (mergeOptimizedIntoResume parsed optimized)))
            OptimizedSections.experience)
    with (Some (map asOverlayEntry
                  (ParsedResume.experience
                     (mergeOptimizedIntoResume parsed optimized)))).
  cbn [orDefault].
  destruct (hasLength
              (Some (map asOverlayEntry
                       (ParsedResume.experience
                          (mergeOptimizedIntoResume parsed optimized))))) eqn:Hl.
  2:{ destruct (ParsedResume.experience (mergeOptimizedIntoResume parsed optimized))
        as [|m ms] eqn:Em; [|discriminate Hl].
      unfold mergeOptimizedIntoResume in Em. cbn [ParsedResume.experience] in Em.
      destruct (OptimizedSections.experience optimized) as [[|e es]|];
        cbn [hasLength] in Em; try assumption.
      discriminate Em. }
  - clear Hl. apply nth_error_ext. intros i.
    change (nth_error (map ?f (indexed ?xs)) i) with (at_ (map f (indexed xs)) i).
    rewrite at_map_indexed. unfold at_ at 1. rewrite nth_error_map.
    destruct (nth_error (ParsedResume.experience
                           (mergeOptimizedIntoResume parsed optimized)) i)
      as [x|] eqn:Ex; [|reflexivity].
    cbn [option_map]. f_equal.
    destruct (OptimizedSections.experience optimized) as [[|e es]|] eqn:E.
    + unfold mergeOptimizedIntoResume in Ex. rewrite E in Ex.
      cbn [hasLength ParsedResume.experience] in Ex.
      unfold at_. rewrite Ex. destruct x as [c r l d s b]. cbn.
      now rewrite nullish_self.
    + destruct (at_ (e :: es) i) as [y|] eqn:Ey.
      * pose proof (merge_experience_nth parsed optimized (e :: es) i y E Ey) as H.
        unfold at_ in H at 1. rewrite Ex in H. injection H as ->. cbn.
        now rewrite nullish_assoc, nullish_self.
      * apply at_None in Ey.
        rewrite <- (merge_experience_length parsed optimized (e :: es) E) in Ey
          by (simpl; lia).
        apply nth_error_None in Ey. congruence.
    + unfold mergeOptimizedIntoResume in Ex. rewrite E in Ex.
      cbn [hasLength ParsedResume.experience] in Ex.
      unfold at_. rewrite Ex. destruct x as [c r l d s b]. cbn.
      now rewrite nullish_self.
Qed.

(** Export after optimize, through the plain document.  Built from the
    stored overlay, the document is the one the overlay itself would have
    given, as long as the overlay has no education or skills list that is
    present and empty. *)
Theorem document_of_stored_overlay :
  forall (toUpperCase : jsstring -> jsstring)
         (parsed : ParsedResume.t) (optimized : OptimizedSections.t),
    OptimizedSections.education optimized <> Some [] ->
    OptimizedSections.skills optimized <> Some [] ->
    Docx.buildResumeDocx toUpperCase parsed
      (Some (asOverlay (mergeOptimizedIntoResume parsed optimized)))
    = Docx.buildResumeDocx toUpperCase parsed (Some optimized).
Proof.
  intros toUpperCase parsed optimized Hedu Hskills.
  unfold Docx.buildResumeDocx. cbv zeta.
  rewrite exportExperience_stored.
  replace (Docx.exportExperience parsed (Some optimized))
    with (ParsedResume.experience (mergeOptimizedIntoResume parsed optimized))
    by (now destruct optimized).
  rewrite stored_contact, (stored_skills parsed optimized Hskills).
  replace (opt (Some (asOverlay (mergeOptimizedIntoResume parsed optimized)))
             OptimizedSections.education ?: ParsedResume.education parsed)
    with (opt (Some optimized) OptimizedSections.education
          ?: ParsedResume.education parsed); [reflexivity|].
  destruct optimized as [e [[|x xs]|] p s c]; try reflexivity.
  now contradiction Hedu.
Qed.

Lemma document_of_stored_overlay_witness :
  Docx.buildResumeDocx (map Chars.toUpper) Sample.resume
    (Some (asOverlay (mergeOptimizedIntoResume Sample.resume Sample.overlayOneJob)))
  = Docx.buildResumeDocx (map Chars.toUpper) Sample.resume (Some Sample.overlayOneJob).
Proof.
  apply (document_of_stored_overlay (map Chars.toUpper) Sample.resume
           Sample.overlayOneJob);
    discriminate.
Defined.

(* ------------------------------------------------------------------ *)
(** ** Substrings *)
(* ------------------------------------------------------------------ *)

Lemma includes_app (a p b : jsstring) : JS.includes (a ++ p ++ b) p = true.
Proof. apply includes_true, indexOf_app_found. Qed.

Lemma includes_inv (s p : jsstring) :
  JS.includes s p = true -> exists a b, s = a ++ p ++ b.
Proof.
  intros H. apply includes_true in H as [i H]. apply indexOf_Some in H.
  eexists. eexists. symmetry. exact H.
Qed.

Lemma includes_trans (s t p : jsstring) :
  JS.includes s t = true -> JS.includes t p = true -> JS.includes s p = true.
Proof.
  intros H1 H2. apply includes_inv in H1 as (a & b & ->).
  apply includes_inv in H2 as (c & d & ->).
  replace (a ++ (c ++ p ++ d) ++ b) with ((a ++ c) ++ p ++ (d ++ b))
    by (now rewrite <- !app_assoc).
  apply includes_app.
Qed.

Lemma includes_refl (s : jsstring) : JS.includes s s = true.
Proof.
  replace s with ([] ++ s ++ []) at 1 by (simpl; apply app_nil_r).
  apply includes_app.
Qed.

Lemma join_In (sep p : jsstring) (parts : list jsstring) :
  In p parts -> JS.includes (JS.join sep parts) p = true.
Proof.
  induction parts as [|q parts IH]; [intros []|].
  intros [-> | H].
  - destruct parts as [|q' parts'].
    + apply includes_refl.
    + change (JS.join sep (p :: q' :: parts'))
        with ([] ++ p ++ (sep ++ JS.join sep (q' :: parts'))).
      apply includes_app.
  - destruct parts as [|q' parts']; [destruct H|].
    apply IH in H. apply includes_inv in H as (a & b & H).
    change (JS.join sep (q :: q' :: parts'))
      with (q ++ sep ++ JS.join sep (q' :: parts')).
    rewrite H.
    replace (q ++ sep ++ a ++ p ++ b) with ((q ++ sep ++ a) ++ p ++ b)
      by (now rewrite <- !app_assoc).
    apply includes_app.
Qed.

Lemma filterTruthy_In (p : jsstring) (parts : list (option jsstring)) :
  In (Some p) parts -> p <> [] -> In p (JS.filterTruthy parts).
Proof.
  induction parts as [|q parts IH]; [intros []|].
  intros [-> | H] Hp.
  - destruct p; [contradiction|]. now left.
  - destruct q as [[|c q]|]; simpl; auto.
Qed.

(** A part that is set occurs in the joined text. *)
Lemma joined_part (sep p : jsstring) (parts : list (option jsstring)) :
  In (Some p) parts -> JS.includes (JS.join sep (JS.filterTruthy parts)) p = true.
Proof.
  intros H. destruct p as [|c p].
  - unfold JS.includes. rewrite indexOf_unfold. reflexivity.
  - apply join_In, filterTruthy_In; [assumption | discriminate].
Qed.

(* ------------------------------------------------------------------ *)
(** ** The text the comparators search *)
(* ------------------------------------------------------------------ *)

(** The text the comparators search holds the name, the e-mail address,
    every skill, every company, role and bullet of the experience section,
    every project title and bullet, and for every education entry its raw
    text or, when it has none, its school and degree. *)
Theorem resumeText_holds_every_part :
  forall resume : ParsedResume.t,
    let text := resumeText resume in
    let holds := fun part => JS.includes text part = true in
    (forall name, Contact.name (ParsedResume.contact resume) = Some name -> holds name)
    /\ (forall email, Contact.email (ParsedResume.contact resume) = Some email ->
          holds email)
    /\ (forall skill, In skill (ParsedResume.skills resume) -> holds skill)
    /\ (forall e, In e (ParsedResume.experience resume) ->
          (forall company, ExperienceEntry.company e = Some company -> holds company)
          /\ (forall role, ExperienceEntry.role e = Some role -> holds role)
          /\ (forall bullet, In bullet (ExperienceEntry.bullets e) -> holds bullet))
    /\ (forall p, In p (ParsedResume.projects resume) ->
          (forall title, ProjectEntry.title p = Some title -> holds title)
          /\ (forall bullet, In bullet (ProjectEntry.bullets p) -> holds bullet))
    /\ (forall e, In e (ParsedResume.education resume) ->
          (forall raw, EducationEntry.rawText e = Some raw -> holds raw)
          /\ (EducationEntry.rawText e = None ->
              (forall school, EducationEntry.school e = Some school -> holds school)
              /\ (forall degree, EducationEntry.degree e = Some degree ->
                    holds degree))).
Proof.
  intros resume text holds. unfold holds, text, resumeText. cbv zeta.
  set (parts := _ ++ _ ++ _ ++ _).
  assert (Hpart : forall p, In (Some p) parts ->
            JS.includes (JS.join (str " ") (JS.filterTruthy parts)) p = true)
    by (intros p; apply joined_part).
  assert (Hexp : forall e x, In e (ParsedResume.experience resume) ->
            In x ([ExperienceEntry.company e; ExperienceEntry.role e]
                  ++ map Some (ExperienceEntry.bullets e)) -> In x parts).
  { intros e x He Hx. unfold parts. apply in_or_app. right.
    apply in_or_app. left. apply in_flat_map. now exists e. }
  assert (Hproj : forall p x, In p (ParsedResume.projects resume) ->
            In x (ProjectEntry.title p :: map Some (ProjectEntry.bullets p)) ->
            In x parts).
  { intros p x Hp Hx. unfold parts. apply in_or_app. right.
    apply in_or_app. right. apply in_or_app. left.
    apply in_flat_map. now exists p. }
  assert (Hedu : forall e, In e (ParsedResume.education resume) ->
            In (Some (EducationEntry.rawText e
                      ?: JS.join (str " ")
                           (JS.filterTruthy
                              [EducationEntry.school e; EducationEntry.degree e])))
               parts).
  { intros e He. unfold parts. apply in_or_app. right.
    apply in_or_app. right. apply in_or_app. right.
    apply in_map_iff. now exists e. }
  repeat split.
  - intros name H. apply Hpart. unfold parts. rewrite <- H. now left.
  - intros email H. apply Hpart. unfold parts. rewrite <- H. right. now left.
  - intros skill H.
    apply (includes_trans _ (JS.join (str " ") (ParsedResume.skills resume))).
    + apply Hpart. unfold parts. right. right. now left.
    + now apply join_In.
  - intros company Hc. apply Hpart, (Hexp e); [assumption|].
    rewrite <- Hc. now left.
  - intros role Hr. apply Hpart, (Hexp e); [assumption|].
    rewrite <- Hr. right. now left.
  - intros bullet Hb. apply Hpart, (Hexp e); [assumption|].
    right. right. now apply in_map.
  - intros title Ht. apply Hpart, (Hproj p); [assumption|].
    rewrite <- Ht. now left.
  - intros bullet Hb. apply Hpart, (Hproj p); [assumption|].
    right. now apply in_map.
  - intros raw Hr. apply Hpart. specialize (Hedu e H). now rewrite Hr in Hedu.
  - intros school Hs. specialize (Hedu e H). rewrite H0 in Hedu.
    cbn [orDefault] in Hedu.
    eapply includes_trans; [apply Hpart; exact Hedu|].
    apply joined_part. rewrite <- Hs. now left.
  - intros degree Hd. specialize (Hedu e H). rewrite H0 in Hedu.
    cbn [orDefault] in Hedu.
    eapply includes_trans; [apply Hpart; exact Hedu|].
    apply joined_part. rewrite <- Hd. right. now left.
Qed.

(* ------------------------------------------------------------------ *)
(** ** Escaping *)
(* ------------------------------------------------------------------ *)

Lemma replaceChar_chars (c : char) (rep s : jsstring) (q : char -> bool) :
  forallb q rep = true ->
  (forall x, In x s -> x <> c -> q x = true) ->
  forallb q (JS.replaceChar c rep s) = true.
Proof.
  intros Hrep. unfold JS.replaceChar.
  induction s as [|x s IH]; intros H; [reflexivity|].
  cbn [flat_map]. rewrite forallb_app, IH by (intros y Hy; apply H; now right).
  destruct (N.eqb_spec x c) as [->|Hne]; [now rewrite Hrep|].
  cbn [forallb]. rewrite (H x) by (now left || assumption). reflexivity.
Qed.

Lemma replaceChar_id (c : char) (rep s : jsstring) :
  ~ In c s -> JS.replaceChar c rep s = s.
Proof.
  unfold JS.replaceChar. induction s as [|x s IH]; intros H; [reflexivity|].
  cbn [flat_map]. rewrite IH by (intros Hin; apply H; now right).
  destruct (N.eqb_spec x c) as [->|Hne]; [|reflexivity].
  exfalso. apply H. now left.
Qed.

Lemma replaceChar_length (c : char) (rep s : jsstring) :
  1 <= length rep -> length s <= length (JS.replaceChar c rep s).
Proof.
  intros Hrep. unfold JS.replaceChar. induction s as [|x s IH]; [simpl; lia|].
  cbn [flat_map]. rewrite length_app. destruct (N.eqb x c); simpl; lia.
Qed.

Lemma replaceChar_app (c : char) (rep a b : jsstring) :
  JS.replaceChar c rep (a ++ b) = JS.replaceChar c rep a ++ JS.replaceChar c rep b.
Proof. apply flat_map_app. Qed.

(** Replacing [c] leaves none of the characters of [l] when the text had
    none and the replacement has none, and leaves no [c] either. *)
Lemma replaceChar_avoids (c : char) (rep s : jsstring) (l : list char) :
  forallb (fun x => negb (existsb (N.eqb x) (c :: l))) rep = true ->
  forallb (fun x => negb (existsb (N.eqb x) l)) s = true ->
  forallb (fun x => negb (existsb (N.eqb x) (c :: l))) (JS.replaceChar c rep s) = true.
Proof.
  intros Hrep Hs. apply replaceChar_chars; [assumption|].
  intros x Hx Hne. rewrite forallb_forall in Hs. specialize (Hs x Hx).
  cbn [existsb]. apply N.eqb_neq in Hne. now rewrite Hne.
Qed.

(** Escaped text holds no angle bracket and no quote.  It is the text
    itself when that holds none of the five special characters, it is never
    shorter than the text, and escaping goes through concatenation. *)
Theorem escapeXmlText_leaves_no_markup :
  forall s : jsstring,
    (forall c, In c (escapeXmlText s) ->
               c <> chr "<" /\ c <> chr ">" /\ c <> 34%N /\ c <> 39%N)
    /\ ((forall c, In c s ->
           c <> chr "&" /\ c <> chr "<" /\ c <> chr ">" /\ c <> 34%N /\ c <> 39%N) ->
        escapeXmlText s = s)
    /\ length s <= length (escapeXmlText s)
    /\ (forall t, escapeXmlText (s ++ t) = escapeXmlText s ++ escapeXmlText t).
Proof.
  intros s. unfold escapeXmlText. split; [|split; [|split]].
  - intros c Hc.
    assert (H : forallb (fun x => negb (existsb (N.eqb x) [39; 34; 62; 60]%N))
                  (JS.replaceChar 39 (str "&apos;")
                     (JS.replaceChar 34 (str "&quot;")
                        (JS.replaceChar 62 (str "&gt;")
                           (JS.replaceChar 60 (str "&lt;")
                              (JS.replaceChar 38 (str "&amp;") s))))) = true).
    { repeat (apply replaceChar_avoids; [reflexivity|]).
      apply forallb_forall. reflexivity. }
    rewrite forallb_forall in H. specialize (H c Hc).
    apply negb_true_iff in H. cbn [existsb] in H.
    rewrite !orb_false_iff, !N.eqb_neq in H.
    change (chr "<") with 60%N. change (chr ">") with 62%N. tauto.
  - intros H.
    assert (Hno : forall x, In x [38; 60; 62; 34; 39]%N -> ~ In x s).
    { intros x Hx Hin. specialize (H x Hin).
      change (chr "&") with 38%N in H. change (chr "<") with 60%N in H.
      change (chr ">") with 62%N in H.
      cbn [In] in Hx. intuition congruence. }
    rewrite (replaceChar_id 38%N), (replaceChar_id 60%N), (replaceChar_id 62%N),
      (replaceChar_id 34%N), (replaceChar_id 39%N); try reflexivity;
      apply Hno; cbn [In]; tauto.
  - repeat (etransitivity; [|apply replaceChar_length; simpl; lia]). lia.
  - intros t. now rewrite !replaceChar_app.
Qed.

Example escapeXmlText_example :
  escapeXmlText (str "R&D <lead>") = str "R&amp;D &lt;lead&gt;".
Proof. reflexivity. Qed.

(* ------------------------------------------------------------------ *)
(** ** The template generator and the filler *)
(* ------------------------------------------------------------------ *)

Lemma In_indexed {A} (xs : list A) (i : nat) (x : A) :
  In (i, x) (indexed xs) -> at_ xs i = Some x /\ i < length xs.
Proof.
  intros H. apply In_nth_error in H as [n Hn].
  assert (Hlt : n < length xs).
  { rewrite <- (indexed_length xs). apply nth_error_Some. congruence. }
  destruct (nth_error xs n) as [y|] eqn:Ey.
  - rewrite (indexed_nth xs n y Ey) in Hn. injection Hn as <- <-.
    split; [exact Ey | exact Hlt].
  - apply nth_error_None in Ey. lia.
Qed.

Lemma uint_digits (d : Decimal.uint) :
  forallb Chars.isDigit (str (NilEmpty.string_of_uint d)) = true.
Proof. induction d; simpl; try reflexivity; exact IHd. Qed.

Lemma String_of_nat_digits (i : nat) :
  forallb Chars.isDigit (String_of_nat i) = true.
Proof. apply uint_digits. Qed.

Lemma digits_braceFree (s : jsstring) :
  forallb Chars.isDigit s = true -> Template.braceFree s = true.
Proof.
  intros H. apply forallb_forall. intros c Hc.
  rewrite forallb_forall in H. specialize (H c Hc).
  unfold Chars.isDigit, Chars.inRange in H. apply andb_true_iff in H as [H1 H2].
  apply N.leb_le in H1, H2. unfold Template.isBrace.
  change (chr "{") with 123%N. change (chr "}") with 125%N.
  apply negb_true_iff, orb_false_iff. split; apply N.eqb_neq; unfold char in c; lia.
Qed.

Lemma key2_braceFree (section field : string) (i : nat) :
  Template.braceFree (str section) = true ->
  Template.braceFree (str field) = true ->
  Template.braceFree (key2 section i field) = true.
Proof.
  intros Hs Hf. unfold key2.
  rewrite !braceFree_app, Hs, Hf, (digits_braceFree _ (String_of_nat_digits i)).
  reflexivity.
Qed.

Lemma key3_braceFree (section field : string) (i j : nat) :
  Template.braceFree (str section) = true ->
  Template.braceFree (str field) = true ->
  Template.braceFree (key3 section i field j) = true.
Proof.
  intros Hs Hf. unfold key3.
  rewrite !braceFree_app, (key2_braceFree section field i Hs Hf),
    (digits_braceFree _ (String_of_nat_digits j)).
  reflexivity.
Qed.

Lemma pushIf_wellFormed (v : option jsstring) (key : jsstring) :
  Template.braceFree key = true ->
  Forall wellFormedReplacement (pushIf v (placeholderOf key)).
Proof.
  intros Hk. destruct v as [[|c s]|]; constructor; [|constructor].
  split; [discriminate | now exists key].
Qed.

Lemma Forall_flat_map_indexed {A} (P : Replacement -> Prop)
  (f : nat * A -> list Replacement) (xs : list A) :
  (forall i x, Forall P (f (i, x))) -> Forall P (flat_map f (indexed xs)).
Proof.
  intros H. apply Forall_flat_map. apply Forall_forall. intros [i x] _. apply H.
Qed.

Lemma buildReplacements_wellFormed (parsed : ParsedResume.t) :
  Forall wellFormedReplacement (buildReplacementsInDocumentOrder parsed).
Proof.
  unfold buildReplacementsInDocumentOrder. cbv zeta.
  repeat (apply Forall_app; split).
  - apply (pushIf_wellFormed _ (str "contact.name")). reflexivity.
  - apply (pushIf_wellFormed _ (str "contact.email")). reflexivity.
  - apply (pushIf_wellFormed _ (str "contact.phone")). reflexivity.
  - apply (pushIf_wellFormed _ (str "contact.location")). reflexivity.
  - apply (pushIf_wellFormed _ (str "contact.linkedin")). reflexivity.
  - apply Forall_flat_map_indexed. intros i e.
    repeat (apply Forall_app; split);
      apply pushIf_wellFormed, key2_braceFree; reflexivity.
  - apply Forall_flat_map_indexed. intros i e.
    repeat (apply Forall_app; split);
      try (apply pushIf_wellFormed, key2_braceFree; reflexivity).
    apply Forall_flat_map_indexed. intros j b.
    apply pushIf_wellFormed, key3_braceFree; reflexivity.
  - apply Forall_flat_map_indexed. intros i p.
    repeat (apply Forall_app; split);
      try (apply pushIf_wellFormed, key2_braceFree; reflexivity).
    apply Forall_flat_map_indexed. intros j b.
    apply pushIf_wellFormed, key3_braceFree; reflexivity.
  - apply (pushIf_wellFormed _ (str "skills")). reflexivity.
Qed.

(** Every replacement the generator builds puts a placeholder with a
    brace-free name in the place of a literal that is not empty, so the
    loop's test for an empty literal never holds: the generator replaces the
    first occurrence of each literal, one after the other. *)
Theorem replacements_are_well_formed :
  forall parsed : ParsedResume.t,
    Forall (fun r : Replacement =>
              fst r <> []
              /\ exists key, snd r = placeholderOf key
                             /\ Template.braceFree key = true)
      (buildReplacementsInDocumentOrder parsed)
    /\ forall docXml,
         generateTemplate parsed docXml
         = fold_left (fun docXml r => replaceFirst docXml (fst r) (snd r))
             (buildReplacementsInDocumentOrder parsed) docXml.
Proof.
  intros parsed.
  pose proof (buildReplacements_wellFormed parsed) as H.
  split; [exact H|].
  intros docXml. unfold generateTemplate, applyReplacements.
  revert docXml. induction H as [|[from to] l [Hfrom _] _ IH]; intros docXml;
    [reflexivity|].
  cbn [fold_left fst snd]. cbn [fst] in Hfrom.
  destruct from as [|c from]; [contradiction|]. cbn [nonEmpty]. apply IH.
Qed.

Lemma pushIf_In (v : option jsstring) (to from to' : jsstring) :
  In (from, to') (pushIf v to) -> v = Some from /\ to' = to /\ from <> [].
Proof.
  destruct v as [[|c s]|]; simpl; try tauto.
  intros [[= <- <-] | []]. repeat split. discriminate.
Qed.

Lemma at_self {A} (xs : list A) (i : nat) : at_ xs i ?? at_ xs i = at_ xs i.
Proof. now destruct (at_ xs i). Qed.

(** The generator and the filler agree on a resume that fits the template:
    every placeholder the generator writes is named by a key of the payload,
    and the payload built from the same resume holds under that key the
    literal the placeholder was written for. *)
Theorem payload_restores_replaced_literals :
  forall parsed : ParsedResume.t,
    length (ParsedResume.education parsed) <= MAX_EDUCATION ->
    length (ParsedResume.experience parsed) <= MAX_EXPERIENCE ->
    (forall e, In e (ParsedResume.experience parsed) ->
       length (ExperienceEntry.bullets e) <= MAX_EXPERIENCE_BULLETS) ->
    length (ParsedResume.projects parsed) <= MAX_PROJECTS ->
    (forall p, In p (ParsedResume.projects parsed) ->
       length (ProjectEntry.bullets p) <= MAX_PROJECT_BULLETS) ->
    forall from to,
      In (from, to) (buildReplacementsInDocumentOrder parsed) ->
      exists key,
        to = placeholderOf key
        /\ Obj.get (buildTemplatePayload parsed None) key = Some from.
Proof.
  intros parsed Hedu Hexp Hexpb Hproj Hprojb from to Hin.
  unfold buildReplacementsInDocumentOrder in Hin. cbv zeta in Hin.
  repeat (apply in_app_or in Hin as [Hin | Hin]).
  - apply pushIf_In in Hin as (Hv & -> & _). exists (str "contact.name").
    split; [reflexivity|]. cbn. now rewrite Hv.
  - apply pushIf_In in Hin as (Hv & -> & _). exists (str "contact.email").
    split; [reflexivity|]. cbn. now rewrite Hv.
  - apply pushIf_In in Hin as (Hv & -> & _). exists (str "contact.phone").
    split; [reflexivity|]. cbn. now rewrite Hv.
  - apply pushIf_In in Hin as (Hv & -> & _). exists (str "contact.location").
    split; [reflexivity|]. cbn. now rewrite Hv.
  - apply pushIf_In in Hin as (Hv & -> & _). exists (str "contact.linkedin").
    split; [reflexivity|]. cbn. now rewrite Hv.
  - apply in_flat_map in Hin as ([i e] & Hie & Hin).
    apply In_indexed in Hie as [Hat Hlt].
    assert (Hi : i < MAX_EDUCATION) by lia.
    destruct (payload_education parsed None i Hi) as (P1 & P2 & P3 & P4).
    unfold educationSlot in P1, P2, P3, P4. cbn [opt orDefault] in P1, P2, P3, P4.
    rewrite at_self, Hat in P1, P2, P3, P4. cbn [opt] in P1, P2, P3, P4.
    repeat (apply in_app_or in Hin as [Hin | Hin]);
      apply pushIf_In in Hin as (Hv & -> & _);
      (eexists; split; [reflexivity|]); rewrite Hv in *; assumption.
  - apply in_flat_map in Hin as ([i e] & Hie & Hin).
    apply In_indexed in Hie as [Hat Hlt].
    assert (Hi : i < MAX_EXPERIENCE) by lia.
    destruct (payload_experience parsed None i Hi) as (P1 & P2 & P3 & P4 & P5).
    assert (Hslot : overlaySlot parsed None i = Some (asOverlayEntry e)).
    { unfold overlaySlot, at_. cbn [opt orDefault]. rewrite nth_error_map.
      unfold at_ in Hat. now rewrite Hat. }
    rewrite Hslot, Hat in P1, P2, P5. rewrite Hat in P3, P4.
    cbn [opt asOverlayEntry OptimizedSections.company OptimizedSections.role
         OptimizedSections.subheader] in P1, P2, P3, P4, P5.
    repeat (apply in_app_or in Hin as [Hin | Hin]).
    1-5: apply pushIf_In in Hin as (Hv & -> & _);
         (eexists; split; [reflexivity|]); rewrite Hv in *; assumption.
    apply in_flat_map in Hin as ([j b] & Hjb & Hin).
    apply In_indexed in Hjb as [Hatb Hltb].
    apply pushIf_In in Hin as ([= <-] & -> & _).
    assert (Hj : j < MAX_EXPERIENCE_BULLETS).
    { apply nth_error_In in Hat. specialize (Hexpb e Hat). lia. }
    eexists; split; [reflexivity|].
    rewrite (payload_experience_bullet parsed None i j Hi Hj), Hslot, Hat.
    cbn [opt asOverlayEntry OptimizedSections.bullets nullish orDefault option_map].
    now rewrite Hatb.
  - apply in_flat_map in Hin as ([i p] & Hip & Hin).
    apply In_indexed in Hip as [Hat Hlt].
    assert (Hi : i < MAX_PROJECTS) by lia.
    apply in_app_or in Hin as [Hin | Hin].
    + apply pushIf_In in Hin as (Hv & -> & _).
      eexists; split; [reflexivity|].
      rewrite (payload_project parsed None i Hi), Hat. cbn [opt]. now rewrite Hv.
    + apply in_flat_map in Hin as ([j b] & Hjb & Hin).
      apply In_indexed in Hjb as [Hatb Hltb].
      apply pushIf_In in Hin as ([= <-] & -> & _).
      assert (Hj : j < MAX_PROJECT_BULLETS).
      { apply nth_error_In in Hat. specialize (Hprojb p Hat). lia. }
      eexists; split; [reflexivity|].
      rewrite (payload_project_bullet parsed None i j Hi Hj), Hat.
      cbn [option_map orDefault]. now rewrite Hatb.
  - apply pushIf_In in Hin as ([= <-] & -> & _). exists (str "skills").
    split; reflexivity.
Qed.

Lemma payload_restores_replaced_literals_witness :
  In (str "Acme Corp", str "{{experience.0.company}}")
    (buildReplacementsInDocumentOrder Sample.resume)
  /\ exists key,
       str "{{experience.0.company}}" = placeholderOf key
       /\ Obj.get (buildTemplatePayload Sample.resume None) key = Some (str "Acme Corp").
Proof.
  assert (Hin : In (str "Acme Corp", str "{{experience.0.company}}")
                  (buildReplacementsInDocumentOrder Sample.resume)).
  { vm_compute. tauto. }
  split; [exact Hin|].
  apply (payload_restores_replaced_literals Sample.resume).
  - vm_compute. lia.
  - vm_compute. lia.
  - intros e [<- | [<- | []]]; vm_compute; lia.
  - vm_compute. lia.
  - intros p [].
  - exact Hin.
Defined.

Lemma indexOf_leftmost (a p b : jsstring) (i : nat) :
  JS.indexOf (a ++ p ++ b) p = Some i -> i <= length a.
Proof.
  revert i. induction a as [|c a IH]; intros i; rewrite indexOf_unfold.
  - simpl. rewrite stripPrefix_app. intros [= <-]. lia.
  - destruct (JS.stripPrefix p ((c :: a) ++ p ++ b)); [intros [= <-]; lia|].
    simpl. destruct (JS.indexOf (a ++ p ++ b) p) as [j|] eqn:E; [|discriminate].
    intros [= <-]. specialize (IH j eq_refl). lia.
Qed.

Lemma indexOf_bound (s p : jsstring) (i : nat) :
  JS.indexOf s p = Some i -> i + length p <= length s.
Proof.
  revert i. induction s as [|c s IH]; intros i; rewrite indexOf_unfold.
  - destruct (JS.stripPrefix p []) as [rest|] eqn:E; [|discriminate].
    intros [= <-]. apply stripPrefix_Some in E.
    symmetry in E. apply app_eq_nil in E as [-> _]. simpl. lia.
  - destruct (JS.stripPrefix p (c :: s)) as [rest|] eqn:E.
    + intros [= <-]. apply stripPrefix_Some in E. rewrite E, length_app. lia.
    + destruct (JS.indexOf s p) as [j|]; [|discriminate].
      intros [= <-]. specialize (IH j eq_refl). simpl. lia.
Qed.

(** [replaceFirst] replaces the leftmost occurrence and nothing else.  A
    text without the literal comes back as it is.  Otherwise the text splits
    around an occurrence before which no other occurrence starts, and the
    result is the text with that occurrence replaced. *)
Theorem replaceFirst_replaces_leftmost :
  forall s from to : jsstring,
    (JS.includes s from = false -> replaceFirst s from to = s)
    /\ (JS.includes s from = true ->
        exists pre post,
          s = pre ++ from ++ post
          /\ replaceFirst s from to = pre ++ to ++ post
          /\ (forall a b, s = a ++ from ++ b -> length pre <= length a)
          /\ length (replaceFirst s from to) + length from = length s + length to).
Proof.
  intros s from to. split.
  - intros H. now apply replaceFirst_not_found, includes_false.
  - intros H. apply includes_true in H as [i Hi].
    pose proof (indexOf_Some s from i Hi) as Hs.
    unfold JS.sliceTo, JS.sliceFrom in Hs.
    exists (firstn i s), (skipn (i + length from) s).
    pose proof (indexOf_bound s from i Hi) as Hb.
    assert (Hlen : length (firstn i s) = i) by (apply firstn_length_le; lia).
    repeat split.
    + now symmetry.
    + unfold replaceFirst, JS.sliceTo, JS.sliceFrom. now rewrite Hi.
    + intros a b Hab. rewrite Hlen. rewrite Hab in Hi.
      now apply indexOf_leftmost in Hi.
    + unfold replaceFirst, JS.sliceTo, JS.sliceFrom. rewrite Hi.
      rewrite !length_app, Hlen, length_skipn. lia.
Qed.

(** When the structured patch leaves no opening double brace, the fallback
    pass of [populateTemplate] finds no placeholder and returns the patched
    text as it is. *)
Theorem populateTemplate_keeps_patched_text :
  forall (patchDocument : jsstring -> list (jsstring * jsstring) -> jsstring)
         (template : jsstring) (payload : Obj.t),
    let patched :=
      patchDocument template
        (map (fun kv => (fst kv, escapeXmlText (snd kv))) (Obj.entries payload)) in
    JS.includes patched (str "{{") = false ->
    populateTemplate patchDocument template payload = patched.
Proof.
  intros patchDocument template payload patched Hno.
  unfold populateTemplate. fold patched.
  assert (Hfill : forall kv, fillKey patched kv = patched).
  { intros [k v]. unfold fillKey.
    destruct (JS.includes patched (placeholderOf k)) eqn:E; [|reflexivity].
    apply includes_true in E as [i Hi]. apply indexOf_Some in Hi.
    assert (Hyes : JS.includes patched (str "{{") = true).
    { rewrite <- Hi. unfold placeholderOf. rewrite <- app_assoc.
      apply includes_true, indexOf_app_found. }
    congruence. }
  generalize (Obj.entries payload) as entries.
  induction entries as [|kv entries IH]; [reflexivity|].
  cbn [fold_left]. now rewrite Hfill.
Qed.

Lemma populateTemplate_keeps_patched_text_witness :
  populateTemplate Sample.patchNothing (str "<w:t>Ann Lee</w:t>")
    (buildTemplatePayload Sample.resume None)
  = str "<w:t>Ann Lee</w:t>".
Proof.
  apply (populateTemplate_keeps_patched_text Sample.patchNothing
           (str "<w:t>Ann Lee</w:t>") (buildTemplatePayload Sample.resume None)).
  reflexivity.
Defined.

(* ------------------------------------------------------------------ *)
(** ** Trimming and splitting into lines *)
(* ------------------------------------------------------------------ *)

Lemma trimStart_suffix (s : jsstring) : exists a, s = a ++ JS.trimStart s.
Proof.
  induction s as [|c s [a IH]]; [now exists []|]. simpl.
  destruct (Chars.isSpace c).
  - exists (c :: a). simpl. now f_equal.
  - now exists [].
Qed.

Lemma trimStart_fixed (s : jsstring) :
  match s with c :: _ => Chars.isSpace c = false | [] => True end ->
  JS.trimStart s = s.
Proof. destruct s as [|c s]; [reflexivity|]. simpl. now intros ->. Qed.

Lemma trimStart_idem (s : jsstring) : JS.trimStart (JS.trimStart s) = JS.trimStart s.
Proof.
  apply trimStart_fixed. destruct (JS.trimStart s) as [|c t] eqn:E; [exact I|].
  now apply trimStart_head in E.
Qed.

Lemma trimEnd_prefix (s : jsstring) : exists b, s = JS.trimEnd s ++ b.
Proof.
  unfold JS.trimEnd. destruct (trimStart_suffix (rev s)) as [a Ha].
  exists (rev a). rewrite <- rev_app_distr, <- Ha. now rewrite rev_involutive.
Qed.

Lemma trimEnd_nil (s : jsstring) : JS.trimEnd s = [] <-> JS.blank s = true.
Proof.
  unfold JS.trimEnd. rewrite <- (blank_rev s), <- trimStart_nil. split.
  - intros H. apply (f_equal (@rev char)) in H. now rewrite rev_involutive in H.
  - now intros ->.
Qed.

(** Trimming a trimmed string changes nothing. *)
Lemma trim_idem (s : jsstring) : JS.trim (JS.trim s) = JS.trim s.
Proof.
  unfold JS.trim.
  assert (Hstart : JS.trimStart (JS.trimEnd (JS.trimStart s))
                   = JS.trimEnd (JS.trimStart s)).
  { apply trimStart_fixed.
    destruct (JS.trimEnd (JS.trimStart s)) as [|c t] eqn:E; [exact I|].
    destruct (trimEnd_prefix (JS.trimStart s)) as [b Hb]. rewrite E in Hb.
    now apply trimStart_head in Hb. }
  rewrite Hstart. unfold JS.trimEnd. now rewrite rev_involutive, trimStart_idem.
Qed.

Lemma trim_In (s : jsstring) (c : char) : In c (JS.trim s) -> In c s.
Proof.
  unfold JS.trim. intros H.
  destruct (trimEnd_prefix (JS.trimStart s)) as [b Hb].
  destruct (trimStart_suffix s) as [a Ha].
  rewrite Ha, Hb. apply in_or_app. right. apply in_or_app. now left.
Qed.

Lemma trim_blank (s : jsstring) : JS.blank s = true -> JS.trim s = [].
Proof. apply trim_nil. Qed.

(** The pieces of a split hold characters of the text only. *)
Lemma splitGo_In (fl : RegExp.flags) (r : RegExp.regex) :
  forall rest skip prev cur b c,
    In b (RegExp.splitGo fl r skip prev cur rest) -> In c b ->
    In c cur \/ In c rest.
Proof.
  induction rest as [|x rest IH]; intros skip prev cur b c Hb Hc.
  - simpl in Hb. destruct Hb as [<- | []]. left. now apply in_rev.
  - simpl in Hb. destruct skip as [|skip].
    + destruct (RegExp.matchAt fl r prev (x :: rest)) as [[[|n] cs]|].
      * destruct cur as [|y cur].
        -- destruct (IH _ _ _ _ _ Hb Hc) as [[<- | []] | H]; right; simpl; auto.
        -- destruct Hb as [<- | Hb]; [left; now apply in_rev|].
           destruct (IH _ _ _ _ _ Hb Hc) as [[<- | []] | H]; right; simpl; auto.
      * destruct Hb as [<- | Hb]; [left; now apply in_rev|].
        destruct (IH _ _ _ _ _ Hb Hc) as [[] | H]. right. now right.
      * destruct (IH _ _ _ _ _ Hb Hc) as [[<- | H] | H]; simpl; auto.
    + destruct (IH _ _ _ _ _ Hb Hc) as [H | H]; simpl; auto.
Qed.

Lemma split_In (fl : RegExp.flags) (r : RegExp.regex) (s b : jsstring) (c : char) :
  In b (RegExp.split fl r s) -> In c b -> In c s.
Proof.
  unfold RegExp.split. destruct s as [|x s].
  - destruct (RegExp.matchAt fl r [] []); [intros [] | intros [<- | []] []].
  - intros Hb Hc. destruct (splitGo_In fl r _ _ _ _ _ _ Hb Hc) as [[] | H].
    exact H.
Qed.

Lemma split_of_blank (fl : RegExp.flags) (r : RegExp.regex) (s b : jsstring) :
  JS.blank s = true -> In b (RegExp.split fl r s) -> JS.blank b = true.
Proof.
  intros Hs Hb. apply forallb_forall. intros c Hc.
  unfold JS.blank in Hs. rewrite forallb_forall in Hs.
  apply Hs. now apply (split_In fl r s b c).
Qed.

(** A separator that is one line feed. *)
Lemma LF_separator (fl : RegExp.flags) (prev rest : jsstring) (n : nat)
  (cs : list (nat * jsstring)) :
  RegExp.matchAt fl (RegExp.Chr Parser.LF) prev rest = Some (n, cs) ->
  JS.blank (firstn n rest) = true.
Proof.
  unfold RegExp.matchAt. cbn [RegExp.run]. unfold RegExp.one. cbn [RegExp.after].
  destruct rest as [|c rest]; [discriminate|].
  destruct (RegExp.charEq fl Parser.LF c) eqn:E; [|discriminate].
  apply charEq_LF in E. subst c.
  cbn [RegExp.after RegExp.step1]. intros H.
  assert (Hn : n = 1).
  { injection H as Hn _. rewrite <- Hn.
    destruct (length rest); [reflexivity | lia]. }
  now rewrite Hn.
Qed.

(** The lines the parser works on are not empty and carry no white space at
    either end; a text has none exactly when it is blank. *)
Lemma trimmedLines_spec (text : jsstring) :
  Forall (fun l => l <> [] /\ JS.trim l = l) (Parser.trimmedLines text)
  /\ (Parser.trimmedLines text = [] <-> JS.blank text = true).
Proof.
  unfold Parser.trimmedLines, JS.filterNonEmpty. split.
  - apply Forall_forall. intros l Hl. apply filter_In in Hl as [Hl Hne].
    apply in_map_iff in Hl as (b & <- & _). split.
    + intros E. rewrite E in Hne. discriminate.
    + apply trim_idem.
  - split.
    + intros H.
      apply (split_blank RegExp.noFlags (RegExp.Chr Parser.LF) text
               (LF_separator RegExp.noFlags)).
      intros b Hb. destruct (JS.blank b) eqn:E; [reflexivity|].
      assert (Hin : In (JS.trim b)
                      (filter nonEmpty
                         (map JS.trim
                            (RegExp.split RegExp.noFlags (RegExp.Chr Parser.LF) text)))).
      { apply filter_In. split; [now apply in_map|]. now rewrite nonEmpty_trim, E. }
      rewrite H in Hin. destruct Hin.
    + intros H.
      destruct (filter nonEmpty _) as [|l ls] eqn:E; [reflexivity|].
      assert (Hl : In l (l :: ls)) by now left. rewrite <- E in Hl.
      apply filter_In in Hl as [Hl Hne]. apply in_map_iff in Hl as (b & <- & Hb).
      apply (split_of_blank _ _ _ _ H) in Hb. apply trim_blank in Hb.
      rewrite Hb in Hne. discriminate.
Qed.

(* ------------------------------------------------------------------ *)
(** ** Bullets *)
(* ------------------------------------------------------------------ *)

Lemma bullets_fold (lines acc : list jsstring) :
  fold_left
    (fun bullets line =>
       let cleaned :=
         JS.trim (RegExp.replace RegExp.noFlags Parser.bulletStart (str "") line) in
       if nonEmpty cleaned then bullets ++ [cleaned] else bullets)
    lines acc
  = acc
    ++ filter nonEmpty
         (map (fun line =>
                 JS.trim (RegExp.replace RegExp.noFlags Parser.bulletStart (str "") line))
            lines).
Proof.
  revert acc. induction lines as [|l lines IH]; intros acc; simpl.
  - now rewrite app_nil_r.
  - rewrite IH. destruct (nonEmpty _); simpl; [now rewrite <- app_assoc | reflexivity].
Qed.

Lemma extractBullets_spec :
  forall text : jsstring,
    let bullets := Parser.extractBullets text in
    let lines := Parser.trimmedLines text in
    let cleaned :=
      filter nonEmpty
        (map (fun line =>
                JS.trim (RegExp.replace RegExp.noFlags Parser.bulletStart (str "") line))
           lines) in
    bullets = (if 0 <? length cleaned then cleaned else lines)
    /\ Forall (fun b => b <> [] /\ JS.trim b = b) bullets
    /\ length bullets <= length lines
    /\ (bullets = [] <-> JS.blank text = true).
Proof.
  intros text bullets lines cleaned.
  destruct (trimmedLines_spec text) as [Hlines Hblank]. fold lines in Hlines, Hblank.
  assert (Hb : bullets = if 0 <? length cleaned then cleaned else lines).
  { unfold bullets, Parser.extractBullets. cbv zeta. fold lines.
    rewrite bullets_fold. cbn [app]. fold cleaned.
    destruct (0 <? length cleaned); [reflexivity|].
    unfold JS.filterNonEmpty. apply forallb_filter_id.
    apply forallb_forall. intros l Hl.
    rewrite Forall_forall in Hlines. destruct (Hlines l Hl) as [Hne _].
    now destruct l. }
  assert (Hclean : Forall (fun b => b <> [] /\ JS.trim b = b) cleaned).
  { apply Forall_forall. intros b Hin. apply filter_In in Hin as [Hin Hne].
    apply in_map_iff in Hin as (l & <- & _). split.
    - intros E. rewrite E in Hne. discriminate.
    - apply trim_idem. }
  assert (Hlen : length cleaned <= length lines).
  { unfold cleaned. etransitivity; [apply filter_length_le|]. now rewrite length_map. }
  split; [exact Hb|]. rewrite Hb.
  destruct (0 <? length cleaned) eqn:E.
  - apply Nat.ltb_lt in E. repeat split; try assumption.
    + intros H. rewrite H in E. simpl in E. lia.
    + intros H. apply Hblank in H. rewrite H in Hlen. simpl in Hlen. lia.
  - repeat split; try assumption; try lia; apply Hblank.
Qed.

(** [extractBullets] gives one bullet for each line that keeps some text
    when its marker is taken off, in order; when no line keeps any, it gives
    the lines themselves.  No bullet is empty or carries white space at
    either end, there are never more bullets than lines with content, and
    there is none exactly when the text is blank. *)
Theorem extractBullets_never_empty_bullet :
  forall text : jsstring,
    let bullets := Parser.extractBullets text in
    let lines := Parser.trimmedLines text in
    let cleaned :=
      filter nonEmpty
        (map (fun line =>
                JS.trim (RegExp.replace RegExp.noFlags Parser.bulletStart (str "") line))
           lines) in
    bullets = (if 0 <? length cleaned then cleaned else lines)
    /\ Forall (fun b => b <> [] /\ JS.trim b = b) bullets
    /\ length bullets <= length lines
    /\ (bullets = [] <-> JS.blank text = true).
Proof. exact extractBullets_spec. Qed.

Example extractBullets_example :
  Parser.extractBullets (Sample.text ["- Built things"; ""; "2. Shipped"; "  plain "]%string)
  = [str "Built things"; str ". Shipped"; str "plain"]
  /\ Parser.extractBullets (Sample.text ["-"; " * "]%string) = [str "-"; str "*"].
Proof. split; vm_compute; reflexivity. Qed.

(** The characters of a text after a replacement come from the text or from
    the replacement. *)
Lemma replaceGo_In (fl : RegExp.flags) (r : RegExp.regex) (rep : jsstring) :
  forall rest skip prev c,
    In c (RegExp.replaceGo fl r rep skip prev rest) -> In c rep \/ In c rest.
Proof.
  induction rest as [|x rest IH]; intros skip prev c.
  - destruct skip; simpl; [|tauto].
    destruct (RegExp.matchAt fl r prev []) as [[n cs]|]; [|tauto].
    rewrite app_nil_r. tauto.
  - destruct skip as [|skip]; cbn [RegExp.replaceGo].
    + destruct (RegExp.matchAt fl r prev (x :: rest)) as [[[|n] cs]|].
      * intros H. apply in_app_or in H as [H | [<- | H]]; simpl; auto.
        apply IH in H. tauto.
      * intros H. apply in_app_or in H as [H | H]; auto.
        apply IH in H. simpl. tauto.
      * intros [<- | H]; simpl; auto. apply IH in H. tauto.
    + intros H. apply IH in H. simpl. tauto.
Qed.

Lemma replaceAll_blank (fl : RegExp.flags) (r : RegExp.regex) (rep s : jsstring) :
  JS.blank rep = true -> JS.blank s = true ->
  JS.blank (RegExp.replaceAll fl r rep s) = true.
Proof.
  unfold JS.blank. rewrite !forallb_forall. intros Hrep Hs c Hc.
  apply replaceGo_In in Hc as [Hc | Hc]; auto.
Qed.

Lemma replaceChar_blank (c : char) (rep s : jsstring) :
  JS.blank rep = true -> JS.blank s = true -> JS.blank (JS.replaceChar c rep s) = true.
Proof.
  unfold JS.blank, JS.replaceChar. rewrite !forallb_forall. intros Hrep Hs x Hx.
  apply in_flat_map in Hx as (y & Hy & Hx).
  destruct (N.eqb y c); [now apply Hrep|].
  destruct Hx as [<- | []]. now apply Hs.
Qed.

Lemma filter_content_of_blank (fl : RegExp.flags) (r : RegExp.regex) (s : jsstring) :
  JS.blank s = true ->
  filter (fun b => nonEmpty (JS.trim b)) (RegExp.split fl r s) = [].
Proof.
  intros Hs. destruct (filter _ _) as [|b bs] eqn:E; [reflexivity|].
  assert (Hb : In b (b :: bs)) by now left. rewrite <- E in Hb.
  apply filter_In in Hb as [Hb Hne].
  apply (split_of_blank fl r s b Hs) in Hb.
  rewrite nonEmpty_trim, Hb in Hne. discriminate.
Qed.

Lemma orUndefined_set (o : option jsstring) : orUndefined o <> Some [].
Proof. destruct o as [[|c s]|]; discriminate. Qed.

(* ------------------------------------------------------------------ *)
(** ** The experience extractor *)
(* ------------------------------------------------------------------ *)

Lemma experienceEntry_tidy (block : jsstring) (e : ExperienceEntry.t) :
  Parser.experienceEntry block = Some e -> tidyExperience e.
Proof.
  unfold Parser.experienceEntry.
  destruct (at_ (Parser.trimmedLines block) 0) as [firstLine|]; [|discriminate].
  destruct (_ || _ || _ || _); [discriminate|].
  cbv zeta.
  destruct (if JS.includes _ _ then _ else _) as [company location].
  intros [= <-]. unfold tidyExperience.
  cbn [ExperienceEntry.company ExperienceEntry.role ExperienceEntry.location
       ExperienceEntry.dates ExperienceEntry.subheader ExperienceEntry.bullets].
  repeat split; try apply orUndefined_set.
  - intros c Hc. destruct (length (company ?: str "") <? 50) eqn:E; [|discriminate].
    rewrite Hc in E. now apply Nat.ltb_lt in E.
  - destruct (0 <? length _); [|constructor].
    apply (extractBullets_spec
             (Parser.stripExperienceHeaderLines block firstLine)).
Qed.

Lemma experience_fold (blocks : list jsstring) (acc : list ExperienceEntry.t) :
  Forall tidyExperience acc ->
  Forall tidyExperience
    (fold_left
       (fun entries block =>
          match Parser.experienceEntry block with
          | Some e => entries ++ [e]
          | None => entries
          end)
       blocks acc).
Proof.
  revert acc. induction blocks as [|b blocks IH]; intros acc Hacc; [exact Hacc|].
  cbn [fold_left]. apply IH.
  destruct (Parser.experienceEntry b) as [e|] eqn:E; [|exact Hacc].
  apply Forall_app. split; [exact Hacc|]. constructor; [|constructor].
  now apply (experienceEntry_tidy b).
Qed.

Lemma parseExperienceBlock_spec (text : jsstring) :
  (Parser.parseExperienceBlock text = [] <-> JS.blank text = true)
  /\ Forall tidyExperience (Parser.parseExperienceBlock text).
Proof.
  unfold Parser.parseExperienceBlock. cbv zeta.
  set (normalized := JS.replaceChar Parser.CR [Parser.LF] _).
  set (jobBlocks := if _ <=? 1 then _ else _).
  set (entries := fold_left _ jobBlocks []).
  assert (Hentries : Forall tidyExperience entries)
    by (apply experience_fold; constructor).
  rewrite nonEmpty_trim. split.
  - destruct (JS.blank text) eqn:Eb.
    + rewrite andb_false_r. split; [reflexivity | intros _].
      assert (Hn : JS.blank normalized = true).
      { apply replaceChar_blank; [reflexivity|].
        apply replaceAll_blank; [reflexivity | exact Eb]. }
      assert (Hjob : jobBlocks = []).
      { unfold jobBlocks. rewrite !(filter_content_of_blank _ _ _ Hn). reflexivity. }
      unfold entries. now rewrite Hjob.
    + rewrite andb_true_r. destruct (length entries =? 0) eqn:El.
      * split; [|discriminate]. intros H. now apply app_eq_nil in H as [_ H].
      * split; [|discriminate]. intros H. rewrite H in El. discriminate.
  - destruct ((length entries =? 0) && negb (JS.blank text)) eqn:E; [|exact Hentries].
    apply Forall_app. split; [exact Hentries|]. constructor; [|constructor].
    unfold tidyExperience.
    cbn [ExperienceEntry.company ExperienceEntry.role ExperienceEntry.location
         ExperienceEntry.dates ExperienceEntry.subheader ExperienceEntry.bullets].
    repeat split; try discriminate.
    destruct (0 <? length (Parser.extractBullets text)).
    + apply (extractBullets_spec text).
    + constructor; [|constructor]. split; [|apply trim_idem].
      apply andb_true_iff in E as [_ E]. apply negb_true_iff in E.
      intros H. apply trim_nil in H. congruence.
Qed.

(** The experience extractor returns no entry exactly when the section text
    is blank.  In every entry it returns the company, if there is one, is
    shorter than 50 characters; role, location, dates and subheader are
    never the empty string; and no bullet is empty or carries white space at
    either end. *)
Theorem parseExperienceBlock_entries_are_tidy :
  forall text : jsstring,
    (Parser.parseExperienceBlock text = [] <-> JS.blank text = true)
    /\ Forall
         (fun e =>
            (forall company,
               ExperienceEntry.company e = Some company -> length company < 50)
            /\ ExperienceEntry.role e <> Some []
            /\ ExperienceEntry.location e <> Some []
            /\ ExperienceEntry.dates e <> Some []
            /\ ExperienceEntry.subheader e <> Some []
            /\ Forall (fun b => b <> [] /\ JS.trim b = b) (ExperienceEntry.bullets e))
         (Parser.parseExperienceBlock text).
Proof. exact parseExperienceBlock_spec. Qed.

(* ------------------------------------------------------------------ *)
(** ** The projects extractor *)
(* ------------------------------------------------------------------ *)

Lemma projects_fold (parts : list jsstring) (acc : list ProjectEntry.t) :
  fold_left (fun entries part => entries ++ [Parser.projectEntry part]) parts acc
  = acc ++ map Parser.projectEntry parts.
Proof.
  revert acc. induction parts as [|p parts IH]; intros acc; simpl.
  - now rewrite app_nil_r.
  - rewrite IH. now rewrite <- app_assoc.
Qed.

Lemma projectStart_separator (prev rest : jsstring) (n : nat)
  (cs : list (nat * jsstring)) :
  RegExp.matchAt RegExp.noFlags Parser.projectStart prev rest = Some (n, cs) ->
  JS.blank (firstn n rest) = true.
Proof.
  intros H. unfold Parser.projectStart in H.
  apply newline_lookahead_separator in H. now rewrite H.
Qed.

(** A text with content has a part with content. *)
Lemma parts_of_content (fl : RegExp.flags) (r : RegExp.regex) (text : jsstring) :
  (forall prev rest n cs,
      RegExp.matchAt fl r prev rest = Some (n, cs) -> JS.blank (firstn n rest) = true) ->
  JS.blank text = false ->
  filter (fun b => nonEmpty (JS.trim b)) (RegExp.split fl r text) <> [].
Proof.
  intros Hsep Htext Hnone.
  assert (Hb : JS.blank text = true); [|congruence].
  apply (split_blank fl r text Hsep). intros b Hb.
  destruct (JS.blank b) eqn:E; [reflexivity|].
  assert (Hin : In b (filter (fun b => nonEmpty (JS.trim b)) (RegExp.split fl r text))).
  { apply filter_In. split; [assumption|]. now rewrite nonEmpty_trim, E. }
  rewrite Hnone in Hin. destruct Hin.
Qed.

(** What the projects extractor returns. *)
Lemma parseProjectsBlock_spec :
  forall text : jsstring,
    Parser.parseProjectsBlock text
    = map Parser.projectEntry
        (filter (fun part => nonEmpty (JS.trim part))
           (RegExp.split RegExp.noFlags Parser.projectStart text))
    /\ (Parser.parseProjectsBlock text = [] <-> JS.blank text = true)
    /\ Forall
         (fun p =>
            ProjectEntry.title p <> Some []
            /\ Forall (fun b => b <> [] /\ JS.trim b = b) (ProjectEntry.bullets p))
         (Parser.parseProjectsBlock text).
Proof.
  intros text.
  assert (Hparse :
    Parser.parseProjectsBlock text
    = map Parser.projectEntry
        (filter (fun part => nonEmpty (JS.trim part))
           (RegExp.split RegExp.noFlags Parser.projectStart text))).
  { unfold Parser.parseProjectsBlock. cbv zeta. rewrite projects_fold. cbn [app].
    rewrite nonEmpty_trim. destruct (JS.blank text) eqn:Eb.
    - now rewrite andb_false_r.
    - pose proof (parts_of_content RegExp.noFlags Parser.projectStart text
                    projectStart_separator Eb) as Hne.
      destruct (filter _ _) as [|p ps]; [contradiction | reflexivity]. }
  rewrite Hparse. split; [reflexivity|]. split.
  - split.
    + intros H. apply map_eq_nil in H.
      destruct (JS.blank text) eqn:Eb; [reflexivity|].
      now apply (parts_of_content RegExp.noFlags Parser.projectStart text
                   projectStart_separator) in H.
    + intros H. now rewrite (filter_content_of_blank _ _ _ H).
  - apply Forall_forall. intros p Hp. apply in_map_iff in Hp as (part & <- & _).
    unfold Parser.projectEntry. cbv zeta.
    cbn [ProjectEntry.title ProjectEntry.bullets]. split.
    + apply orUndefined_set.
    + apply (extractBullets_spec (JS.sliceFrom _ part)).
Qed.

(** The projects extractor returns one entry for each part of the section
    text that has content, so the statement behind its loop never adds
    anything; it returns no entry exactly when the text is blank.  No title
    is the empty string, and no bullet is empty or carries white space at
    either end. *)
Theorem parseProjectsBlock_one_entry_per_part :
  forall text : jsstring,
    Parser.parseProjectsBlock text
    = map Parser.projectEntry
        (filter (fun part => nonEmpty (JS.trim part))
           (RegExp.split RegExp.noFlags Parser.projectStart text))
    /\ (Parser.parseProjectsBlock text = [] <-> JS.blank text = true)
    /\ Forall
         (fun p =>
            ProjectEntry.title p <> Some []
            /\ Forall (fun b => b <> [] /\ JS.trim b = b) (ProjectEntry.bullets p))
         (Parser.parseProjectsBlock text).
Proof. exact parseProjectsBlock_spec. Qed.

Example parseProjectsBlock_example :
  Parser.parseProjectsBlock
    (Sample.text ["Real-Time Trading | Go, Kafka"; "- Built x";
                  "AI Hedge Fund | Python"; "* LLM stuff"]%string)
  = [ProjectEntry.mk (Some (str "Real-Time Trading")) [str "Built x"];
     ProjectEntry.mk (Some (str "AI Hedge Fund")) [str "LLM stuff"]].
Proof. vm_compute. reflexivity. Qed.

(* ------------------------------------------------------------------ *)
(** ** Sections by header *)
(* ------------------------------------------------------------------ *)

Lemma header_not_empty (t : jsstring) :
  RegExp.test RegExp.flag_im Parser.SECTION_HEADER_REGEX t = true -> t <> [].
Proof. intros H ->. vm_compute in H. discriminate. Qed.

Lemma splitLine_fold (lines : list jsstring) (st : Parser.splitter) :
  let isHeader := RegExp.test RegExp.flag_im Parser.SECTION_HEADER_REGEX in
  let done := Parser.flushSection (fold_left Parser.splitLine lines st) in
  map Parser.title done
  = map Parser.title (Parser.flushSection st) ++ filter isHeader (map JS.trim lines)
  /\ (Forall (fun s => JS.trim (Parser.content s) = Parser.content s)
        (Parser.sections st) ->
      Forall (fun s => JS.trim (Parser.content s) = Parser.content s) done).
Proof.
  cbv zeta. revert st. induction lines as [|l lines IH]; intros st.
  - cbn [fold_left map filter]. rewrite app_nil_r. split; [reflexivity|].
    intros H. unfold Parser.flushSection. destruct (nonEmpty _); [|exact H].
    apply Forall_app. split; [exact H|]. constructor; [|constructor].
    apply trim_idem.
  - cbn [fold_left map filter]. destruct (IH (Parser.splitLine st l)) as [IHt IHc].
    rewrite IHt. clear IHt IH.
    assert (Hflush : Forall (fun s => JS.trim (Parser.content s) = Parser.content s)
                       (Parser.sections st) ->
                     Forall (fun s => JS.trim (Parser.content s) = Parser.content s)
                       (Parser.flushSection st)).
    { intros H. unfold Parser.flushSection. destruct (nonEmpty _); [|exact H].
      apply Forall_app. split; [exact H|]. constructor; [|constructor].
      apply trim_idem. }
    destruct (RegExp.test RegExp.flag_im Parser.SECTION_HEADER_REGEX (JS.trim l)) eqn:E.
    + assert (Hstep : Parser.splitLine st l
                      = Parser.mkSplitter (JS.trim l) [] (Parser.flushSection st))
        by (unfold Parser.splitLine; now rewrite E).
      rewrite Hstep in *. split.
      * unfold Parser.flushSection at 1.
        cbn [Parser.currentTitle Parser.sections Parser.currentContent].
        apply header_not_empty in E.
        destruct (JS.trim l) as [|c t] eqn:Et; [contradiction|].
        cbn [nonEmpty]. rewrite map_app. cbn [map Parser.title app].
        now rewrite <- app_assoc.
      * intros H. apply IHc. cbn [Parser.sections]. now apply Hflush.
    + assert (Hstep : Parser.splitLine st l
                      = Parser.mkSplitter (Parser.currentTitle st)
                          (Parser.currentContent st ++ [l]) (Parser.sections st))
        by (unfold Parser.splitLine; now rewrite E).
      rewrite Hstep in *. split.
      * f_equal. unfold Parser.flushSection.
        cbn [Parser.currentTitle Parser.sections Parser.currentContent].
        destruct (nonEmpty _); [|reflexivity].
        rewrite !map_app. reflexivity.
      * intros H. apply IHc. exact H.
Qed.

(** [splitBySectionHeaders] starts a section at every line that, trimmed, is
    one of the known headers, and nowhere else: the titles of the sections
    are those lines, trimmed, in order.  A text without such a line has no
    section, and the content of a section carries no white space at either
    end. *)
Theorem splitBySectionHeaders_one_section_per_header :
  forall fullText : jsstring,
    let isHeader := RegExp.test RegExp.flag_im Parser.SECTION_HEADER_REGEX in
    let lines := RegExp.split RegExp.noFlags (RegExp.Chr Parser.LF) fullText in
    map Parser.title (Parser.splitBySectionHeaders fullText)
    = filter isHeader (map JS.trim lines)
    /\ Forall (fun s => isHeader (Parser.title s) = true
                        /\ JS.trim (Parser.content s) = Parser.content s)
         (Parser.splitBySectionHeaders fullText).
Proof.
  intros fullText isHeader lines.
  destruct (splitLine_fold lines (Parser.mkSplitter (str "") [] [])) as [Ht Hc].
  change (map Parser.title (Parser.splitBySectionHeaders fullText)
          = filter isHeader (map JS.trim lines)) in Ht.
  change (Forall (fun s => JS.trim (Parser.content s) = Parser.content s) [] ->
          Forall (fun s => JS.trim (Parser.content s) = Parser.content s)
            (Parser.splitBySectionHeaders fullText)) in Hc.
  split; [exact Ht|].
  specialize (Hc (Forall_nil _)).
  apply Forall_forall. intros s Hs. split.
  - assert (Hin : In (Parser.title s) (filter isHeader (map JS.trim lines))).
    { rewrite <- Ht. now apply in_map. }
    now apply filter_In in Hin.
  - rewrite Forall_forall in Hc. now apply Hc.
Qed.

(** What stands above the first header is in no section. *)
Example splitBySectionHeaders_example :
  Parser.splitBySectionHeaders
    (Sample.text ["Ann Lee | Seattle"; "EDUCATION"; "Bellevue College"; "";
                  "Skills  "; "Go, Python"]%string)
  = [Parser.mkSection (str "EDUCATION") (str "Bellevue College");
     Parser.mkSection (str "Skills") (str "Go, Python")].
Proof. vm_compute. reflexivity. Qed.

(* ------------------------------------------------------------------ *)
(** ** The skills extractor *)
(* ------------------------------------------------------------------ *)

(** One or more of a character, where exactly one stands. *)
Lemma plus_char_single (a c : char) (prev rest : jsstring) :
  N.eqb a c = true ->
  RegExp.headIs (N.eqb a) rest = false ->
  RegExp.matchAt RegExp.noFlags (RegExp.Plus (RegExp.Chr a)) prev (c :: rest)
  = Some (1, []).
Proof.
  intros Hc Hrest. unfold RegExp.matchAt, RegExp.Plus. rewrite run_Rep.
  cbn [RegExp.exactLoop]. cbn [RegExp.run]. unfold RegExp.one at 1.
  cbn [RegExp.after RegExp.charEq RegExp.ignoreCase RegExp.noFlags]. rewrite Hc.
  cbn [RegExp.greedyLoop RegExp.step1 RegExp.after RegExp.spent option_map].
  cbn [RegExp.run]. unfold RegExp.one.
  cbn [RegExp.after RegExp.charEq RegExp.ignoreCase RegExp.noFlags].
  destruct rest as [|d rest].
  - reflexivity.
  - cbn [RegExp.headIs] in Hrest. cbn [RegExp.step1 RegExp.after]. rewrite Hrest.
    cbn [RegExp.after RegExp.caps]. now rewrite length_cons_sub.
Qed.

Lemma plus_char_none (a : char) (prev rest : jsstring) :
  RegExp.headIs (N.eqb a) rest = false ->
  RegExp.matchAt RegExp.noFlags (RegExp.Plus (RegExp.Chr a)) prev rest = None.
Proof.
  intros Hrest. unfold RegExp.matchAt, RegExp.Plus. rewrite run_Rep.
  cbn [RegExp.exactLoop]. cbn [RegExp.run]. unfold RegExp.one.
  cbn [RegExp.after RegExp.charEq RegExp.ignoreCase RegExp.noFlags].
  destruct rest as [|d rest]; [reflexivity|].
  cbn [RegExp.headIs] in Hrest. now rewrite Hrest.
Qed.

(** Collapsing runs of a character changes nothing where the character
    never stands twice in a row. *)
Lemma collapse_id (a : char) (s : jsstring) :
  (forall u v, s <> u ++ a :: a :: v) ->
  forall prev,
    RegExp.replaceGo RegExp.noFlags (RegExp.Plus (RegExp.Chr a)) [a] 0 prev s = s.
Proof.
  induction s as [|c s IH]; intros Hs prev.
  - cbn [RegExp.replaceGo]. now rewrite plus_char_none.
  - assert (Htail : forall u v, s <> u ++ a :: a :: v).
    { intros u v E. apply (Hs (c :: u) v). now rewrite E. }
    cbn [RegExp.replaceGo]. destruct (N.eqb a c) eqn:Ec.
    + rewrite plus_char_single; [|assumption|].
      * apply N.eqb_eq in Ec. subst c. cbn [app]. f_equal. now apply IH.
      * destruct s as [|d s]; [reflexivity|]. cbn [RegExp.headIs].
        destruct (N.eqb a d) eqn:Ed; [|reflexivity].
        apply N.eqb_eq in Ec, Ed. subst c d. exfalso. now apply (Hs [] s).
    + rewrite plus_char_none by (cbn [RegExp.headIs]; exact Ec).
      f_equal. now apply IH.
Qed.

(** Splitting at a one-character separator. *)
Lemma splitGo_piece (c0 : char) (p rest : jsstring) :
  ~ In c0 p ->
  forall fuel cur,
    length (p ++ c0 :: rest) <= fuel ->
    JS.splitGo fuel [c0] cur (p ++ c0 :: rest)
    = rev (rev p ++ cur) :: JS.splitGo (fuel - length p - 1) [c0] [] rest.
Proof.
  induction p as [|x p IH]; intros Hp fuel cur Hlen.
  - destruct fuel as [|fuel]; [simpl in Hlen; lia|].
    cbn [JS.splitGo app JS.stripPrefix]. rewrite N.eqb_refl.
    replace (S fuel - length (@nil char) - 1) with fuel by (simpl; lia).
    reflexivity.
  - destruct fuel as [|fuel]; [simpl in Hlen; lia|].
    cbn [JS.splitGo app JS.stripPrefix].
    destruct (N.eqb_spec c0 x) as [->|Hne]; [exfalso; apply Hp; now left|].
    rewrite IH by (try (intros H; apply Hp; now right); simpl in Hlen; lia).
    cbn [rev length]. rewrite <- app_assoc.
    replace (S fuel - S (length p) - 1) with (fuel - length p - 1) by lia.
    reflexivity.
Qed.

Lemma splitGo_last (c0 : char) (p : jsstring) :
  ~ In c0 p ->
  forall fuel cur, length p <= fuel -> JS.splitGo fuel [c0] cur p = [rev (rev p ++ cur)].
Proof.
  induction p as [|x p IH]; intros Hp fuel cur Hlen.
  - now destruct fuel.
  - destruct fuel as [|fuel]; [simpl in Hlen; lia|].
    cbn [JS.splitGo JS.stripPrefix].
    destruct (N.eqb_spec c0 x) as [->|Hne]; [exfalso; apply Hp; now left|].
    rewrite IH by (try (intros H; apply Hp; now right); simpl in Hlen; lia).
    cbn [rev]. now rewrite <- app_assoc.
Qed.

Lemma JS_splitGo_In (c0 : char) :
  forall fuel s cur b c,
    In b (JS.splitGo fuel [c0] cur s) -> In c b ->
    (In c cur \/ In c s) /\ (~ In c0 cur -> c <> c0).
Proof.
  induction fuel as [|fuel IH]; intros s cur b c Hb Hc.
  - destruct Hb as [<- | []]. apply in_rev in Hc. split; [now left|].
    intros Hno ->. contradiction.
  - destruct s as [|x s].
    + destruct Hb as [<- | []]. apply in_rev in Hc. split; [now left|].
      intros Hno ->. contradiction.
    + cbn [JS.splitGo JS.stripPrefix] in Hb.
      destruct (N.eqb_spec c0 x) as [->|Hne].
      * destruct Hb as [<- | Hb].
        -- apply in_rev in Hc. split; [now left|]. intros Hno ->. contradiction.
        -- destruct (IH _ _ _ _ Hb Hc) as [[[] | H] Hn].
           split; [right; now right|]. intros _. now apply Hn.
      * destruct (IH _ _ _ _ Hb Hc) as [[[<- | H] | H] Hn].
        -- split; [right; now left|]. intros _. congruence.
        -- split; [now left|]. intros Hno. apply Hn. intros [E | E]; [congruence|].
           contradiction.
        -- split; [right; now right|]. intros Hno. apply Hn.
           intros [E | E]; [congruence | contradiction].
Qed.

Lemma JS_split_In (c0 : char) (s b : jsstring) (c : char) :
  In b (JS.split [c0] s) -> In c b -> In c s /\ c <> c0.
Proof.
  intros Hb Hc. unfold JS.split in Hb.
  destruct (JS_splitGo_In c0 _ _ _ _ _ Hb Hc) as [[[] | H] Hn].
  split; [exact H|]. now apply Hn.
Qed.

(** What the skills extractor returns. *)
Lemma parseSkillsBlock_spec :
  forall text : jsstring,
    Forall (fun skill =>
              skill <> [] /\ JS.trim skill = skill
              /\ ~ In (chr ",") skill /\ ~ In Parser.LF skill)
      (Parser.parseSkillsBlock text).
Proof.
  intros text. apply Forall_forall. intros skill Hin.
  unfold Parser.parseSkillsBlock, JS.filterNonEmpty in Hin. cbv zeta in Hin.
  apply filter_In in Hin as [Hin Hne].
  apply in_map_iff in Hin as (piece & <- & Hpiece).
  split; [intros E; rewrite E in Hne; discriminate|].
  split; [apply trim_idem|].
  assert (Hchars : forall c, In c (JS.trim piece) -> c <> chr "," /\ c <> Parser.LF).
  { intros c Hc. apply trim_In in Hc.
    destruct (JS_split_In _ _ _ _ Hpiece Hc) as [Hn Hcomma].
    split; [exact Hcomma|].
    apply replaceGo_In in Hn as [[<- | []] | Hn]; [discriminate|].
    unfold JS.replaceChar in Hn. apply in_flat_map in Hn as (y & _ & Hy).
    destruct (N.eqb y Parser.LF) eqn:Ey.
    - destruct Hy as [<- | []]. discriminate.
    - destruct Hy as [<- | []]. now apply N.eqb_neq. }
  split; intros H; now destruct (Hchars _ H).
Qed.

(** No skill the extractor returns is empty, carries white space at either
    end, or holds a comma or a line feed: commas and line feeds separate
    skills and nothing else does. *)
Theorem parseSkillsBlock_skills_are_clean :
  forall text : jsstring,
    Forall (fun skill =>
              skill <> [] /\ JS.trim skill = skill
              /\ ~ In (chr ",") skill /\ ~ In Parser.LF skill)
      (Parser.parseSkillsBlock text).
Proof. exact parseSkillsBlock_spec. Qed.

Lemma collapse_skip (a : char) (p rest prev : jsstring) :
  ~ In a p ->
  RegExp.replaceGo RegExp.noFlags (RegExp.Plus (RegExp.Chr a)) [a] 0 prev (p ++ rest)
  = p ++ RegExp.replaceGo RegExp.noFlags (RegExp.Plus (RegExp.Chr a)) [a] 0
           (rev p ++ prev) rest.
Proof.
  revert prev. induction p as [|x p IH]; intros prev Hp; [reflexivity|].
  cbn [app RegExp.replaceGo].
  rewrite plus_char_none.
  - f_equal. rewrite IH by (intros H; apply Hp; now right).
    cbn [rev]. now rewrite <- app_assoc.
  - cbn [RegExp.headIs]. apply N.eqb_neq. intros ->. apply Hp. now left.
Qed.

Lemma collapse_one (a d : char) (rest prev : jsstring) :
  a <> d ->
  RegExp.replaceGo RegExp.noFlags (RegExp.Plus (RegExp.Chr a)) [a] 0 prev
    (a :: d :: rest)
  = a :: RegExp.replaceGo RegExp.noFlags (RegExp.Plus (RegExp.Chr a)) [a] 0
           (a :: prev) (d :: rest).
Proof.
  intros Hd. cbn [RegExp.replaceGo].
  rewrite plus_char_single; [reflexivity | apply N.eqb_refl |].
  cbn [RegExp.headIs]. now apply N.eqb_neq.
Qed.

Lemma collapse_joined (skills : list jsstring) :
  (forall s, In s skills -> ~ In (chr ",") s) ->
  forall prev,
    RegExp.replaceGo RegExp.noFlags (RegExp.Plus (RegExp.Chr (chr ","))) (str ",") 0
      prev (JS.join (str ", ") skills)
    = JS.join (str ", ") skills.
Proof.
  induction skills as [|s skills IH]; intros Hs prev.
  - cbn [JS.join RegExp.replaceGo]. now rewrite plus_char_none.
  - destruct skills as [|s' skills'].
    + cbn [JS.join]. rewrite <- (app_nil_r s) at 1.
      change (str ",") with [chr ","].
      rewrite collapse_skip by (apply Hs; now left).
      cbn [RegExp.replaceGo]. rewrite plus_char_none by reflexivity.
      apply app_nil_r.
    + change (JS.join (str ", ") (s :: s' :: skills'))
        with (s ++ chr "," :: 32%N :: JS.join (str ", ") (s' :: skills')).
      change (str ",") with [chr ","] in *.
      rewrite collapse_skip by (apply Hs; now left).
      rewrite collapse_one by discriminate.
      change (32%N :: JS.join (str ", ") (s' :: skills'))
        with ([32%N] ++ JS.join (str ", ") (s' :: skills')).
      rewrite collapse_skip by (intros [H | []]; discriminate H).
      rewrite IH by (intros x Hx; apply Hs; now right).
      reflexivity.
Qed.

Lemma join_without (c : char) (sep : jsstring) (parts : list jsstring) :
  ~ In c sep -> (forall p, In p parts -> ~ In c p) -> ~ In c (JS.join sep parts).
Proof.
  intros Hsep. induction parts as [|p parts IH]; intros Hp; [intros []|].
  destruct parts as [|q parts'].
  - apply Hp. now left.
  - change (JS.join sep (p :: q :: parts')) with (p ++ sep ++ JS.join sep (q :: parts')).
    intros H. apply in_app_or in H as [H | H]; [now apply (Hp p (or_introl eq_refl))|].
    apply in_app_or in H as [H | H]; [contradiction|].
    apply IH in H; [exact H|]. intros x Hx. apply Hp. now right.
Qed.

Lemma split_joined (ss : list jsstring) :
  forall (s pre : jsstring) (fuel : nat),
    ~ In (chr ",") pre ->
    (forall x, In x (s :: ss) -> ~ In (chr ",") x) ->
    length (pre ++ JS.join (str ", ") (s :: ss)) <= fuel ->
    JS.splitGo fuel (str ",") [] (pre ++ JS.join (str ", ") (s :: ss))
    = (pre ++ s) :: map (fun x => 32%N :: x) ss.
Proof.
  change (str ",") with [chr ","].
  induction ss as [|s' ss IH]; intros s pre fuel Hpre Hs Hlen.
  - cbn [JS.join map]. rewrite splitGo_last.
    + now rewrite app_nil_r, rev_involutive.
    + intros H. apply in_app_or in H as [H | H]; [contradiction|].
      now apply (Hs s (or_introl eq_refl)).
    + exact Hlen.
  - change (JS.join (str ", ") (s :: s' :: ss))
      with (s ++ chr "," :: ([32%N] ++ JS.join (str ", ") (s' :: ss))) in *.
    rewrite app_assoc in *. rewrite splitGo_piece.
    + rewrite app_nil_r, rev_involutive. f_equal.
      rewrite IH; [reflexivity | intros [H | []]; discriminate H | |].
      * intros x Hx. apply Hs. now right.
      * rewrite (length_app (pre ++ s)) in Hlen. cbn [length] in Hlen.
        unfold jsstring, char in *. lia.
    + intros H. apply in_app_or in H as [H | H]; [contradiction|].
      now apply (Hs s (or_introl eq_refl)).
    + exact Hlen.
Qed.

Lemma trim_after_space (s : jsstring) : JS.trim (32%N :: s) = JS.trim s.
Proof. reflexivity. Qed.

(** The skills line of an exported document reads back as the skills it was
    joined from: for skills that are not empty, carry no white space at
    either end and hold no comma or line feed, the extractor returns from
    their comma-separated line the list itself. *)
Theorem parseSkillsBlock_reads_back_joined_skills :
  forall skills : list jsstring,
    (forall skill, In skill skills ->
       skill <> [] /\ JS.trim skill = skill
       /\ ~ In (chr ",") skill /\ ~ In Parser.LF skill) ->
    Parser.parseSkillsBlock (JS.join (str ", ") skills) = skills.
Proof.
  intros skills Hclean. unfold Parser.parseSkillsBlock. cbv zeta.
  rewrite replaceChar_id.
  2:{ apply join_without; [intros [H | [H | []]]; discriminate H|].
      intros p Hp. now apply Hclean. }
  unfold RegExp.replaceAll.
  rewrite collapse_joined by (intros s Hs; now apply Hclean).
  destruct skills as [|s ss]; [reflexivity|].
  unfold JS.split. change (str ",") with [chr ","].
  pose proof (split_joined ss s [] (length (JS.join (str ", ") (s :: ss)))) as H.
  change (str ",") with [chr ","] in H. cbn [app] in H.
  rewrite H; [|intros [] | intros x Hx; now apply Hclean | lia].
  unfold JS.filterNonEmpty. cbn [map filter].
  assert (Hs : JS.trim s = s /\ s <> []) by (split; apply Hclean; now left).
  destruct Hs as [Hs Hne]. rewrite Hs.
  destruct s as [|c s']; [contradiction|]. cbn [nonEmpty]. f_equal.
  assert (Hrest : forall l, (forall x, In x l -> x <> [] /\ JS.trim x = x) ->
            filter nonEmpty (map JS.trim (map (fun x => 32%N :: x) l)) = l).
  { induction l as [|x l IH]; intros Hl; [reflexivity|].
    cbn [map filter]. rewrite trim_after_space.
    destruct (Hl x (or_introl eq_refl)) as [Hx Ht]. rewrite Ht.
    destruct x as [|y x']; [contradiction|]. cbn [nonEmpty]. f_equal.
    apply IH. intros z Hz. apply Hl. now right. }
  apply Hrest. intros x Hx. split; apply Hclean; now right.
Qed.

Lemma parseSkillsBlock_reads_back_joined_skills_witness :
  Parser.parseSkillsBlock (JS.join (str ", ") (ParsedResume.skills Sample.resume))
  = ParsedResume.skills Sample.resume.
Proof.
  apply (parseSkillsBlock_reads_back_joined_skills (ParsedResume.skills Sample.resume)).
  intros skill Hin. cbn in Hin.
  destruct Hin as [<- | [<- | [<- | [<- | []]]]];
    (split; [discriminate|]); (split; [reflexivity|]);
    split; cbn; intuition discriminate.
Defined.

Example parseSkillsBlock_example :
  Parser.parseSkillsBlock
    (Sample.text ["Go, Python,, React"; "AWS ,Docker"; ""; " , "]%string)
  = [str "Go"; str "Python"; str "React"; str "AWS"; str "Docker"].
Proof. vm_compute. reflexivity. Qed.

(** Inside the extractor the header stripper is called with the block's own
    first line, so it always drops that line, and drops the second line
    when that holds a bar and reads as a role or a list of skills. *)
Lemma stripExperienceHeaderLines_own_first_line (block firstLine : jsstring) :
  at_ (Parser.trimmedLines block) 0 = Some firstLine ->
  let lines := Parser.trimmedLines block in
  Parser.stripExperienceHeaderLines block firstLine = JS.join [Parser.LF] (skipn 1 lines)
  \/ (Parser.stripExperienceHeaderLines block firstLine
      = JS.join [Parser.LF] (skipn 2 lines)
      /\ exists second,
           at_ lines 1 = Some second /\ JS.includes second (str "|") = true).
Proof.
  intros Hfirst lines. unfold Parser.stripExperienceHeaderLines. cbv zeta.
  fold lines. fold lines in Hfirst.
  assert (Htrim : JS.trim firstLine = firstLine).
  { destruct (trimmedLines_spec block) as [H _]. rewrite Forall_forall in H.
    apply nth_error_In in Hfirst. now apply H. }
  destruct (length lines =? 0) eqn:El.
  - apply Nat.eqb_eq in El. destruct lines; [discriminate Hfirst | discriminate El].
  - rewrite Hfirst, Htrim, str_eqb_refl.
    destruct (at_ lines 1) as [second|] eqn:E1; [|now left].
    destruct ((1 <? length lines) && JS.includes second (str "|")) eqn:Ebar;
      [|now left].
    destruct (_ || _); [|now left].
    right. split; [reflexivity|]. exists second. split; [reflexivity|].
    now apply andb_true_iff in Ebar.
Qed.

(* ------------------------------------------------------------------ *)
(** ** Tokens *)
(* ------------------------------------------------------------------ *)

(** A greedy run of single characters, followed by nothing, always ends
    and never moves backwards. *)
Lemma greedy_one_total (p : char -> bool) (fuel : nat) :
  forall max x,
    exists z,
      RegExp.greedyLoop (RegExp.one p) Some fuel max x = Some z
      /\ length (RegExp.after z) <= length (RegExp.after x).
Proof.
  induction fuel as [|fuel IH]; intros max x.
  - exists x. split; [reflexivity | lia].
  - cbn [RegExp.greedyLoop]. destruct (RegExp.spent max); [exists x; split; [reflexivity | lia]|].
    unfold RegExp.one at 1.
    destruct (RegExp.after x) as [|d rest] eqn:Ea;
      [exists x; split; [reflexivity | rewrite Ea; lia]|].
    destruct (p d); [|exists x; split; [reflexivity | rewrite Ea; lia]].
    cbn [RegExp.step1 RegExp.after].
    rewrite (proj2 (Nat.ltb_lt (length rest) (length (d :: rest)))) by (simpl; lia).
    destruct (IH (RegExp.lessOne max) (RegExp.step1 x d rest)) as (z & Hz & Hlen).
    rewrite Hz. exists z. split; [reflexivity|].
    cbn [RegExp.after RegExp.step1] in Hlen. simpl. lia.
Qed.

(** One or more of a class matches, with at least one character, wherever a
    character of the class stands. *)
Lemma plus_class_progress (fl : RegExp.flags) (items : list RegExp.citem)
  (prev rest : jsstring) (c : char) :
  RegExp.inClass fl items c = true ->
  exists n cs,
    RegExp.matchAt fl (RegExp.Plus (RegExp.Cls items)) prev (c :: rest) = Some (S n, cs).
Proof.
  intros Hc. unfold RegExp.matchAt, RegExp.Plus. rewrite run_Rep.
  change (RegExp.run fl (RegExp.Cls items)) with (RegExp.one (RegExp.inClass fl items)).
  cbn [RegExp.exactLoop]. unfold RegExp.one at 1.
  cbn [RegExp.after]. rewrite Hc.
  destruct (greedy_one_total (RegExp.inClass fl items)
              (S (length (RegExp.after
                            (RegExp.step1
                               {| RegExp.before := prev; RegExp.after := c :: rest;
                                  RegExp.caps := [] |} c rest))))
              (option_map (fun mx => mx - 1) None)
              (RegExp.step1
                 {| RegExp.before := prev; RegExp.after := c :: rest;
                    RegExp.caps := [] |} c rest)) as (z & Hz & Hlen).
  rewrite Hz. cbn [RegExp.step1 RegExp.after] in Hlen.
  exists (length rest - length (RegExp.after z)), (RegExp.caps z).
  f_equal. f_equal. cbn [length]. unfold jsstring, char in *. lia.
Qed.

(** What a replacement leaves of the text are characters at which the
    pattern does not match, or matches the empty string. *)
Lemma replaceGo_keeps (fl : RegExp.flags) (r : RegExp.regex) (rep : jsstring)
  (P Q : char -> Prop) :
  (forall c, In c rep -> Q c) ->
  (forall prev c rest,
      P c ->
      RegExp.matchAt fl r prev (c :: rest) = None
      \/ (exists cs, RegExp.matchAt fl r prev (c :: rest) = Some (0, cs)) ->
      Q c) ->
  forall rest skip prev,
    Forall P rest -> Forall Q (RegExp.replaceGo fl r rep skip prev rest).
Proof.
  intros Hrep Hkeep. induction rest as [|x rest IH]; intros skip prev HP.
  - destruct skip; cbn [RegExp.replaceGo]; [|constructor].
    destruct (RegExp.matchAt fl r prev []) as [[n cs]|]; [|constructor].
    rewrite app_nil_r. now apply Forall_forall.
  - inversion HP as [|? ? Hx Hrest]; subst.
    destruct skip as [|skip]; cbn [RegExp.replaceGo]; [|now apply IH].
    destruct (RegExp.matchAt fl r prev (x :: rest)) as [[[|n] cs]|] eqn:E.
    + apply Forall_app. split; [now apply Forall_forall|].
      constructor; [|now apply IH].
      apply (Hkeep prev x rest Hx). right. now exists cs.
    + apply Forall_app. split; [now apply Forall_forall | now apply IH].
    + constructor; [|now apply IH]. apply (Hkeep prev x rest Hx). now left.
Qed.

Lemma inClass_word_space (c : char) :
  RegExp.inClass RegExp.noFlags [RegExp.IWord; RegExp.ISpace] c
  = Chars.isWord c || Chars.isSpace c.
Proof. unfold RegExp.inClass. simpl. now rewrite !orb_false_r. Qed.

Lemma inClass_space (c : char) :
  RegExp.inClass RegExp.noFlags [RegExp.ISpace] c = Chars.isSpace c.
Proof. unfold RegExp.inClass. simpl. now rewrite !orb_false_r. Qed.

(** The text [tokenize] splits holds word characters and single spaces
    only. *)
Lemma normalized_chars (s : jsstring) :
  Forall (fun c => c = 32%N \/ Chars.isWord c = true)
    (RegExp.replaceAll RegExp.noFlags (RegExp.Plus (RegExp.Cls [RegExp.ISpace]))
       (str " ")
       (RegExp.replaceAll RegExp.noFlags
          (RegExp.NCls [RegExp.IWord; RegExp.ISpace]) (str " ") s)).
Proof.
  unfold RegExp.replaceAll at 1.
  apply (replaceGo_keeps _ _ _
           (fun c => Chars.isWord c || Chars.isSpace c = true)).
  - intros c [<- | []]. now left.
  - intros prev c rest Hc Hm. right.
    destruct (Chars.isSpace c) eqn:Es; [|now rewrite orb_false_r in Hc].
    exfalso. rewrite <- inClass_space in Es.
    destruct (plus_class_progress RegExp.noFlags [RegExp.ISpace] prev rest c Es)
      as (n & cs & Hn).
    destruct Hm as [Hm | [cs' Hm]]; congruence.
  - rewrite (replaceAll_oneChar _ _ _ _ _
               (oneChar_NCls RegExp.noFlags [RegExp.IWord; RegExp.ISpace])).
    apply Forall_forall. intros c Hc. apply in_flat_map in Hc as (x & _ & Hx).
    rewrite inClass_word_space in Hx.
    destruct (Chars.isWord x || Chars.isSpace x) eqn:E; cbn [negb] in Hx.
    + destruct Hx as [<- | []]. exact E.
    + destruct Hx as [<- | []]. reflexivity.
Qed.

(** Every token is made of word characters only, the letters a to z and A
    to Z, the digits and the underscore, whatever the platform's lower-casing
    does to the text: what is not a word character or white space is turned
    into a space before the text is split. *)
Theorem tokenize_tokens_are_words :
  forall (toLowerCase : jsstring -> jsstring) (text : jsstring),
    Forall (fun token => forallb Chars.isWord token = true)
      (tokenize toLowerCase text).
Proof.
  intros toLowerCase text. apply Forall_forall. intros token Hin.
  unfold tokenize in Hin. cbv zeta in Hin.
  apply ofList_In, filter_In in Hin as [Hin _].
  apply in_map_iff in Hin as (piece & <- & Hpiece).
  apply forallb_forall. intros c Hc. apply trim_In in Hc.
  change (str " ") with [32%N] in Hpiece at 1.
  destruct (JS_split_In _ _ _ _ Hpiece Hc) as [Hn Hspace].
  pose proof (normalized_chars (toLowerCase text)) as H.
  rewrite Forall_forall in H. destruct (H c Hn) as [-> | Hw]; [contradiction | exact Hw].
Qed.

(* ------------------------------------------------------------------ *)
(** ** Text without markup *)
(* ------------------------------------------------------------------ *)

(** A pattern that starts with a character matches only where a character
    equal to it (up to case, under the [i] flag) stands. *)
Lemma matches_headChar (fl : RegExp.flags) (r : RegExp.regex) (c : char) :
  RegExp.headChar r = Some c ->
  forall x y,
    RegExp.matches fl r x y ->
    exists d rest, RegExp.after x = d :: rest /\ RegExp.charEq fl c d = true.
Proof.
  induction r; try discriminate; cbn [RegExp.headChar RegExp.matches].
  - intros [= ->] x y (d & rest & Ha & Hd & _). now exists d, rest.
  - intros Hh x y (m & Ha & _). now apply (IHr1 Hh x m).
Qed.

Lemma matchAt_headChar (fl : RegExp.flags) (r : RegExp.regex) (c : char)
  (prev rest : jsstring) :
  RegExp.headChar r = Some c ->
  (forall d, In d rest -> RegExp.charEq fl c d = false) ->
  RegExp.matchAt fl r prev rest = None.
Proof.
  intros Hh Hno. destruct (RegExp.matchAt fl r prev rest) as [[n cs]|] eqn:E;
    [|reflexivity].
  apply matchAt_sound in E as (s & y & Hm & _).
  apply (matches_headChar fl r c Hh) in Hm as (d & t & Ha & Hd).
  cbn [RegExp.after] in Ha. rewrite (Hno d) in Hd; [discriminate|].
  rewrite Ha. now left.
Qed.

(** A replacement leaves a text alone that holds nowhere the character the
    pattern starts with. *)
Lemma replaceAll_headChar (fl : RegExp.flags) (r : RegExp.regex) (c : char)
  (rep s : jsstring) :
  RegExp.headChar r = Some c ->
  (forall d, In d s -> RegExp.charEq fl c d = false) ->
  RegExp.replaceAll fl r rep s = s.
Proof.
  intros Hh. unfold RegExp.replaceAll. generalize (@nil char) as prev.
  induction s as [|x s IH]; intros prev Hno; cbn [RegExp.replaceGo].
  - now rewrite (matchAt_headChar fl r c prev [] Hh).
  - rewrite (matchAt_headChar fl r c prev (x :: s) Hh Hno).
    f_equal. apply IH. intros d Hd. apply Hno. now right.
Qed.

(** A character that is no letter is matched by itself only, with or
    without the [i] flag. *)
Lemma charEq_no_letter (fl : RegExp.flags) (c d : char) :
  (c < 65)%N -> d <> c -> RegExp.charEq fl c d = false.
Proof.
  intros Hc Hd. unfold RegExp.charEq. destruct (RegExp.ignoreCase fl).
  - unfold Chars.toUpper, Chars.isLower, Chars.inRange.
    destruct ((97 <=? c)%N && (c <=? 122)%N) eqn:Ec.
    + apply andb_true_iff in Ec as [Ec _]. apply N.leb_le in Ec. lia.
    + destruct ((97 <=? d)%N && (d <=? 122)%N) eqn:Ed.
      * apply andb_true_iff in Ed as [Ed _]. apply N.leb_le in Ed.
        apply N.eqb_neq. unfold char in *. lia.
      * apply N.eqb_neq. congruence.
  - apply N.eqb_neq. congruence.
Qed.

(** Text that holds neither an opening angle bracket nor an ampersand has no
    tag to drop and no entity to decode: [stripHtml] only trims it. *)
Theorem stripHtml_keeps_plain_text :
  forall html : jsstring,
    ~ In (chr "<") html -> ~ In (chr "&") html ->
    Parser.stripHtml html = JS.trim html.
Proof.
  intros html Hlt Hamp. unfold Parser.stripHtml.
  assert (Hl : forall fl d, In d html -> RegExp.charEq fl (chr "<") d = false).
  { intros fl d Hd. apply charEq_no_letter; [reflexivity|]. intros ->. contradiction. }
  assert (Ha : forall fl d, In d html -> RegExp.charEq fl (chr "&") d = false).
  { intros fl d Hd. apply charEq_no_letter; [reflexivity|]. intros ->. contradiction. }
  do 3 (rewrite (replaceAll_headChar RegExp.flag_i _ (chr "<") _ html);
        [|reflexivity | apply Hl]).
  rewrite (replaceAll_headChar RegExp.noFlags _ (chr "<") _ html);
    [|reflexivity | apply Hl].
  do 4 (rewrite (replaceAll_headChar RegExp.noFlags _ (chr "&") _ html);
        [|reflexivity | apply Ha]).
  reflexivity.
Qed.

Lemma stripHtml_keeps_plain_text_witness :
  Parser.stripHtml (str "  Ann Lee > Seattle ") = str "Ann Lee > Seattle".
Proof.
  apply (stripHtml_keeps_plain_text (str "  Ann Lee > Seattle "));
    cbn; intuition discriminate.
Defined.

(** Markup is taken out and entities are decoded, the ampersand first: an
    escaped entity is decoded twice. *)
Example stripHtml_example :
  Parser.stripHtml (str "<p>R&amp;D<br/>Seattle</p>") = Sample.text ["R&D"; "Seattle"]%string
  /\ Parser.stripHtml (str "&amp;lt;") = str "<".
Proof. split; vm_compute; reflexivity. Qed.

(* ------------------------------------------------------------------ *)
(** ** What the patterns capture *)
(* ------------------------------------------------------------------ *)

Section Captures.
Import RegExp.

(** A quantified class covers characters of the class, as many as the
    quantifier allows. *)
Lemma rep_class_over (fl : flags) (min : nat) (max : option nat)
  (items : list citem) (x y : mstate) :
  matches fl (Rep min max (Cls items)) x y ->
  exists s, over s x y /\ min <= length s
            /\ (forall m, max = Some m -> length s <= Nat.max min m)
            /\ forallb (inClass fl items) s = true.
Proof.
  cbn [matches]. intros (n & Hit & Hmin & Hmax).
  apply (iter_takes (inClass fl items)) in Hit as (s & Hs & Hlen & Hp).
  exists s. rewrite Hlen. split; [exact Hs|]. split; [exact Hmin|].
  split; [exact Hmax | exact Hp].
Qed.

Lemma rep_nclass_over (fl : flags) (min : nat) (max : option nat)
  (items : list citem) (x y : mstate) :
  matches fl (Rep min max (NCls items)) x y ->
  exists s, over s x y /\ min <= length s
            /\ forallb (fun c => negb (inClass fl items c)) s = true.
Proof.
  cbn [matches]. intros (n & Hit & Hmin & Hmax).
  apply (iter_takes (fun c => negb (inClass fl items c))) in Hit
    as (s & Hs & Hlen & Hp).
  exists s. rewrite Hlen. split; [exact Hs|]. split; [exact Hmin | exact Hp].
Qed.

Lemma chr_over (fl : flags) (c : char) (x y : mstate) :
  matches fl (Chr c) x y -> exists d, charEq fl c d = true /\ over [d] x y.
Proof. cbn [matches]. apply takes_over. Qed.

Lemma class_over (fl : flags) (items : list citem) (x y : mstate) :
  matches fl (Cls items) x y -> exists d, inClass fl items d = true /\ over [d] x y.
Proof. cbn [matches]. apply takes_over. Qed.

(** What a capture group records is the piece its pattern covers. *)
Lemma cap_over (fl : flags) (n : nat) (a : regex) (x y : mstate) :
  matches fl (Cap n a) x y ->
  exists m s, matches fl a x m /\ over s x m /\ over s x y
              /\ caps y = (n, s) :: caps m.
Proof.
  cbn [matches]. intros (m & Hm & ->).
  destruct (matches_over fl a x m Hm) as [s Hs].
  exists m, s. repeat split; try assumption; try apply Hs.
  cbn [caps]. now rewrite (over_firstn s x m Hs).
Qed.

End Captures.

(** Folding the case of a character changes it only if it is a letter,
    and then to a letter. *)
Lemma toUpper_cases (c : char) :
  Chars.toUpper c = c \/ ((97 <= c <= 122)%N /\ (65 <= Chars.toUpper c <= 90)%N).
Proof.
  unfold Chars.toUpper, Chars.isLower, Chars.inRange.
  destruct ((97 <=? c)%N && (c <=? 122)%N) eqn:E; [right | now left].
  apply andb_true_iff in E as [E1 E2]. apply N.leb_le in E1, E2.
  unfold char in *. lia.
Qed.

Lemma toLower_cases (c : char) :
  Chars.toLower c = c \/ ((65 <= c <= 90)%N /\ (97 <= Chars.toLower c <= 122)%N).
Proof.
  unfold Chars.toLower, Chars.isUpper, Chars.inRange.
  destruct ((65 <=? c)%N && (c <=? 90)%N) eqn:E; [right | now left].
  apply andb_true_iff in E as [E1 E2]. apply N.leb_le in E1, E2.
  unfold char in *. lia.
Qed.

Lemma isDigit_range (c : char) : Chars.isDigit c = true <-> (48 <= c <= 57)%N.
Proof.
  unfold Chars.isDigit, Chars.inRange. rewrite andb_true_iff, !N.leb_le. tauto.
Qed.

Lemma inClass_digit_dot (c : char) :
  RegExp.inClass RegExp.flag_i [RegExp.IDigit; RegExp.IChar (chr ".")] c = true ->
  Chars.isDigit c = true \/ c = chr ".".
Proof.
  unfold RegExp.inClass. cbn [existsb RegExp.itemHas RegExp.ignoreCase RegExp.flag_i].
  rewrite !orb_false_r, !andb_true_l. change (chr ".") with 46%N.
  rewrite !orb_true_iff, !N.eqb_eq, !isDigit_range.
  destruct (toUpper_cases c) as [-> | [Hc Hu]];
    destruct (toLower_cases c) as [-> | [Hc' Hl]];
    unfold char in *; lia.
Qed.

Section Shapes.
Import RegExp.

Lemma seq_inv (fl : flags) (a b : regex) (x y : mstate) :
  matches fl (Seq a b) x y -> exists m, matches fl a x m /\ matches fl b m y.
Proof. intros H. exact H. Qed.

Lemma group_head (n : nat) (s : jsstring) (cs : list (nat * jsstring)) :
  group n ((n, s) :: cs) = Some s.
Proof. cbn [group]. now rewrite Nat.eqb_refl. Qed.

(** The grade point average the pattern captures is a run of digits and
    dots. *)
Lemma gpa_shape (t g : jsstring) (m : result) :
  exec flag_i Parser.educationGpa t = Some m ->
  group 1 (groups m) = Some g ->
  g <> [] /\ forall c, In c g -> Chars.isDigit c = true \/ c = chr ".".
Proof.
  intros Hm Hg. apply exec_sound in Hm as (pre & y & _ & _ & Hc & Hm & _).
  rewrite Hc in Hg. clear Hc.
  unfold Parser.educationGpa in Hm. cbn [Seqs] in Hm.
  apply seq_inv in Hm as (m1 & _ & Hm). apply seq_inv in Hm as (m2 & _ & Hm).
  apply cap_over in Hm as (m3 & s & Hplus & Hs & _ & Hcaps).
  rewrite Hcaps, group_head in Hg. injection Hg as <-.
  apply rep_class_over in Hplus as (s' & Hs' & Hmin & _ & Hp).
  rewrite (over_unique s s' m2 m3 Hs Hs'). split.
  - intros ->. simpl in Hmin. lia.
  - intros c Hc. rewrite forallb_forall in Hp. now apply inClass_digit_dot, Hp.
Qed.

Lemma inClass_digit (c : char) :
  inClass noFlags [IDigit] c = Chars.isDigit c.
Proof.
  unfold inClass. cbn [existsb itemHas ignoreCase noFlags andb].
  now rewrite !orb_false_r.
Qed.

Lemma inClass_dashes (c : char) :
  inClass noFlags [IChar 45; IChar 8211; IChar 8212] c = true ->
  In c [45; 8211; 8212]%N.
Proof.
  unfold inClass. cbn [existsb itemHas ignoreCase noFlags andb In].
  rewrite !orb_false_r, !orb_true_iff, !N.eqb_eq. tauto.
Qed.

(** The dates the pattern captures run from a word over a dash to a year
    of four digits. *)
Lemma dates_shape (t d : jsstring) (m : result) :
  exec noFlags Parser.educationDates t = Some m ->
  group 1 (groups m) = Some d ->
  exists a dash b year,
    d = a ++ dash :: b ++ year
    /\ a <> [] /\ In dash [45; 8211; 8212]%N
    /\ length year = 4 /\ forallb Chars.isDigit year = true.
Proof.
  intros Hm Hd. apply exec_sound in Hm as (pre & y & _ & _ & Hc & Hm & _).
  rewrite Hc in Hd. clear Hc.
  unfold Parser.educationDates in Hm.
  apply cap_over in Hm as (m0 & s & Hm & Hs & _ & Hcaps).
  rewrite Hcaps, group_head in Hd. injection Hd as <-.
  cbn [Seqs] in Hm.
  apply seq_inv in Hm as (m1 & H1 & Hm). apply seq_inv in Hm as (m2 & H2 & Hm).
  apply seq_inv in Hm as (m3 & H3 & Hm). apply seq_inv in Hm as (m4 & H4 & Hm).
  apply seq_inv in Hm as (m5 & H5 & Hm). apply seq_inv in Hm as (m6 & H6 & Hm).
  apply seq_inv in Hm as (m7 & H7 & H8).
  apply rep_class_over in H1 as (s1 & O1 & N1 & _).
  apply matches_over in H2 as (s2 & O2). apply matches_over in H3 as (s3 & O3).
  apply matches_over in H4 as (s4 & O4).
  unfold Parser.dashes in H5. apply class_over in H5 as (dash & Hdash & O5).
  apply matches_over in H6 as (s6 & O6). apply matches_over in H7 as (s7 & O7).
  apply rep_class_over in H8 as (s8 & O8 & N8 & M8 & P8).
  pose proof (over_trans _ _ _ _ _ O1
                (over_trans _ _ _ _ _ O2
                   (over_trans _ _ _ _ _ O3
                      (over_trans _ _ _ _ _ O4
                         (over_trans _ _ _ _ _ O5
                            (over_trans _ _ _ _ _ O6
                               (over_trans _ _ _ _ _ O7 O8))))))) as O.
  rewrite (over_unique _ _ _ _ Hs O).
  exists (s1 ++ s2 ++ s3 ++ s4), dash, (s6 ++ s7), s8. repeat split.
  - now rewrite <- !app_assoc.
  - intros E. apply app_eq_nil in E as [-> _]. simpl in N1. lia.
  - now apply inClass_dashes.
  - specialize (M8 4 eq_refl). simpl in M8. lia.
  - apply forallb_forall. intros c Hc. rewrite forallb_forall in P8.
    rewrite <- inClass_digit. now apply P8.
Qed.

End Shapes.

Lemma orUndefined_Some (o : option jsstring) (s : jsstring) :
  orUndefined o = Some s -> o = Some s /\ s <> [].
Proof. destruct o as [[|c t]|]; try discriminate. intros [= <-]. now split. Qed.

(** What the education extractor returns, field by field. *)
Lemma parseEducationBlock_spec :
  forall text : jsstring,
    (Parser.parseEducationBlock text = [] <-> JS.blank text = true)
    /\ Forall
         (fun e =>
            (exists raw, EducationEntry.rawText e = Some raw
                         /\ raw <> [] /\ JS.trim raw = raw)
            /\ (forall school, EducationEntry.school e = Some school ->
                  school <> [] /\ JS.trim school = school)
            /\ (forall degree, EducationEntry.degree e = Some degree ->
                  degree <> [] /\ JS.trim degree = degree)
            /\ (forall gpa, EducationEntry.gpa e = Some gpa ->
                  gpa <> []
                  /\ forall c, In c gpa -> Chars.isDigit c = true \/ c = chr ".")
            /\ (forall dates, EducationEntry.dates e = Some dates ->
                  exists a dash b year,
                    dates = a ++ dash :: b ++ year
                    /\ a <> [] /\ In dash [45; 8211; 8212]%N
                    /\ length year = 4 /\ forallb Chars.isDigit year = true))
         (Parser.parseEducationBlock text).
Proof.
  intros text. rewrite parseEducationBlock_entries. split.
  - split.
    + intros H. destruct (JS.blank text) eqn:Eb; [reflexivity|].
      exfalso. apply (educationEntries_nonempty text).
      * intros E. apply trim_nil in E. congruence.
      * now rewrite educationEntries_map.
    + intros H.
      assert (Hnone : filter (fun b => nonEmpty (JS.trim b))
                        (RegExp.split RegExp.flag_i Parser.educationStart text) = [])
        by now apply filter_content_of_blank.
      destruct (filter nonEmpty _) as [|t ts] eqn:E; [reflexivity|].
      assert (Ht : In t (t :: ts)) by now left. rewrite <- E in Ht.
      apply filter_In in Ht as [Ht Hne]. apply in_map_iff in Ht as (b & <- & Hb).
      assert (Hin : In b (filter (fun b => nonEmpty (JS.trim b))
                            (RegExp.split RegExp.flag_i Parser.educationStart text)))
        by (apply filter_In; now split).
      rewrite Hnone in Hin. destruct Hin.
  - apply Forall_forall. intros e He. apply in_map_iff in He as (t & <- & Ht).
    apply filter_In in Ht as [Ht Hne]. apply in_map_iff in Ht as (b & <- & _).
    unfold Parser.educationEntry. cbv zeta.
    cbn [EducationEntry.rawText EducationEntry.school EducationEntry.degree
         EducationEntry.gpa EducationEntry.dates].
    split; [|split; [|split; [|split]]].
    + exists (JS.trim b). split; [reflexivity|]. split; [|apply trim_idem].
      intros E. rewrite E in Hne. discriminate.
    + intros school Hs. apply orUndefined_Some in Hs as [Hs Hn].
      split; [exact Hn|].
      destruct (RegExp.exec RegExp.flag_i Parser.educationSchool (JS.trim b))
        as [m|]; cbn [option_map truthy negb] in Hs.
      * destruct (negb (nonEmpty _)); [destruct (_ && _ && _)|];
          injection Hs as <-; apply trim_idem.
      * destruct (_ && _ && _); [|discriminate]. injection Hs as <-. apply trim_idem.
    + intros degree Hd. apply orUndefined_Some in Hd as [Hd Hn].
      split; [exact Hn|].
      destruct (RegExp.exec RegExp.flag_i Parser.educationDegree (JS.trim b))
        as [m|]; [|discriminate]. injection Hd as <-. apply trim_idem.
    + intros gpa Hg.
      destruct (RegExp.exec RegExp.flag_i Parser.educationGpa (JS.trim b))
        as [m|] eqn:Em; [|discriminate].
      exact (gpa_shape (JS.trim b) gpa m Em Hg).
    + intros dates Hd.
      destruct (RegExp.exec RegExp.noFlags Parser.educationDates (JS.trim b))
        as [m|] eqn:Em; [|discriminate].
      exact (dates_shape (JS.trim b) dates m Em Hd).
Qed.

(** The education extractor returns no entry exactly when the section text
    is blank.  In every entry it returns, the raw text, the school and the
    degree are not empty and carry no white space at either end; the grade
    point average is a run of digits and dots; and the dates run from a word
    over a dash to a year of four digits. *)
Theorem parseEducationBlock_field_shapes :
  forall text : jsstring,
    (Parser.parseEducationBlock text = [] <-> JS.blank text = true)
    /\ Forall
         (fun e =>
            (exists raw, EducationEntry.rawText e = Some raw
                         /\ raw <> [] /\ JS.trim raw = raw)
            /\ (forall school, EducationEntry.school e = Some school ->
                  school <> [] /\ JS.trim school = school)
            /\ (forall degree, EducationEntry.degree e = Some degree ->
                  degree <> [] /\ JS.trim degree = degree)
            /\ (forall gpa, EducationEntry.gpa e = Some gpa ->
                  gpa <> []
                  /\ forall c, In c gpa -> Chars.isDigit c = true \/ c = chr ".")
            /\ (forall dates, EducationEntry.dates e = Some dates ->
                  exists a dash b year,
                    dates = a ++ dash :: b ++ year
                    /\ a <> [] /\ In dash [45; 8211; 8212]%N
                    /\ length year = 4 /\ forallb Chars.isDigit year = true))
         (Parser.parseEducationBlock text).
Proof. exact parseEducationBlock_spec. Qed.

(* ------------------------------------------------------------------ *)
(** ** The contact extractor *)
(* ------------------------------------------------------------------ *)

Section ContactShapes.
Import RegExp.

Lemma rep_chr_over (fl : flags) (min : nat) (max : option nat) (a : char)
  (x y : mstate) :
  matches fl (Rep min max (Chr a)) x y ->
  exists s, over s x y /\ forallb (charEq fl a) s = true.
Proof.
  cbn [matches]. intros (n & Hit & _).
  apply (iter_takes (charEq fl a)) in Hit as (s & Hs & _ & Hp). now exists s.
Qed.

(** A literal covers its own characters, up to case under the [i] flag. *)
Lemma lit_over (fl : flags) (s : jsstring) :
  forall x y,
    matches fl (Lit s) x y ->
    exists t, over t x y /\ Forall2 (fun a c => charEq fl a c = true) s t.
Proof.
  induction s as [|a s IH]; intros x y.
  - cbn [Lit matches]. intros ->. exists []. split; [apply over_refl | constructor].
  - destruct s as [|b s].
    + cbn [Lit]. intros H. apply chr_over in H as (d & Hd & Ho).
      exists [d]. split; [exact Ho|]. now repeat constructor.
    + change (Lit (a :: b :: s)) with (Seq (Chr a) (Lit (b :: s))).
      intros H. apply seq_inv in H as (m & H1 & H2).
      apply chr_over in H1 as (d & Hd & Ho). apply IH in H2 as (t & Ht & Hall).
      exists ([d] ++ t). split; [now apply (over_trans [d] t x m y)|].
      now constructor.
Qed.

Lemma inClass_noFlags (items : list citem) (c : char) :
  inClass noFlags items c = existsb (fun it => itemHas it c) items.
Proof.
  unfold inClass. induction items as [|it items IH]; [reflexivity|].
  cbn [existsb]. rewrite IH. cbn [ignoreCase noFlags andb]. now rewrite orb_false_r.
Qed.

Lemma charEq_noFlags (a c : char) : charEq noFlags a c = true -> c = a.
Proof. unfold charEq. cbn [ignoreCase noFlags]. intros H. now apply N.eqb_eq in H. Qed.

(** The address the pattern finds: a local part, an at sign, a domain, a
    dot and a top-level name of letters. *)
Lemma email_shape (text : jsstring) (m : result) :
  exec noFlags Parser.contactEmail text = Some m ->
  exists local domain tld,
    matched m = local ++ chr "@" :: domain ++ chr "." :: tld
    /\ local <> [] /\ domain <> [] /\ 2 <= length tld
    /\ (forall c, In c local ->
          Chars.isWord c = true \/ In c [chr "."; chr "+"; chr "%"; chr "-"])
    /\ (forall c, In c domain -> Chars.isWord c = true \/ In c [chr "."; chr "-"])
    /\ (forall c, In c tld -> Chars.isUpper c = true \/ Chars.isLower c = true).
Proof.
  intros Hm. apply exec_sound in Hm as (pre & y & _ & _ & _ & Hm & Ho).
  unfold Parser.contactEmail in Hm. cbn [Seqs] in Hm.
  apply seq_inv in Hm as (m1 & H1 & Hm). apply seq_inv in Hm as (m2 & H2 & Hm).
  apply seq_inv in Hm as (m3 & H3 & Hm). apply seq_inv in Hm as (m4 & H4 & H5).
  apply rep_class_over in H1 as (s1 & O1 & N1 & _ & P1).
  apply chr_over in H2 as (c2 & E2 & O2). apply charEq_noFlags in E2. subst c2.
  apply rep_class_over in H3 as (s3 & O3 & N3 & _ & P3).
  apply chr_over in H4 as (c4 & E4 & O4). apply charEq_noFlags in E4. subst c4.
  apply rep_class_over in H5 as (s5 & O5 & N5 & _ & P5).
  pose proof (over_trans _ _ _ _ _ O1
                (over_trans _ _ _ _ _ O2
                   (over_trans _ _ _ _ _ O3 (over_trans _ _ _ _ _ O4 O5)))) as O.
  rewrite (over_unique _ _ _ _ Ho O).
  exists s1, s3, s5. split; [reflexivity|].
  split; [intros ->; simpl in N1; lia|]. split; [intros ->; simpl in N3; lia|].
  split; [exact N5|].
  rewrite forallb_forall in P1, P3, P5. repeat split.
  - intros c Hc. specialize (P1 c Hc). rewrite inClass_noFlags in P1.
    cbn [existsb itemHas In] in P1 |- *.
    rewrite !orb_true_iff, !N.eqb_eq in P1. intuition discriminate.
  - intros c Hc. specialize (P3 c Hc). rewrite inClass_noFlags in P3.
    cbn [existsb itemHas In] in P3 |- *.
    rewrite !orb_true_iff, !N.eqb_eq in P3. intuition discriminate.
  - intros c Hc. specialize (P5 c Hc). rewrite inClass_noFlags in P5.
    unfold Parser.AZ, Parser.az in P5. cbn [existsb itemHas] in P5.
    rewrite !orb_true_iff in P5. unfold Chars.isUpper, Chars.isLower.
    intuition discriminate.
Qed.

(** The number the pattern finds: at least ten digits, spaces, hyphens,
    brackets and dots, after at most one plus sign. *)
Lemma phone_shape (text : jsstring) (m : result) :
  exec noFlags Parser.contactPhone text = Some m ->
  10 <= length (matched m)
  /\ forall c, In c (matched m) ->
       Chars.isDigit c = true \/ Chars.isSpace c = true
       \/ In c [chr "+"; chr "-"; chr "("; chr ")"; chr "."].
Proof.
  intros Hm. apply exec_sound in Hm as (pre & y & _ & _ & _ & Hm & Ho).
  unfold Parser.contactPhone in Hm.
  apply seq_inv in Hm as (m1 & H1 & H2).
  unfold Opt in H1. apply rep_chr_over in H1 as (s1 & O1 & P1).
  apply rep_class_over in H2 as (s2 & O2 & N2 & _ & P2).
  rewrite (over_unique _ _ _ _ Ho (over_trans _ _ _ _ _ O1 O2)). split.
  - rewrite length_app. lia.
  - rewrite forallb_forall in P1, P2.
    intros c Hc. apply in_app_or in Hc as [Hc | Hc].
    + apply P1, charEq_noFlags in Hc. subst c. right. right. now left.
    + specialize (P2 c Hc). rewrite inClass_noFlags in P2.
      cbn [existsb itemHas In] in P2 |- *.
      rewrite !orb_true_iff, !N.eqb_eq in P2. intuition discriminate.
Qed.

Lemma not_space_i (c : char) :
  negb (inClass flag_i [ISpace] c) = true -> Chars.isSpace c = false.
Proof.
  unfold inClass. cbn [existsb itemHas]. rewrite negb_true_iff, !orb_false_iff.
  tauto.
Qed.

(** The profile address the pattern finds: the host and path, in any case,
    and a name without white space. *)
Lemma linkedIn_shape (text : jsstring) (m : result) :
  exec flag_i Parser.contactLinkedIn text = Some m ->
  exists host id,
    matched m = host ++ id
    /\ map Chars.toUpper host = map Chars.toUpper (str "linkedin.com/in/")
    /\ id <> [] /\ forall c, In c id -> Chars.isSpace c = false.
Proof.
  intros Hm. apply exec_sound in Hm as (pre & y & _ & _ & _ & Hm & Ho).
  unfold Parser.contactLinkedIn in Hm.
  apply seq_inv in Hm as (m1 & H1 & H2).
  unfold Parser.L in H1. apply lit_over in H1 as (host & O1 & Hhost).
  apply rep_nclass_over in H2 as (id & O2 & N2 & P2).
  rewrite (over_unique _ _ _ _ Ho (over_trans _ _ _ _ _ O1 O2)).
  exists host, id. split; [reflexivity|]. repeat split.
  - clear -Hhost. induction Hhost as [|a c s t Hac _ IH]; [reflexivity|].
    cbn [map]. rewrite IH. f_equal. unfold charEq in Hac.
    cbn [ignoreCase flag_i] in Hac. apply N.eqb_eq in Hac. congruence.
  - intros ->. simpl in N2. lia.
  - intros c Hc. rewrite forallb_forall in P2. now apply not_space_i, P2.
Qed.

End ContactShapes.

(** What the contact extractor returns has the shape its patterns ask for.
    The e-mail address is a local part, an at sign, a domain, a dot and a
    top-level name of at least two letters.  The phone number is a trimmed
    run of at least ten digits, spaces, hyphens, brackets and dots, with at
    most a plus sign before it.  The profile address starts with
    "https://", the host and path in whatever case the text has them, and
    holds no white space behind them. *)
Theorem parseContactBlock_field_shapes :
  forall text : jsstring,
    let contact := Parser.parseContactBlock text in
    (forall email, Contact.email contact = Some email ->
       exists local domain tld,
         email = local ++ chr "@" :: domain ++ chr "." :: tld
         /\ local <> [] /\ domain <> [] /\ 2 <= length tld
         /\ (forall c, In c local ->
               Chars.isWord c = true \/ In c [chr "."; chr "+"; chr "%"; chr "-"])
         /\ (forall c, In c domain ->
               Chars.isWord c = true \/ In c [chr "."; chr "-"])
         /\ (forall c, In c tld -> Chars.isUpper c = true \/ Chars.isLower c = true))
    /\ (forall phone, Contact.phone contact = Some phone ->
          exists found,
            phone = JS.trim found /\ 10 <= length found
            /\ forall c, In c found ->
                 Chars.isDigit c = true \/ Chars.isSpace c = true
                 \/ In c [chr "+"; chr "-"; chr "("; chr ")"; chr "."])
    /\ (forall linkedin, Contact.linkedin contact = Some linkedin ->
          exists host id,
            linkedin = str "https://" ++ host ++ id
            /\ map Chars.toUpper host = map Chars.toUpper (str "linkedin.com/in/")
            /\ id <> [] /\ forall c, In c id -> Chars.isSpace c = false).
Proof.
  intros text contact. unfold contact, Parser.parseContactBlock. cbv zeta.
  cbn [Contact.email Contact.phone Contact.linkedin]. split; [|split].
  - intros email He.
    destruct (RegExp.exec RegExp.noFlags Parser.contactEmail text) as [m|] eqn:Em;
      [|discriminate].
    injection He as <-. exact (email_shape text m Em).
  - intros phone Hp.
    destruct (RegExp.exec RegExp.noFlags Parser.contactPhone text) as [m|] eqn:Em;
      [|discriminate].
    injection Hp as <-. exists (RegExp.matched m). split; [reflexivity|].
    exact (phone_shape text m Em).
  - intros linkedin Hl.
    destruct (RegExp.exec RegExp.flag_i Parser.contactLinkedIn text) as [m|] eqn:Em;
      [|discriminate].
    injection Hl as <-.
    destruct (linkedIn_shape text m Em) as (host & id & -> & H).
    now exists host, id.
Qed.

Example parseContactBlock_example :
  Parser.parseContactBlock
    (Sample.text ["Ann Lee"; "(909) 555-0100 | ann.lee@example.com";
                  "LinkedIn.com/in/annlee | Seattle"]%string)
  = Contact.mk (Some (str "Ann Lee")) (Some (str "ann.lee@example.com"))
      (Some (str "(909) 555-0100")) (Some (str "Seattle"))
      (Some (str "https://LinkedIn.com/in/annlee")).
Proof. vm_compute. reflexivity. Qed.

(* ------------------------------------------------------------------ *)
(** ** Blocks of the markup *)
(* ------------------------------------------------------------------ *)

Section MarkupBlocks.
Import RegExp.

(** A greedy run over characters that satisfy [p] goes on to the first
    character that does not, and stays there when the rest of the pattern
    matches from there. *)
Lemma greedy_run (p : char -> bool) (k : mstate -> option mstate) (rest : jsstring)
  (z : mstate) :
  headIs p rest = false ->
  forall (s : jsstring) (x : mstate) (fuel : nat),
    after x = s ++ rest ->
    forallb p s = true ->
    length s < fuel ->
    k {| before := rev s ++ before x; after := rest; caps := caps x |} = Some z ->
    greedyLoop (one p) k fuel None x = Some z.
Proof.
  intros Hrest. induction s as [|c s IH]; intros x fuel Ha Hs Hf Hk.
  - destruct fuel as [|fuel]; [lia|]. cbn [greedyLoop spent].
    destruct x as [b a cs]. cbn [after before caps app rev] in *. subst a.
    unfold one. cbn [after].
    destruct rest as [|d rest]; [now rewrite Hk|].
    cbn [headIs] in Hrest. now rewrite Hrest, Hk.
  - destruct fuel as [|fuel]; [simpl in Hf; lia|]. cbn [greedyLoop spent].
    cbn [forallb] in Hs. apply andb_true_iff in Hs as [Hc Hs].
    unfold one at 1. rewrite Ha. cbn [app]. rewrite Hc.
    cbn [step1 after].
    rewrite (proj2 (Nat.ltb_lt (length (s ++ rest)) (length (c :: s ++ rest))))
      by (simpl; lia).
    cbn [lessOne option_map].
    rewrite (IH (step1 x c (s ++ rest)) fuel); [reflexivity | reflexivity | exact Hs | | ].
    + simpl in Hf. lia.
    + cbn [step1 before caps]. cbn [rev] in Hk. now rewrite <- app_assoc in Hk.
Qed.

Lemma not_open_i (c : char) :
  c <> chr "<" -> negb (inClass flag_i [IChar (chr "<")] c) = true.
Proof.
  intros Hc. change (chr "<") with 60%N in *.
  unfold inClass. cbn [existsb itemHas ignoreCase flag_i andb].
  rewrite negb_true_iff, !orb_false_iff, !N.eqb_neq.
  unfold Chars.toUpper, Chars.toLower, Chars.isLower, Chars.isUpper, Chars.inRange.
  repeat split; try congruence.
  - destruct ((97 <=? c)%N && (c <=? 122)%N) eqn:E; [|congruence].
    apply andb_true_iff in E as [E _]. apply N.leb_le in E. unfold char in *. lia.
  - destruct ((65 <=? c)%N && (c <=? 90)%N) eqn:E; [|congruence].
    apply andb_true_iff in E as [E _]. apply N.leb_le in E. unfold char in *. lia.
Qed.

(** The opening tag of a heading or a paragraph without attributes is
    matched as a whole, whatever follows. *)
Lemma openingTag_run (tag rest prev : jsstring) (cs : list (nat * jsstring))
  (k : mstate -> option mstate) :
  In tag [str "h1"; str "h2"; str "h3"; str "p"] ->
  run flag_i Parser.openingTag k
    {| before := prev; after := chr "<" :: tag ++ chr ">" :: rest; caps := cs |}
  = k {| before := chr ">" :: rev tag ++ chr "<" :: prev; after := rest; caps := cs |}.
Proof.
  intros [<- | [<- | [<- | [<- | []]]]]; cbn; unfold step1; cbn;
    match goal with |- context [k ?y] => destruct (k y) end; reflexivity.
Qed.


(** The pattern for a section title on a heading or a paragraph that holds
    text only: it matches up to the slash of the closing tag and captures
    the text. *)
Lemma sectionTitle_matchAt (tag title : jsstring) :
  In tag [str "h1"; str "h2"; str "h3"; str "p"] ->
  ~ In (chr "<") title ->
  matchAt flag_i Parser.sectionTitleRegex []
    ((chr "<" :: tag ++ chr ">" :: title ++ str "</") ++ tag ++ str ">")
  = Some (length (chr "<" :: tag ++ chr ">" :: title ++ str "</"), [(1, title)]).
Proof.
  intros Htag Htitle. unfold matchAt.
  set (closing := chr "<" :: chr "/" :: tag ++ str ">").
  assert (Hblock : (chr "<" :: tag ++ chr ">" :: title ++ str "</") ++ tag ++ str ">"
                   = chr "<" :: tag ++ chr ">" :: title ++ closing).
  { unfold closing. cbn [app]. rewrite <- !app_assoc. cbn [app].
    rewrite <- !app_assoc. reflexivity. }
  set (z := {| before := chr "/" :: chr "<" :: rev title
                         ++ chr ">" :: rev tag ++ [chr "<"];
               after := tag ++ str ">"; caps := [(1, title)] |}).
  assert (Hrun : run flag_i Parser.sectionTitleRegex Some
                   {| before := [];
                      after := chr "<" :: tag ++ chr ">" :: title ++ closing;
                      caps := [] |} = Some z).
  { change (run flag_i Parser.sectionTitleRegex Some ?x)
      with (run flag_i Parser.openingTag
              (run flag_i (Cap 1 (Star (NCls [IChar (chr "<")])))
                 (run flag_i (Chr (chr "<")) (run flag_i (Chr (chr "/")) Some)))
              x).
    rewrite (openingTag_run tag (title ++ closing) [] [] _ Htag).
    match goal with
    | |- run flag_i (Cap 1 ?a) ?k ?x = _ =>
        change (run flag_i (Cap 1 a) k x)
          with (run flag_i a
                  (fun y =>
                     k {| before := before y; after := after y;
                          caps := (1, firstn (length (after x) - length (after y))
                                        (after x)) :: caps y |}) x)
    end.
    unfold Star. rewrite run_Rep. cbn [exactLoop option_map].
    change (run flag_i (NCls [IChar (chr "<")]))
      with (one (fun c => negb (inClass flag_i [IChar (chr "<")] c))).
    apply greedy_run with (rest := closing) (s := title).
    - reflexivity.
    - reflexivity.
    - apply forallb_forall. intros c Hc. apply not_open_i. intros ->. now apply Htitle.
    - cbn [after]. rewrite length_app. lia.
    - cbn [after before caps].
      rewrite length_app, Nat.add_sub, firstn_app, firstn_all, Nat.sub_diag.
      cbn [firstn]. rewrite app_nil_r. reflexivity. }
  rewrite Hblock, Hrun. cbn [after caps z]. f_equal. f_equal.
  unfold closing. repeat (cbn [length]; rewrite ?length_app).
  change (length (str ">")) with 1. change (length (str "</")) with 2. lia.
Qed.

End MarkupBlocks.

Lemma search_here (fl : RegExp.flags) (r : RegExp.regex) (i n : nat)
  (prev rest : jsstring) (cs : list (nat * jsstring)) :
  RegExp.matchAt fl r prev rest = Some (n, cs) ->
  RegExp.search fl r i prev rest
  = Some {| RegExp.index := i; RegExp.matched := firstn n rest; RegExp.groups := cs |}.
Proof. intros H. destruct rest; cbn [RegExp.search]; now rewrite H. Qed.

Lemma firstn_skipn_exact {A} (p t : list A) :
  firstn (length p) (p ++ t) = p /\ skipn (length p) (p ++ t) = t.
Proof.
  split.
  - now rewrite firstn_app, Nat.sub_diag, firstn_all, app_nil_r.
  - now rewrite skipn_app, Nat.sub_diag, skipn_all.
Qed.

Lemma stripHtml_tag_tail (tag : jsstring) :
  In tag [str "h1"; str "h2"; str "h3"; str "p"] ->
  Parser.stripHtml (tag ++ str ">") = tag ++ str ">".
Proof. intros [<- | [<- | [<- | [<- | []]]]]; vm_compute; reflexivity. Qed.

(** A heading or paragraph that holds nothing but a section title starts a
    section, and the section's content starts with what the title pattern
    leaves of the block: the pattern ends at the slash of the closing tag,
    so the name of the tag and the closing angle bracket stay behind as
    text. *)
Theorem splitBlock_title_leaves_closing_tag_tail :
  forall (toLowerCase : jsstring -> jsstring) (st : Parser.splitter)
         (tag title : jsstring),
    In tag [str "h1"; str "h2"; str "h3"; str "p"] ->
    ~ In (chr "<") title ->
    Parser.looksLikeHeader toLowerCase (JS.trim (Parser.stripHtml title)) = true ->
    Parser.splitBlock toLowerCase st
      (str "<" ++ tag ++ str ">" ++ title ++ str "</" ++ tag ++ str ">")
    = Parser.mkSplitter (JS.trim (Parser.stripHtml title)) [tag ++ str ">"]
        (Parser.flushSection st).
Proof.
  intros toLowerCase st tag title Htag Htitle Hlooks.
  assert (Hblock : str "<" ++ tag ++ str ">" ++ title ++ str "</" ++ tag ++ str ">"
                   = (chr "<" :: tag ++ chr ">" :: title ++ str "</") ++ tag ++ str ">").
  { cbn [app]. change (str "<") with [chr "<"]. change (str ">") with [chr ">"].
    cbn [app]. rewrite <- !app_assoc. cbn [app]. now rewrite <- !app_assoc. }
  rewrite Hblock.
  pose proof (sectionTitle_matchAt tag title Htag Htitle) as Hm.
  unfold Parser.splitBlock, RegExp.replace, RegExp.exec.
  rewrite (search_here _ _ 0 _ _ _ _ Hm).
  cbn [RegExp.groups RegExp.group Nat.eqb orDefault RegExp.index RegExp.matched].
  rewrite Hlooks.
  destruct (firstn_skipn_exact (chr "<" :: tag ++ chr ">" :: title ++ str "</")
              (tag ++ str ">")) as [Hf Hs].
  rewrite Hf, Nat.add_0_l, Hs, firstn_O. change (str "") with (@nil char).
  cbn [app]. now rewrite (stripHtml_tag_tail tag Htag).
Qed.

Lemma splitBlock_title_leaves_closing_tag_tail_witness :
  Parser.splitBlock asciiToLowerCase (Parser.mkSplitter (str "") [] [])
    (str "<h2>Skills</h2>")
  = Parser.mkSplitter (str "Skills") [str "h2>"] [].
Proof.
  apply (splitBlock_title_leaves_closing_tag_tail asciiToLowerCase
           (Parser.mkSplitter (str "") [] []) (str "h2") (str "Skills")).
  - right. left. reflexivity.
  - cbn. intuition discriminate.
  - vm_compute. reflexivity.
Defined.

(** The tail of the closing tag reaches the parsed resume: here it is read
    as the first skill. *)
Example parseHtmlToResume_example :
  ParsedResume.skills
    (Parser.parseHtmlToResume asciiToLowerCase (str "<h2>Skills</h2><p>Go, Rust</p>"))
  = [str "h2>"; str "Go"; str "Rust"].
Proof. vm_compute. reflexivity. Qed.

(** A text without an opening angle bracket has no section title. *)
Lemma sectionTitle_none (block : jsstring) :
  ~ In (chr "<") block ->
  RegExp.exec RegExp.flag_i Parser.sectionTitleRegex block = None.
Proof.
  intros Hno. destruct (RegExp.exec _ _ block) as [m|] eqn:E; [|reflexivity].
  exfalso. apply exec_sound in E as (pre & y & Hs & _ & _ & Hm & _).
  unfold Parser.sectionTitleRegex in Hm. cbn [RegExp.Seqs] in Hm.
  apply seq_inv in Hm as (m1 & Hbol & Hm).
  cbn [RegExp.matches] in Hbol. destruct Hbol as [_ ->].
  eapply (matches_headChar RegExp.flag_i _ (chr "<")) in Hm; [|reflexivity].
  destruct Hm as (d & rest & Ha & Hd).
  cbn [RegExp.after] in Ha.
  destruct (N.eq_dec d (chr "<")) as [-> | Hne].
  - apply Hno. rewrite Hs, Ha. apply in_or_app. right. now left.
  - rewrite (charEq_no_letter RegExp.flag_i (chr "<") d) in Hd;
      [discriminate | reflexivity | exact Hne].
Qed.

Section PlainText.
Variable toLowerCase : jsstring -> jsstring.

Lemma splitBlock_plain (st : Parser.splitter) (block : jsstring) :
  ~ In (chr "<") block ->
  Parser.splitBlock toLowerCase st block
  = Parser.mkSplitter (Parser.currentTitle st)
      (Parser.currentContent st ++ [Parser.stripHtml block]) (Parser.sections st).
Proof. intros H. unfold Parser.splitBlock. now rewrite (sectionTitle_none block H). Qed.

Lemma splitBlock_fold_plain (blocks : list jsstring) :
  (forall b, In b blocks -> ~ In (chr "<") b) ->
  forall st,
    Parser.currentTitle (fold_left (Parser.splitBlock toLowerCase) blocks st)
    = Parser.currentTitle st
    /\ Parser.sections (fold_left (Parser.splitBlock toLowerCase) blocks st)
       = Parser.sections st.
Proof.
  induction blocks as [|b blocks IH]; intros Hall st; [now split|].
  cbn [fold_left]. rewrite (splitBlock_plain st b) by (apply Hall; now left).
  destruct (IH (fun b' Hb' => Hall b' (or_intror Hb'))
              (Parser.mkSplitter (Parser.currentTitle st)
                 (Parser.currentContent st ++ [Parser.stripHtml b])
                 (Parser.sections st))) as [Ht Hs].
  now rewrite Ht, Hs.
Qed.

Lemma markup_sections_of_plain_text (html : jsstring) :
  ~ In (chr "<") html ->
  Parser.flushSection
    (fold_left (Parser.splitBlock toLowerCase)
       (JS.filterNonEmpty (RegExp.split RegExp.flag_i Parser.blockStart html))
       (Parser.mkSplitter (str "") [] []))
  = [].
Proof.
  intros Hno.
  destruct (splitBlock_fold_plain
              (JS.filterNonEmpty (RegExp.split RegExp.flag_i Parser.blockStart html)))
    with (st := Parser.mkSplitter (str "") [] []) as [Ht Hs].
  - intros b Hb Hc. apply Hno. unfold JS.filterNonEmpty in Hb.
    apply filter_In in Hb as [Hb _].
    exact (split_In _ _ _ _ _ Hb Hc).
  - unfold Parser.flushSection. now rewrite Ht, Hs.
Qed.

End PlainText.

(** Text without markup and without a header line is kept whole: the
    parsed resume has no education, experience, project or skill, its
    contact is what the contact extractor finds in the first six lines, and
    the text, trimmed and with its entities decoded, is filed under "Full
    text". *)
Theorem parseHtmlToResume_keeps_plain_text_whole :
  forall (toLowerCase : jsstring -> jsstring) (html : jsstring),
    ~ In (chr "<") html ->
    Parser.splitBySectionHeaders (Parser.stripHtml html) = [] ->
    Parser.parseHtmlToResume toLowerCase html
    = ParsedResume.mk
        (Parser.parseContactBlock (Parser.topLines 6 (Parser.stripHtml html)))
        [] [] [] []
        (Some [(str "Full text", Parser.stripHtml html)]).
Proof.
  intros toLowerCase html Hno Hheaders. unfold Parser.parseHtmlToResume. cbv zeta.
  rewrite (markup_sections_of_plain_text toLowerCase html Hno), Hheaders.
  reflexivity.
Qed.

Lemma parseHtmlToResume_keeps_plain_text_whole_witness :
  Parser.parseHtmlToResume asciiToLowerCase (str "Ann Lee | ann@example.com &amp; more")
  = ParsedResume.mk
      (Contact.mk (Some (str "Ann Lee")) (Some (str "ann@example.com")) None None None)
      [] [] [] []
      (Some [(str "Full text", str "Ann Lee | ann@example.com & more")]).
Proof.
  apply (parseHtmlToResume_keeps_plain_text_whole asciiToLowerCase
           (str "Ann Lee | ann@example.com &amp; more")).
  - cbn. intuition discriminate.
  - vm_compute. reflexivity.
Defined.

(* ------------------------------------------------------------------ *)
(** ** The parser as a whole *)
(* ------------------------------------------------------------------ *)

Lemma fold_left_invariant {A B} (P : A -> Prop) (f : A -> B -> A) (xs : list B) :
  (forall a b, P a -> P (f a b)) -> forall a, P a -> P (fold_left f xs a).
Proof.
  intros Hf. induction xs as [|x xs IH]; intros a Ha; [exact Ha|].
  cbn [fold_left]. apply IH, Hf, Ha.
Qed.

Lemma contactFromBlock_parse (text : jsstring) :
  contactFromBlock (Parser.parseContactBlock text).
Proof. repeat split; now exists text. Qed.

Lemma contactFromBlock_empty : contactFromBlock Contact.empty.
Proof. repeat split; now exists []. Qed.

Lemma contactFromBlock_spread (a b : Contact.t) :
  contactFromBlock a -> contactFromBlock b ->
  contactFromBlock (Parser.spreadContact a b).
Proof.
  intros (Ha1 & Ha2 & Ha3 & Ha4) (Hb1 & Hb2 & Hb3 & Hb4).
  unfold contactFromBlock, Parser.spreadContact.
  cbn [Contact.email Contact.phone Contact.location Contact.linkedin].
  split; [|split; [|split]].
  - destruct (Contact.email b); [exact Hb1 | exact Ha1].
  - destruct (Contact.phone b); [exact Hb2 | exact Ha2].
  - destruct (Contact.location b); [exact Hb3 | exact Ha3].
  - destruct (Contact.linkedin b); [exact Hb4 | exact Ha4].
Qed.

Lemma contactFromBlock_setName (c : Contact.t) (v : jsstring) :
  contactFromBlock c -> contactFromBlock (Parser.setName c v).
Proof. intros H. exact H. Qed.

Lemma fromBlockParsers_initial :
  fromBlockParsers (ParsedResume.mk Contact.empty [] [] [] [] (Some [])).
Proof.
  unfold fromBlockParsers.
  cbn [ParsedResume.education ParsedResume.experience ParsedResume.projects
       ParsedResume.skills ParsedResume.contact ParsedResume.otherSections].
  split; [now exists []|]. split; [now exists []|]. split; [now exists []|].
  split; [now exists []|]. split; [exact contactFromBlock_empty | discriminate].
Qed.

Lemma fromBlockParsers_setEducation (r : ParsedResume.t) (text : jsstring) :
  fromBlockParsers r ->
  fromBlockParsers (Parser.setEducation r (Parser.parseEducationBlock text)).
Proof.
  intros (H1 & H2 & H3 & H4 & H5 & H6).
  repeat (split; [first [assumption | now exists text]|]); assumption.
Qed.

Lemma fromBlockParsers_setExperience (r : ParsedResume.t) (text : jsstring) :
  fromBlockParsers r ->
  fromBlockParsers (Parser.setExperience r (Parser.parseExperienceBlock text)).
Proof.
  intros (H1 & H2 & H3 & H4 & H5 & H6).
  repeat (split; [first [assumption | now exists text]|]); assumption.
Qed.

Lemma fromBlockParsers_setProjects (r : ParsedResume.t) (text : jsstring) :
  fromBlockParsers r ->
  fromBlockParsers (Parser.setProjects r (Parser.parseProjectsBlock text)).
Proof.
  intros (H1 & H2 & H3 & H4 & H5 & H6).
  repeat (split; [first [assumption | now exists text]|]); assumption.
Qed.

Lemma fromBlockParsers_setSkills (r : ParsedResume.t) (text : jsstring) :
  fromBlockParsers r ->
  fromBlockParsers (Parser.setSkills r (Parser.parseSkillsBlock text)).
Proof.
  intros (H1 & H2 & H3 & H4 & H5 & H6).
  repeat (split; [first [assumption | now exists text]|]); assumption.
Qed.

Lemma fromBlockParsers_setContact (r : ParsedResume.t) (c : Contact.t) :
  fromBlockParsers r -> contactFromBlock c ->
  fromBlockParsers (Parser.setContact r c).
Proof.
  intros (H1 & H2 & H3 & H4 & _ & H6) Hc.
  repeat (split; [assumption|]); assumption.
Qed.

Lemma fromBlockParsers_setOtherSections (r : ParsedResume.t) (o : Obj.t) :
  fromBlockParsers r -> fromBlockParsers (Parser.setOtherSections r o).
Proof.
  intros (H1 & H2 & H3 & H4 & H5 & _).
  repeat (split; [assumption|]). discriminate.
Qed.

Lemma fromBlockParsers_contact (r : ParsedResume.t) :
  fromBlockParsers r -> contactFromBlock (ParsedResume.contact r).
Proof. intros (_ & _ & _ & _ & H & _). exact H. Qed.

Section WholeParser.
Variable toLowerCase : jsstring -> jsstring.

Lemma assignByHeader_fromBlockParsers (r : ParsedResume.t) (s : Parser.section) :
  fromBlockParsers r -> fromBlockParsers (Parser.assignByHeader toLowerCase r s).
Proof.
  intros H. unfold Parser.assignByHeader. cbv zeta.
  repeat match goal with
         | |- fromBlockParsers (if ?b then _ else _) => destruct b
         end.
  - now apply fromBlockParsers_setEducation.
  - now apply fromBlockParsers_setExperience.
  - now apply fromBlockParsers_setProjects.
  - now apply fromBlockParsers_setSkills.
  - apply fromBlockParsers_setContact; [exact H | apply contactFromBlock_parse].
  - now apply fromBlockParsers_setOtherSections.
Qed.

Lemma assignSection_fromBlockParsers (r : ParsedResume.t) (s : Parser.section) :
  fromBlockParsers r -> fromBlockParsers (Parser.assignSection toLowerCase r s).
Proof.
  intros H. unfold Parser.assignSection. cbv zeta.
  pose proof (contactFromBlock_spread _ _ (fromBlockParsers_contact r H)
                (contactFromBlock_parse (Parser.content s))) as Hc.
  destruct (_ || _ || _).
  - apply fromBlockParsers_setContact; [exact H|].
    destruct (_ && _); [|exact Hc].
    destruct (option_map _ _) as [firstLine|]; [|exact Hc].
    destruct (_ && _); [|exact Hc]. now apply contactFromBlock_setName.
  - repeat match goal with
           | |- fromBlockParsers (if ?b then _ else _) => destruct b
           end.
    + now apply fromBlockParsers_setEducation.
    + now apply fromBlockParsers_setExperience.
    + now apply fromBlockParsers_setProjects.
    + now apply fromBlockParsers_setSkills.
    + now apply fromBlockParsers_setOtherSections.
Qed.

Lemma fillFromHeader_fromBlockParsers (r : ParsedResume.t) (s : Parser.section) :
  fromBlockParsers r -> fromBlockParsers (Parser.fillFromHeader toLowerCase r s).
Proof.
  intros H. unfold Parser.fillFromHeader. cbv zeta.
  repeat match goal with
         | |- fromBlockParsers (if ?b then _ else _) => destruct b
         end.
  - now apply fromBlockParsers_setEducation.
  - now apply fromBlockParsers_setExperience.
  - now apply fromBlockParsers_setProjects.
  - now apply fromBlockParsers_setSkills.
  - apply fromBlockParsers_setContact; [exact H|].
    apply contactFromBlock_spread;
      [now apply fromBlockParsers_contact | apply contactFromBlock_parse].
  - exact H.
Qed.

Lemma parseHtmlToResume_fromBlockParsers (html : jsstring) :
  fromBlockParsers (Parser.parseHtmlToResume toLowerCase html).
Proof.
  unfold Parser.parseHtmlToResume. cbv zeta.
  destruct (length _ =? 0).
  - destruct (0 <? _).
    + match goal with
      | |- fromBlockParsers (if _ then Parser.setContact ?r _ else _) =>
          assert (Hr : fromBlockParsers r)
            by (apply fold_left_invariant;
                [intros a b; apply assignByHeader_fromBlockParsers
                | exact fromBlockParsers_initial])
      end.
      destruct (Parser.noNameNoEmail _); [|exact Hr].
      apply fromBlockParsers_setContact; [exact Hr | apply contactFromBlock_parse].
    + apply fromBlockParsers_setOtherSections, fromBlockParsers_setContact;
        [exact fromBlockParsers_initial | apply contactFromBlock_parse].
  - match goal with
    | |- fromBlockParsers (if _ then _ else ?r) =>
        assert (Hr : fromBlockParsers r)
          by (apply fold_left_invariant;
              [intros a b; apply assignSection_fromBlockParsers
              | exact fromBlockParsers_initial])
    end.
    destruct (_ || _ || _); [|exact Hr].
    match goal with
    | |- fromBlockParsers (if _ then Parser.setContact ?r _ else _) =>
        assert (Hf : fromBlockParsers r)
          by (apply fold_left_invariant;
              [intros a b; apply fillFromHeader_fromBlockParsers | exact Hr])
    end.
    destruct (Parser.noNameNoEmail _); [|exact Hf].
    apply fromBlockParsers_setContact; [exact Hf|].
    apply contactFromBlock_spread;
      [now apply fromBlockParsers_contact | apply contactFromBlock_parse].
Qed.

End WholeParser.

(** Whatever the markup, every list section of the parsed resume is what
    its extractor returns on some text (on the empty text when the section
    was not found), and the e-mail address, the phone number, the location
    and the profile address are what the contact extractor returns on some
    text.  So what the extractors guarantee holds of every parsed resume:
    its experience entries are tidy, no skill is empty, carries white space
    at either end or holds a comma or a line feed, no project has an empty
    title or an empty or untrimmed bullet, and every education entry has a
    raw text that is not empty.  The other sections are always an object. *)
Theorem parseHtmlToResume_sections_come_from_extractors :
  forall (toLowerCase : jsstring -> jsstring) (html : jsstring),
    let resume := Parser.parseHtmlToResume toLowerCase html in
    let contact := ParsedResume.contact resume in
    ((exists text, ParsedResume.education resume = Parser.parseEducationBlock text)
     /\ (exists text, ParsedResume.experience resume = Parser.parseExperienceBlock text)
     /\ (exists text, ParsedResume.projects resume = Parser.parseProjectsBlock text)
     /\ (exists text, ParsedResume.skills resume = Parser.parseSkillsBlock text)
     /\ (exists text,
           Contact.email contact = Contact.email (Parser.parseContactBlock text))
     /\ (exists text,
           Contact.phone contact = Contact.phone (Parser.parseContactBlock text))
     /\ (exists text,
           Contact.location contact = Contact.location (Parser.parseContactBlock text))
     /\ (exists text,
           Contact.linkedin contact = Contact.linkedin (Parser.parseContactBlock text)))
    /\ Forall tidyExperience (ParsedResume.experience resume)
    /\ Forall (fun skill =>
                 skill <> [] /\ JS.trim skill = skill
                 /\ ~ In (chr ",") skill /\ ~ In Parser.LF skill)
         (ParsedResume.skills resume)
    /\ Forall (fun p =>
                 ProjectEntry.title p <> Some []
                 /\ Forall (fun b => b <> [] /\ JS.trim b = b) (ProjectEntry.bullets p))
         (ParsedResume.projects resume)
    /\ Forall (fun e =>
                 exists raw, EducationEntry.rawText e = Some raw
                             /\ raw <> [] /\ JS.trim raw = raw)
         (ParsedResume.education resume)
    /\ ParsedResume.otherSections resume <> None.
Proof.
  intros toLowerCase html resume contact.
  destruct (parseHtmlToResume_fromBlockParsers toLowerCase html)
    as ((te & He) & (tx & Hx) & (tp & Hp) & (ts & Hs) & (Hc1 & Hc2 & Hc3 & Hc4) & Ho).
  fold resume in He, Hx, Hp, Hs, Hc1, Hc2, Hc3, Hc4, Ho. fold contact in Hc1, Hc2, Hc3, Hc4.
  split; [|split; [|split; [|split; [|split]]]].
  - split; [now exists te|]. split; [now exists tx|]. split; [now exists tp|].
    split; [now exists ts|]. now repeat split.
  - rewrite Hx. exact (proj2 (parseExperienceBlock_spec tx)).
  - rewrite Hs. exact (parseSkillsBlock_spec ts).
  - rewrite Hp. exact (proj2 (proj2 (parseProjectsBlock_spec tp))).
  - rewrite He. pose proof (proj2 (parseEducationBlock_spec te)) as H.
    eapply Forall_impl; [|exact H]. intros e (Hraw & _). exact Hraw.
  - exact Ho.
Qed.

(* ------------------------------------------------------------------ *)
(** ** The tokenizer against the specification's words *)
(* ------------------------------------------------------------------ *)

Lemma runsGo_words_only (p : char -> bool) (s cur t : jsstring) :
  forallb p cur = true -> In t (runsGo p cur s) -> forallb p t = true.
Proof.
  revert cur. induction s as [|c s IH]; intros cur Hcur; cbn [runsGo].
  - intros [<- | []]. apply forallb_forall. intros x Hx. apply in_rev in Hx.
    rewrite forallb_forall in Hcur. now apply Hcur.
  - destruct (p c) eqn:Ec.
    + apply IH. cbn [forallb]. now rewrite Ec.
    + intros [<- | H]; [|now apply (IH [])].
      apply forallb_forall. intros x Hx. apply in_rev in Hx.
      rewrite forallb_forall in Hcur. now apply Hcur.
Qed.

(** Only the characters that satisfy [p] matter to the stretches, and of
    the others only where they stand. *)
Lemma runsGo_flat_map (p : char -> bool) (f : char -> jsstring) (s : jsstring) :
  (forall c, p c = true -> f c = [c]) ->
  (forall c, p c = false -> exists d, f c = [d] /\ p d = false) ->
  forall cur, runsGo p cur (flat_map f s) = runsGo p cur s.
Proof.
  intros Hkeep Hcut. induction s as [|c s IH]; intros cur; [reflexivity|].
  cbn [flat_map]. destruct (p c) eqn:Ec.
  - rewrite (Hkeep c Ec). cbn [app runsGo]. now rewrite Ec, IH.
  - destruct (Hcut c Ec) as (d & -> & Hd). cbn [app runsGo]. now rewrite Ec, Hd, IH.
Qed.

Lemma space_no_word (c : char) : Chars.isSpace c = true -> Chars.isWord c = false.
Proof.
  unfold Chars.isSpace, Chars.isWord, Chars.isLineTerminator, Chars.isDigit,
    Chars.isUpper, Chars.isLower, Chars.inRange.
  rewrite !orb_true_iff, !orb_false_iff, !andb_false_iff, !N.leb_gt,
    ?andb_true_iff, ?N.leb_le, !N.eqb_eq, !N.eqb_neq.
  unfold char in *. lia.
Qed.

Lemma filter_nonEmpty_cons_nil (l : list jsstring) :
  filter nonEmpty ([] :: l) = filter nonEmpty l.
Proof. reflexivity. Qed.

(** One or more of a class never matches the empty text, and what it
    matches belongs to the class. *)
Lemma plus_class_matchAt (items : list RegExp.citem) (prev rest : jsstring) (n : nat)
  (cs : list (nat * jsstring)) :
  RegExp.matchAt RegExp.noFlags (RegExp.Plus (RegExp.Cls items)) prev rest = Some (n, cs) ->
  1 <= n /\ forallb (RegExp.inClass RegExp.noFlags items) (firstn n rest) = true.
Proof.
  intros H. apply matchAt_sound in H as (s & y & Hm & Ho & Hn & Hs & _).
  apply rep_class_over in Hm as (s' & Ho' & Hlen & _ & Hall).
  rewrite (over_unique s s' _ y Ho Ho') in *. subst n. now rewrite Hs.
Qed.

(** Collapsing white space changes no word: it only takes empty stretches
    away. *)
Lemma collapse_keeps_words :
  forall (rest : jsstring) (skip : nat) (prev cur : jsstring),
    (skip = 0 \/ cur = []) ->
    (forall c, In c (firstn skip rest) -> Chars.isWord c = false) ->
    filter nonEmpty
      (runsGo Chars.isWord cur
         (RegExp.replaceGo RegExp.noFlags (RegExp.Plus (RegExp.Cls [RegExp.ISpace]))
            [32%N] skip prev rest))
    = filter nonEmpty (runsGo Chars.isWord cur rest).
Proof.
  induction rest as [|c rest IH]; intros skip prev cur Hcur Hskip.
  - destruct skip; reflexivity.
  - destruct skip as [|skip].
    + cbn [RegExp.replaceGo].
      destruct (RegExp.matchAt _ _ prev (c :: rest)) as [[n cs]|] eqn:Em.
      * apply plus_class_matchAt in Em as [Hn Hall].
        destruct n as [|n]; [lia|].
        cbn [firstn forallb] in Hall. apply andb_true_iff in Hall as [Hc Hall].
        rewrite inClass_space in Hc. apply space_no_word in Hc.
        cbn [app runsGo].
        change (Chars.isWord 32%N) with false. cbv iota. rewrite Hc.
        cbn [filter]. rewrite (IH n (c :: prev) []); [reflexivity | now right |].
        intros d Hd. rewrite forallb_forall in Hall. specialize (Hall d Hd).
        rewrite inClass_space in Hall. now apply space_no_word.
      * cbn [runsGo]. destruct (Chars.isWord c).
        -- apply IH; [now left | intros d []].
        -- cbn [filter]. rewrite (IH 0 (c :: prev) []); [reflexivity | now left |].
           intros d [].
    + destruct Hcur as [Hcur | ->]; [discriminate|].
      cbn [RegExp.replaceGo runsGo]. rewrite (Hskip c) by now left.
      cbn [rev]. rewrite filter_nonEmpty_cons_nil.
      apply IH; [now right|]. intros d Hd. apply Hskip. now right.
Qed.

(** On a text of word characters and single spaces, splitting at the
    spaces gives the words. *)
Lemma split_space_runs :
  forall (s : jsstring) (fuel : nat) (cur : jsstring),
    length s <= fuel ->
    Forall (fun c => c = 32%N \/ Chars.isWord c = true) s ->
    JS.splitGo fuel [32%N] cur s = runsGo Chars.isWord cur s.
Proof.
  induction s as [|c s IH]; intros fuel cur Hlen Hs.
  - destruct fuel; reflexivity.
  - destruct fuel as [|fuel]; [simpl in Hlen; lia|].
    inversion Hs as [|? ? Hc Hs']; subst.
    cbn [JS.splitGo JS.stripPrefix runsGo].
    destruct (N.eqb_spec 32 c) as [<- | Hne].
    + change (Chars.isWord 32%N) with false. cbv iota. f_equal.
      apply IH; [simpl in Hlen; lia | exact Hs'].
    + destruct Hc as [-> | Hc]; [contradiction|]. rewrite Hc.
      apply IH; [simpl in Hlen; lia | exact Hs'].
Qed.

(** Trimming leaves a word alone. *)
Lemma trim_word (t : jsstring) : forallb Chars.isWord t = true -> JS.trim t = t.
Proof.
  intros Ht.
  assert (Hno : forall s, forallb Chars.isWord s = true -> JS.trimStart s = s).
  { intros s Hs. apply trimStart_fixed. destruct s as [|c s]; [exact I|].
    cbn [forallb] in Hs. apply andb_true_iff in Hs as [Hc _].
    destruct (Chars.isSpace c) eqn:E; [|reflexivity].
    apply space_no_word in E. congruence. }
  unfold JS.trim, JS.trimEnd. rewrite (Hno t Ht), Hno, rev_involutive; [reflexivity|].
  apply forallb_forall. intros c Hc. apply in_rev in Hc.
  rewrite forallb_forall in Ht. now apply Ht.
Qed.

Lemma map_trim_words (l : list jsstring) :
  Forall (fun t => forallb Chars.isWord t = true) l -> map JS.trim l = l.
Proof.
  induction 1 as [|t l Ht _ IH]; [reflexivity|].
  cbn [map]. now rewrite (trim_word t Ht), IH.
Qed.

Lemma filter_filter_implied {A} (f g : A -> bool) (l : list A) :
  (forall x, f x = true -> g x = true) -> filter f (filter g l) = filter f l.
Proof.
  intros H. induction l as [|x l IH]; [reflexivity|].
  cbn [filter]. destruct (g x) eqn:Eg.
  - cbn [filter]. now rewrite IH.
  - rewrite IH. destruct (f x) eqn:Ef; [|reflexivity].
    apply H in Ef. congruence.
Qed.

Section PurelyNumeric.
Import RegExp.

Lemma atBol_start (x : mstate) : atBol noFlags x = true -> before x = [].
Proof. unfold atBol. cbn [multiline noFlags andb]. now destruct (before x). Qed.

Lemma atEol_end (x : mstate) : atEol noFlags x = true -> after x = [].
Proof. unfold atEol. cbn [multiline noFlags andb]. now destruct (after x). Qed.

(** [/^\d+$/] matches exactly the texts of one or more digits. *)
Lemma isNumeric_digits (t : jsstring) :
  isNumeric t = nonEmpty t && forallb Chars.isDigit t.
Proof.
  unfold isNumeric, test.
  destruct (exec noFlags _ t) as [m|] eqn:E.
  - symmetry. apply exec_sound in E as (pre & y & Ht & _ & _ & Hm & _).
    cbn [Seqs] in Hm. apply seq_inv in Hm as (x1 & Hbol & Hm).
    cbn [matches] in Hbol. destruct Hbol as [Hbol ->].
    apply atBol_start in Hbol. cbn [before] in Hbol.
    apply seq_inv in Hm as (x2 & Hplus & Heol).
    cbn [matches] in Heol. destruct Heol as [Heol ->].
    apply atEol_end in Heol.
    apply rep_class_over in Hplus as (s & [Hs _] & Hlen & _ & Hall).
    cbn [after] in Hs. rewrite Heol, !app_nil_r in Hs.
    rewrite Heol, app_nil_r in Ht.
    assert (Hpre : pre = []) by (destruct pre; [reflexivity|];
                                 simpl in Hbol; now apply app_eq_nil in Hbol as [_ ?]).
    rewrite Ht, Hpre, Hs. cbn [app].
    destruct s as [|c s]; [simpl in Hlen; lia|]. cbn [nonEmpty andb].
    apply forallb_forall. intros d Hd. rewrite forallb_forall in Hall.
    rewrite <- inClass_digit. now apply Hall.
  - destruct t as [|c t]; [reflexivity|]. cbn [nonEmpty andb].
    destruct (forallb Chars.isDigit (c :: t)) eqn:Hall; [|reflexivity].
    exfalso. cbn [forallb] in Hall. apply andb_true_iff in Hall as [Hc Hall].
    unfold exec in E.
    assert (Hm : exists cs,
               matchAt noFlags
                 (Seqs [Bol; Plus (Cls [IDigit]); Eol]) [] (c :: t)
               = Some (length (c :: t), cs)).
    { unfold matchAt.
      set (z := {| before := rev t ++ [c]; after := []; caps := [] |}).
      assert (Hrun : run noFlags (Seqs [Bol; Plus (Cls [IDigit]); Eol]) Some
                       {| before := []; after := c :: t; caps := [] |} = Some z).
      { change (run noFlags (Seqs [Bol; Plus (Cls [IDigit]); Eol]) Some ?x)
          with (run noFlags (Plus (Cls [IDigit])) (run noFlags Eol Some) x).
        unfold Plus. rewrite run_Rep. cbn [exactLoop].
        change (run noFlags (Cls [IDigit])) with (one (inClass noFlags [IDigit])).
        unfold one at 1. cbn [after]. rewrite inClass_digit, Hc.
        cbn [option_map].
        apply greedy_run with (rest := @nil char) (s := t).
        - reflexivity.
        - cbn [step1 after]. now rewrite app_nil_r.
        - apply forallb_forall. intros d Hd. rewrite inClass_digit.
          rewrite forallb_forall in Hall. now apply Hall.
        - cbn [step1 after]. lia.
        - reflexivity. }
      rewrite Hrun. exists []. cbn [after caps z length]. now rewrite Nat.sub_0_r. }
    destruct Hm as [cs Hm]. rewrite (search_here _ _ 0 _ _ _ _ Hm) in E. discriminate.
Qed.

End PurelyNumeric.

Lemma keepToken_keptWord (t : jsstring) : keepToken t = keptWord t.
Proof.
  unfold keepToken, keptWord. rewrite isNumeric_digits.
  destruct t as [|c t]; [reflexivity|]. reflexivity.
Qed.

(** The tokenizer computes the token set as the specification words it. *)
Lemma tokenize_specTokens (toLowerCase : jsstring -> jsstring) (text : jsstring) :
  tokenize toLowerCase text = specTokens toLowerCase text.
Proof.
  unfold tokenize, specTokens, wordsOf, runs. cbv zeta. f_equal.
  set (lowered := toLowerCase text).
  set (n1 := RegExp.replaceAll RegExp.noFlags
               (RegExp.NCls [RegExp.IWord; RegExp.ISpace]) (str " ") lowered).
  set (n2 := RegExp.replaceAll RegExp.noFlags
               (RegExp.Plus (RegExp.Cls [RegExp.ISpace])) (str " ") n1).
  assert (Hsplit : JS.split (str " ") n2 = runsGo Chars.isWord [] n2).
  { change (str " ") with [32%N]. unfold JS.split.
    apply split_space_runs; [lia | apply normalized_chars]. }
  assert (Hwords : Forall (fun t => forallb Chars.isWord t = true)
                     (runsGo Chars.isWord [] n2)).
  { apply Forall_forall. intros t Ht.
    now apply (runsGo_words_only Chars.isWord n2 []). }
  rewrite Hsplit, (map_trim_words _ Hwords).
  assert (Hkeep : forall l, filter keepToken l = filter keptWord l).
  { intros l. apply filter_ext. exact keepToken_keptWord. }
  rewrite Hkeep.
  assert (Hne : forall t, keptWord t = true -> nonEmpty t = true).
  { intros [|c t]; [discriminate | reflexivity]. }
  rewrite <- (filter_filter_implied keptWord nonEmpty _ Hne).
  rewrite <- (filter_filter_implied keptWord nonEmpty (runsGo _ [] lowered) Hne).
  f_equal.
  unfold n2, RegExp.replaceAll at 1. change (str " ") with [32%N] at 1.
  rewrite (collapse_keeps_words n1 0 [] []); [| now left | intros c []].
  f_equal. unfold n1.
  rewrite (replaceAll_oneChar _ _ _ _ _
             (oneChar_NCls RegExp.noFlags [RegExp.IWord; RegExp.ISpace])).
  apply runsGo_flat_map.
  - intros c Hc. now rewrite inClass_word_space, Hc.
  - intros c Hc. rewrite inClass_word_space, Hc. cbn [orb].
    destruct (Chars.isSpace c); cbn [negb].
    + now exists c.
    + now exists 32%N.
Qed.

(** C1.  For every resume and job-description text, token-mode comparison
    partitions the token set of the job description, and the token set is
    the one the specification describes: the words of the lower-cased text
    (its stretches of word characters, every other character being a
    separator) that are longer than two characters and not purely numeric,
    each once.  A token is in the matched or the missing list exactly when
    it is such a token of the job description, no token is in both,
    together the two lists hold each job token exactly once, and a job token
    is matched exactly when it is a token of the resume text and missing
    exactly when it is not. *)
Theorem compareKeywords_partitions_job_tokens :
  forall (toLowerCase : jsstring -> jsstring)
         (resume : ParsedResume.t) (jobDescription : jsstring),
    let r := compareKeywords toLowerCase resume jobDescription in
    let matched := AnalyzeResponse.matchedKeywords r in
    let missing := AnalyzeResponse.missingKeywords r in
    let jobTokens := specTokens toLowerCase jobDescription in
    let resumeTokens := specTokens toLowerCase (resumeText resume) in
    (forall t, In t jobTokens <->
               In t (wordsOf (toLowerCase jobDescription))
               /\ 2 < length t /\ forallb Chars.isDigit t = false)
    /\ (forall t, In t matched \/ In t missing <-> In t jobTokens)
    /\ (forall t, In t matched -> In t missing -> False)
    /\ Permutation (matched ++ missing) jobTokens
    /\ NoDup (matched ++ missing)
    /\ (forall t, In t matched <-> In t jobTokens /\ In t resumeTokens)
    /\ (forall t, In t missing <-> In t jobTokens /\ ~ In t resumeTokens).
Proof.
  intros toLowerCase resume jobDescription r matched missing jobTokens resumeTokens.
  assert (Hnodup : NoDup jobTokens) by apply ofList_NoDup.
  assert (Hm : matched = filter (StringSet.has resumeTokens) jobTokens).
  { unfold matched, r, compareKeywords. cbv zeta.
    rewrite !tokenize_specTokens.
    apply (classify_fold resumeTokens jobTokens (AnalyzeResponse.mk [] [])). }
  assert (Hx : missing
               = filter (fun t => negb (StringSet.has resumeTokens t)) jobTokens).
  { unfold missing, r, compareKeywords. cbv zeta.
    rewrite !tokenize_specTokens.
    apply (classify_fold resumeTokens jobTokens (AnalyzeResponse.mk [] [])). }
  assert (Hspec : forall t, In t jobTokens <->
                            In t (wordsOf (toLowerCase jobDescription))
                            /\ 2 < length t /\ forallb Chars.isDigit t = false).
  { intros t. unfold jobTokens, specTokens. rewrite ofList_In, filter_In.
    unfold keptWord. rewrite andb_true_iff, Nat.ltb_lt, negb_true_iff. tauto. }
  clearbody matched missing jobTokens resumeTokens. clear r.
  assert (Hperm : Permutation (matched ++ missing) jobTokens)
    by (rewrite Hm, Hx; apply filter_partition_Permutation).
  split; [exact Hspec|].
  split; [|split; [|split; [|split; [|split]]]].
  - intros t. split.
    + intros [H | H].
      * rewrite Hm in H. now apply filter_In in H.
      * rewrite Hx in H. now apply filter_In in H.
    + intros H. apply in_app_iff.
      eapply Permutation_in; [apply Permutation_sym, Hperm | exact H].
  - intros t H1 H2. rewrite Hm in H1. rewrite Hx in H2.
    apply filter_In in H1 as [_ H1]. apply filter_In in H2 as [_ H2].
    rewrite H1 in H2. discriminate.
  - exact Hperm.
  - eapply Permutation_NoDup; [apply Permutation_sym, Hperm | exact Hnodup].
  - intros t. rewrite Hm, filter_In, has_In. tauto.
  - intros t. rewrite Hx, filter_In, negb_true_iff. split.
    + intros [H1 H2]. split; [exact H1|]. intros H. apply has_In in H. congruence.
    + intros [H1 H2]. split; [exact H1|].
      destruct (StringSet.has resumeTokens t) eqn:E; [|reflexivity].
      apply has_In in E. contradiction.
Qed.

(** The words and the tokens of a small job description. *)
Example specTokens_example :
  wordsOf (str "react, node.js & 3 apis; 2024 go")
  = [str "react"; str ""; str "node"; str "js"; str ""; str ""; str "3";
     str "apis"; str ""; str "2024"; str "go"]
  /\ specTokens asciiToLowerCase (str "React, Node.js & 3 APIs; 2024 Go react")
     = [str "react"; str "node"; str "apis"].
Proof. split; vm_compute; reflexivity. Qed.

(* ------------------------------------------------------------------ *)
(** ** Running the generator a second time *)
(* ------------------------------------------------------------------ *)







(** *** Stretches *)






(** *** What the stretches between braces hold *)













(** *** Braces *)








(** Why the literal values must hold no brace: a bullet that starts with two
    closing braces stands once in the document, yet after the first run it
    is found where the name's placeholder ends, and the second run finds it
    again. *)
Example second_run_brace_example :
  let parsed :=
    ParsedResume.mk (Contact.mk (Some (str "Ann")) None None None None) []
      [ExperienceEntry.mk None None None None None [str "}} rocks"]] [] [] None in
  let docXml := str "<w:t>Ann rocks; also }} rocks</w:t>" in
  occurrences docXml (str "}} rocks") = 1
  /\ generateTemplate parsed docXml
     = str "<w:t>{{contact.name{{experience.0.bullet.0}}; also }} rocks</w:t>"
  /\ generateTemplate parsed (generateTemplate parsed docXml)
     = str "<w:t>{{contact.name{{experience.0.bullet.0}}; also {{experience.0.bullet.0}}</w:t>".
Proof. repeat split; vm_compute; reflexivity. Qed.

(* ------------------------------------------------------------------ *)
(** ** Where the bullets of the experience entries come from *)
(* ------------------------------------------------------------------ *)

Lemma experienceEntry_bullets (block : jsstring) (e : ExperienceEntry.t) :
  Parser.experienceEntry block = Some e -> bulletsBelowHeader block e.
Proof.
  intros He. unfold bulletsBelowHeader. cbv zeta.
  set (lines := Parser.trimmedLines block).
  unfold Parser.experienceEntry in He. fold lines in He.
  destruct (at_ lines 0) as [firstLine|] eqn:Hfirst; [|discriminate].
  destruct (_ || _ || _ || _); [discriminate|].
  cbv zeta in He.
  destruct (if JS.includes _ _ then _ else _) as [company location].
  injection He as <-. cbn [ExperienceEntry.bullets].
  assert (Hb : forall bs : list jsstring, (if 0 <? length bs then bs else []) = bs)
    by (intros [|b bs]; reflexivity).
  rewrite Hb.
  destruct (stripExperienceHeaderLines_own_first_line block firstLine Hfirst)
    as [H | [H Hsecond]]; fold lines in H; rewrite H; [now left | now right].
Qed.

Lemma experience_fold_origin (all blocks : list jsstring)
  (acc : list ExperienceEntry.t) :
  let built :=
    fun e => exists block,
        In block all /\ Parser.experienceEntry block = Some e
        /\ bulletsBelowHeader block e in
  (forall b, In b blocks -> In b all) ->
  Forall built acc ->
  Forall built
    (fold_left
       (fun entries block =>
          match Parser.experienceEntry block with
          | Some e => entries ++ [e]
          | None => entries
          end)
       blocks acc).
Proof.
  intros built. revert acc.
  induction blocks as [|b blocks IH]; intros acc Hall Hacc; [exact Hacc|].
  cbn [fold_left]. apply IH; [intros b' Hb'; apply Hall; now right|].
  destruct (Parser.experienceEntry b) as [e|] eqn:E; [|exact Hacc].
  apply Forall_app. split; [exact Hacc|]. constructor; [|constructor].
  exists b. split; [apply Hall; now left|]. split; [exact E|].
  now apply experienceEntry_bullets.
Qed.

Lemma experience_fold_nil (blocks : list jsstring) :
  forall acc : list ExperienceEntry.t,
    fold_left
      (fun entries block =>
         match Parser.experienceEntry block with
         | Some e => entries ++ [e]
         | None => entries
         end)
      blocks acc = [] ->
    acc = [] /\ forall b, In b blocks -> Parser.experienceEntry b = None.
Proof.
  induction blocks as [|b blocks IH]; intros acc H; [now split|].
  cbn [fold_left] in H. apply IH in H as [Hacc Hrest].
  destruct (Parser.experienceEntry b) as [e|] eqn:E.
  - now apply app_eq_nil in Hacc as [_ Hacc].
  - split; [exact Hacc|]. intros b' [<- | Hb']; [exact E | now apply Hrest].
Qed.

(** Where the bullets of the experience entries come from.  Either every
    entry is built from one of the job blocks of the text, and then its
    bullets are taken from below the block's first line with content, so
    that line is never read as a bullet, and from below the second line as
    well only when that holds a bar.  Or no block gave an entry and the text
    has content: then the one entry returned has no company, role,
    location, dates or subheader, and its bullets are taken from the whole
    text, first line included. *)
Theorem parseExperienceBlock_bullets_origin :
  forall text : jsstring,
    let entries := Parser.parseExperienceBlock text in
    Forall
      (fun e =>
         exists block,
           In block (experienceBlocks text)
           /\ Parser.experienceEntry block = Some e
           /\ bulletsBelowHeader block e)
      entries
    \/ (JS.blank text = false
        /\ (forall block, In block (experienceBlocks text) ->
                          Parser.experienceEntry block = None)
        /\ entries
           = [ExperienceEntry.mk None None None None None
                (Parser.extractBullets text)]).
Proof.
  intros text entries. unfold entries, Parser.parseExperienceBlock. cbv zeta.
  change (if length _ <=? 1 then _ else _) with (experienceBlocks text).
  set (found := fold_left _ (experienceBlocks text) []).
  assert (Hfound : Forall
                     (fun e =>
                        exists block,
                          In block (experienceBlocks text)
                          /\ Parser.experienceEntry block = Some e
                          /\ bulletsBelowHeader block e)
                     found).
  { apply (experience_fold_origin (experienceBlocks text));
      [intros b Hb; exact Hb | constructor]. }
  rewrite nonEmpty_trim.
  destruct (length found =? 0) eqn:El; [|left; exact Hfound].
  destruct (JS.blank text) eqn:Eb; [left; exact Hfound|].
  right. split; [reflexivity|]. cbn [andb negb].
  apply Nat.eqb_eq, length_zero_iff_nil in El. split.
  - now apply (experience_fold_nil (experienceBlocks text) []).
  - rewrite El. cbn [app]. f_equal. f_equal.
    destruct (extractBullets_spec text) as (_ & _ & _ & Hnil).
    destruct (Parser.extractBullets text) as [|b bs]; [|reflexivity].
    destruct Hnil as [Hnil _]. specialize (Hnil eq_refl). congruence.
Qed.

(** A block whose first line is in capitals gives no entry; the entry
    returned in its place takes its bullets from the whole text, so the
    first line is among them. *)
Example parseExperienceBlock_fallback_example :
  Parser.parseExperienceBlock (Sample.text ["ACME CORP"; "Built things"]%string)
  = [ExperienceEntry.mk None None None None None
       [str "ACME CORP"; str "Built things"]].
Proof. vm_compute. reflexivity. Qed.
